(** * Document-boundary inference of the OpenCV document scanner

    A shallow embedding of the boundary engine of [scan.py]
    ([DocScanner.filter_corners], [angle_between_vectors_degrees],
    [get_angle], [angle_range], [is_valid_contour] and the selection part of
    [get_contour]) and the properties its specification states about it.

    Conventions of the embedding.
    - Pixel coordinates are integers ([Z]): corners are tuples of numpy
      integers and contours are [int32] arrays.
    - Floating-point values are read twice. The modules [Float], [Angles]
      and [Scanner] idealise them as exact reals ([R]), with the NaN of
      [0.0 / 0.0] kept as a value of its own ([NaN]); what is proved on them
      is the arithmetic-free part of the code: the order of the tests, the
      sorting and the selection. The module [Doubles] embeds the angle
      computation, the validity test and the selection on IEEE 754 binary64
      numbers, rounding included; the properties that depend on rounding, and
      on the "math domain error" of [math.acos] that rounding causes, are
      stated on it.
    - Python exceptions are results of their own ([Raise]). *)

From Stdlib Require Import ZArith List Bool Reals Lra Lia Psatz Permutation Sorted.
From Stdlib Require Import SpecFloat.
Import ListNotations.

Set Implicit Arguments.

(** ** Data model *)

(** A pixel position [(x, y)]. *)
Definition Point : Type := (Z * Z)%type.

(** An OpenCV contour: the sequence of its vertices. *)
Definition contour : Type := list Point.

(** A point with real coordinates (a float array of two entries). *)
Definition RPoint : Type := (R * R)%type.

Definition to_float (p : Point) : RPoint := (IZR (fst p), IZR (snd p)).

(** ** [filter_corners] *)

Module Corners.

Open Scope R_scope.

(** [scipy.spatial.distance.euclidean]. *)
Definition euclidean (u v : Point) : R :=
  sqrt ((IZR (fst u) - IZR (fst v))² + (IZR (snd u) - IZR (snd v))²).

(** The comparison [a >= b] of two floats, as a boolean. *)
Definition Rgeb (a b : R) : bool := if Rle_dec b a then true else false.

Section Greedy.

(** [far representative corner] is the test of one representative. *)
Variable far : Point -> Point -> bool.

(** The inner function [predicate] of [filter_corners]. *)
Definition predicate (representatives : list Point) (corner : Point) : bool :=
  forallb (fun representative => far representative corner) representatives.

(** The loop [for c in corners], with [filtered_corners] as its state. *)
Fixpoint filter_loop (filtered_corners corners : list Point) : list Point :=
  match corners with
  | [] => filtered_corners
  | c :: rest =>
      if predicate filtered_corners c
      then filter_loop (filtered_corners ++ [c]) rest
      else filter_loop filtered_corners rest
  end.

(** What the loop appends to its state. *)
Fixpoint appended (filtered_corners corners : list Point) : list Point :=
  match corners with
  | [] => []
  | c :: rest =>
      if predicate filtered_corners c
      then c :: appended (filtered_corners ++ [c]) rest
      else appended filtered_corners rest
  end.

Lemma filter_loop_appended (corners acc : list Point) :
  filter_loop acc corners = acc ++ appended acc corners.
Proof.
  revert acc; induction corners as [|c rest IH]; intros acc; simpl.
  - now rewrite app_nil_r.
  - destruct (predicate acc c); [|apply IH].
    rewrite IH, <- app_assoc. reflexivity.
Qed.

Lemma filter_loop_app (l1 l2 acc : list Point) :
  filter_loop acc (l1 ++ l2) = filter_loop (filter_loop acc l1) l2.
Proof.
  revert acc; induction l1 as [|c rest IH]; intros acc; simpl; [reflexivity|].
  destruct (predicate acc c); apply IH.
Qed.

Lemma appended_fixed (corners acc : list Point) :
  appended acc (appended acc corners) = appended acc corners.
Proof.
  revert acc; induction corners as [|c rest IH]; intros acc; simpl; [reflexivity|].
  destruct (predicate acc c) eqn:Hc; [|apply IH].
  simpl. rewrite Hc. f_equal. apply IH.
Qed.

Lemma filter_loop_fixed (corners : list Point) :
  filter_loop [] (filter_loop [] corners) = filter_loop [] corners.
Proof.
  rewrite !filter_loop_appended. simpl. apply appended_fixed.
Qed.

(** Any two points the loop keeps pass the test, the earlier one being
    the representative. *)
Definition pairwise_far : list Point -> Prop :=
  ForallOrdPairs (fun representative corner => far representative corner = true).

Lemma pairwise_far_snoc (l : list Point) (c : Point) :
  pairwise_far l -> predicate l c = true -> pairwise_far (l ++ [c]).
Proof.
  unfold pairwise_far, predicate. rewrite forallb_forall.
  induction 1 as [|r l Hr Hl IH]; intros Hc; simpl.
  - constructor; [constructor|constructor].
  - constructor.
    + rewrite Forall_app. split; [exact Hr|].
      constructor; [|constructor]. apply Hc. now left.
    + apply IH. intros x Hx. apply Hc. now right.
Qed.

Lemma filter_loop_pairwise_far (corners acc : list Point) :
  pairwise_far acc -> pairwise_far (filter_loop acc corners).
Proof.
  revert acc; induction corners as [|c rest IH]; intros acc Hacc; simpl; [exact Hacc|].
  destruct (predicate acc c) eqn:Hc; apply IH; [|exact Hacc].
  now apply pairwise_far_snoc.
Qed.

End Greedy.

(** [filter_corners(corners, min_dist)]. *)
Definition filter_corners (corners : list Point) (min_dist : R) : list Point :=
  filter_loop (fun representative corner => Rgeb (euclidean representative corner) min_dist)
    [] corners.

(** The default [min_dist=20]. *)
Definition default_min_dist : R := 20.

(** The same test on integers, for an integer [min_dist]. *)
Definition far_int (d : Z) (u v : Point) : bool :=
  ((d <=? 0) || (d * d <=? (fst u - fst v) * (fst u - fst v)
                            + (snd u - snd v) * (snd u - snd v)))%Z.

End Corners.

(** ** Exceptions and floats *)

(** The Python exceptions the modelled code can raise. *)
Inductive exn : Type := ValueError | IndexError.

Inductive result (A : Type) : Type :=
| Ok (a : A)
| Raise (e : exn).

Arguments Ok {A} a.
Arguments Raise {A} e.

Definition bind {A B : Type} (c : result A) (k : A -> result B) : result B :=
  match c with
  | Ok a => k a
  | Raise e => Raise e
  end.

Notation "x <- c ;; k" := (bind c (fun x => k))
  (at level 61, c at next level, right associativity).

(** [[f(x) for x in l]], stopping at the first exception. *)
Fixpoint mapM {A B : Type} (f : A -> result B) (l : list A) : result (list B) :=
  match l with
  | [] => Ok []
  | x :: t => y <- f x ;; ys <- mapM f t ;; Ok (y :: ys)
  end.

(** A float: a real, an infinity or NaN. *)
Inductive float : Type :=
| Fin (r : R)
| PInf
| NInf
| NaN.

Module Float.

Open Scope R_scope.

Definition Rltb (a b : R) : bool := if Rlt_dec a b then true else false.

(** [a < b]; every comparison with NaN is false. *)
Definition ltb (a b : float) : bool :=
  match a, b with
  | NaN, _ | _, NaN => false
  | Fin x, Fin y => Rltb x y
  | NInf, (Fin _ | PInf) => true
  | Fin _, PInf => true
  | _, _ => false
  end.

(** [a / b] of two finite floats, as numpy divides: no exception. *)
Definition divide (a b : R) : float :=
  if Req_dec_T b 0
  then (if Req_dec_T a 0 then NaN else if Rlt_dec 0 a then PInf else NInf)
  else Fin (a / b).

(** [math.acos]: NaN for NaN, "math domain error" outside [-1, 1]. *)
Definition math_acos (x : float) : result float :=
  match x with
  | NaN => Ok NaN
  | Fin c => if Rle_dec (-1) c
             then if Rle_dec c 1 then Ok (Fin (acos c)) else Raise ValueError
             else Raise ValueError
  | PInf | NInf => Raise ValueError
  end.

(** [np.degrees] and [np.radians]. *)
Definition degrees (x : float) : float :=
  match x with
  | Fin r => Fin (r * (180 / PI))
  | other => other
  end.

Definition radians (x : R) : R := x * (PI / 180).

(** [np.maximum] and [np.minimum], which propagate NaN. *)
Definition maximum (a b : float) : float :=
  match a, b with
  | NaN, _ | _, NaN => NaN
  | _, _ => if ltb a b then b else a
  end.

Definition minimum (a b : float) : float :=
  match a, b with
  | NaN, _ | _, NaN => NaN
  | _, _ => if ltb b a then b else a
  end.

Definition sub (a b : float) : float :=
  match a, b with
  | NaN, _ | _, NaN => NaN
  | Fin x, Fin y => Fin (x - y)
  | PInf, PInf | NInf, NInf => NaN
  | PInf, _ | _, NInf => PInf
  | NInf, _ | _, PInf => NInf
  end.

(** [np.ptp] of a non-empty sequence: maximum minus minimum. *)
Definition ptp (x : float) (xs : list float) : float :=
  sub (fold_left maximum xs x) (fold_left minimum xs x).

End Float.

(** ** Angles *)

Module Angles.

Open Scope R_scope.

(** [np.dot] and [np.linalg.norm] of vectors of two entries. *)
Definition dot (u v : RPoint) : R := fst u * fst v + snd u * snd v.

Definition norm (u : RPoint) : R := sqrt ((fst u)² + (snd u)²).

Definition vsub (a b : RPoint) : RPoint := (fst a - fst b, snd a - snd b).

Definition vradians (p : RPoint) : RPoint := (Float.radians (fst p), Float.radians (snd p)).

(** [angle_between_vectors_degrees(u, v)]. *)
Definition angle_between_vectors_degrees (u v : RPoint) : result float :=
  a <- Float.math_acos (Float.divide (dot u v) (norm u * norm v)) ;;
  Ok (Float.degrees a).

(** [get_angle(p1, p2, p3)]. *)
Definition get_angle (p1 p2 p3 : RPoint) : result float :=
  let a := vradians p1 in
  let b := vradians p2 in
  let c := vradians p3 in
  let avec := vsub a b in
  let cvec := vsub c b in
  angle_between_vectors_degrees avec cvec.

(** [angle_range(quad)]; the unpacking [tl, tr, br, bl = quad] raises
    [ValueError] unless [quad] has four vertices. *)
Definition angle_range (quad : contour) : result float :=
  match quad with
  | [tl; tr; br; bl] =>
      ura <- get_angle (to_float tl) (to_float tr) (to_float br) ;;
      ula <- get_angle (to_float bl) (to_float tl) (to_float tr) ;;
      lra <- get_angle (to_float tr) (to_float br) (to_float bl) ;;
      lla <- get_angle (to_float br) (to_float bl) (to_float tl) ;;
      Ok (Float.ptp ura [ula; lra; lla])
  | _ => Raise ValueError
  end.

End Angles.

(** ** Facts about angles *)

Module AngleFacts.

Import Angles.
Open Scope R_scope.

Definition scale (k : R) (u : RPoint) : RPoint := (k * fst u, k * snd u).

Lemma vradians_vsub (p q : RPoint) :
  vsub (vradians p) (vradians q) = scale (PI / 180) (vsub p q).
Proof.
  unfold vsub, vradians, scale, Float.radians; simpl. f_equal; ring.
Qed.

Lemma dot_scale (k : R) (u v : RPoint) :
  dot (scale k u) (scale k v) = (k * k) * dot u v.
Proof. unfold dot, scale; simpl. ring. Qed.

Lemma norm_scale (k : R) (u : RPoint) :
  0 <= k -> norm (scale k u) = k * norm u.
Proof.
  intros Hk. unfold norm, scale; simpl.
  replace ((k * fst u)² + (k * snd u)²) with (k² * ((fst u)² + (snd u)²))
    by (unfold Rsqr; ring).
  rewrite sqrt_mult_alt by apply Rle_0_sqr.
  now rewrite sqrt_Rsqr.
Qed.

Lemma norm_nonneg (u : RPoint) : 0 <= norm u.
Proof. apply sqrt_pos. Qed.

Lemma norm_sqr (u : RPoint) : norm u * norm u = (fst u)² + (snd u)².
Proof.
  unfold norm. apply sqrt_sqrt.
  apply Rplus_le_le_0_compat; apply Rle_0_sqr.
Qed.

Lemma norm_zero (u : RPoint) : norm u = 0 <-> u = (0, 0).
Proof.
  split.
  - intros H. pose proof (norm_sqr u) as Hs. rewrite H in Hs.
    destruct u as [x y]; simpl in *. unfold Rsqr in Hs.
    f_equal; nra.
  - intros ->. unfold norm; simpl. unfold Rsqr.
    replace (0 * 0 + 0 * 0) with 0 by ring. apply sqrt_0.
Qed.

(** Cauchy-Schwarz, for vectors of two entries. *)
Lemma dot_bound (u v : RPoint) :
  (dot u v)² <= (norm u * norm v)².
Proof.
  unfold Rsqr.
  replace (norm u * norm v * (norm u * norm v))
    with ((norm u * norm u) * (norm v * norm v)) by ring.
  rewrite !norm_sqr. unfold dot, Rsqr.
  destruct u as [a b], v as [c d]; simpl.
  pose proof (Rle_0_sqr (a * d - b * c)) as Hsq. unfold Rsqr in Hsq.
  lra || nra.
Qed.

Lemma cosine_bound (u v : RPoint) :
  norm u * norm v <> 0 ->
  -1 <= dot u v / (norm u * norm v) <= 1.
Proof.
  intros Hn.
  assert (Hp : 0 < norm u * norm v).
  { pose proof (norm_nonneg u). pose proof (norm_nonneg v). nra. }
  pose proof (dot_bound u v) as Hb. unfold Rsqr in Hb.
  set (n := norm u * norm v) in *. set (d := dot u v) in *.
  assert (Hd : -n <= d <= n) by nra.
  split.
  - apply Rmult_le_reg_r with n; [exact Hp|].
    unfold Rdiv. rewrite Rmult_assoc, Rinv_l by exact Hn. lra.
  - apply Rmult_le_reg_r with n; [exact Hp|].
    unfold Rdiv. rewrite Rmult_assoc, Rinv_l by exact Hn. lra.
Qed.

Lemma dot_zero_of_norm (u v : RPoint) :
  norm u * norm v = 0 -> dot u v = 0.
Proof.
  intros H. apply Rmult_integral in H.
  destruct H as [H|H]; apply norm_zero in H; subst; unfold dot; simpl; ring.
Qed.

(** The value of the angle between two vectors: NaN when one of them has
    zero length, the arc cosine of the normalised dot product otherwise. *)
Definition angle_value (u v : RPoint) : float :=
  if Req_dec_T (norm u * norm v) 0 then NaN
  else Fin (acos (dot u v / (norm u * norm v)) * (180 / PI)).

(** In exact arithmetic the angle computation raises nothing. *)
Lemma angle_between_vectors_degrees_value (u v : RPoint) :
  angle_between_vectors_degrees u v = Ok (angle_value u v).
Proof.
  unfold angle_between_vectors_degrees, angle_value, Float.divide.
  destruct (Req_dec_T (norm u * norm v) 0) as [Hz|Hz].
  - rewrite (dot_zero_of_norm _ _ Hz).
    destruct (Req_dec_T 0 0) as [_|n]; [reflexivity|now destruct n].
  - pose proof (cosine_bound u v Hz) as [Hlo Hhi]. simpl.
    destruct (Rle_dec (-1) (dot u v / (norm u * norm v))); [|contradiction].
    destruct (Rle_dec (dot u v / (norm u * norm v)) 1); [|contradiction].
    reflexivity.
Qed.

Lemma angle_value_scale (k : R) (u v : RPoint) :
  0 < k -> angle_value (scale k u) (scale k v) = angle_value u v.
Proof.
  intros Hk. unfold angle_value.
  rewrite dot_scale, !norm_scale by lra.
  replace (k * norm u * (k * norm v)) with ((k * k) * (norm u * norm v)) by ring.
  assert (Hkk : k * k <> 0) by nra.
  destruct (Req_dec_T (norm u * norm v) 0) as [Hz|Hz].
  - rewrite Hz, Rmult_0_r.
    destruct (Req_dec_T 0 0) as [_|n]; [reflexivity|now destruct n].
  - destruct (Req_dec_T (k * k * (norm u * norm v)) 0) as [Hz'|_].
    + apply Rmult_integral in Hz'. tauto.
    + do 2 f_equal. f_equal. field.
      repeat split; try lra; intros Hn; apply Hz; rewrite Hn; ring.
Qed.

Lemma angle_value_sym (u v : RPoint) : angle_value u v = angle_value v u.
Proof.
  unfold angle_value.
  replace (norm v * norm u) with (norm u * norm v) by ring.
  replace (dot v u) with (dot u v) by (unfold dot; ring).
  reflexivity.
Qed.

Lemma get_angle_value (p1 p2 p3 : RPoint) :
  get_angle p1 p2 p3 = Ok (angle_value (vsub p1 p2) (vsub p3 p2)).
Proof.
  unfold get_angle; cbv zeta.
  rewrite angle_between_vectors_degrees_value, !vradians_vsub.
  rewrite angle_value_scale; [reflexivity|].
  pose proof PI_RGT_0. lra.
Qed.

Lemma vsub_zero (p q : RPoint) : vsub p q = (0, 0) <-> p = q.
Proof.
  destruct p as [a b], q as [c d]; unfold vsub; simpl. split.
  - intros H. injection H as H1 H2. f_equal; lra.
  - intros H. injection H as -> ->. f_equal; ring.
Qed.

Lemma angle_value_nan (u v : RPoint) :
  angle_value u v = NaN <-> u = (0, 0) \/ v = (0, 0).
Proof.
  unfold angle_value. destruct (Req_dec_T (norm u * norm v) 0) as [Hz|Hz].
  - split; [intros _|reflexivity].
    apply Rmult_integral in Hz. rewrite !norm_zero in Hz. exact Hz.
  - split; [discriminate|]. intros H. exfalso. apply Hz.
    destruct H as [H|H]; apply norm_zero in H; rewrite H; ring.
Qed.

End AngleFacts.

(** ** Python's [sorted], [max] and [itertools.combinations] *)

Module Py.

Section Sorted.

Variables A K : Type.

(** [ltb] is the comparison [<] of two keys, the only one a sort makes. *)
Variable ltb : K -> K -> bool.
Variable key : A -> K.

(** An element goes behind every element that is not greater than it, which
    makes the sort stable. *)
Fixpoint insert (x : A) (l : list A) : list A :=
  match l with
  | [] => [x]
  | y :: t => if ltb (key x) (key y) then x :: y :: t else y :: insert x t
  end.

(** [sorted(l, key=key)]: the stable ascending sort. On keys that [<] does
    not order totally (NaN) the result of CPython depends on the internals of
    its merge sort; the properties below are stated for ordered keys. *)
Definition sorted (l : list A) : list A :=
  fold_left (fun acc x => insert x acc) l [].

(** [sorted(l, key=key, reverse=True)]: CPython reverses the list, sorts it
    and reverses the result, so that equal elements keep their order. *)
Definition sorted_reverse (l : list A) : list A := rev (sorted (rev l)).

(** [max(l, key=key)] keeps the first of the greatest elements: the running
    maximum changes only for a strictly greater key. *)
Fixpoint max_from (best : A) (l : list A) : A :=
  match l with
  | [] => best
  | x :: t => if ltb (key best) (key x) then max_from x t else max_from best t
  end.

Definition max_by (l : list A) : result A :=
  match l with
  | [] => Raise ValueError
  | x :: t => Ok (max_from x t)
  end.

(** [x] may stand before [y]: [y < x] does not hold. *)
Definition before (x y : A) : Prop := ltb (key y) (key x) = false.

Lemma insert_perm (x : A) (l : list A) : Permutation (insert x l) (x :: l).
Proof.
  induction l as [|y t IH]; simpl; [reflexivity|].
  destruct (ltb (key x) (key y)); [reflexivity|].
  rewrite IH. apply perm_swap.
Qed.

Lemma fold_insert_perm (l acc : list A) :
  Permutation (fold_left (fun acc x => insert x acc) l acc) (l ++ acc).
Proof.
  revert acc; induction l as [|x t IH]; intros acc; simpl; [reflexivity|].
  rewrite IH, insert_perm. symmetry. apply Permutation_middle.
Qed.

Lemma sorted_perm (l : list A) : Permutation (sorted l) l.
Proof.
  unfold sorted. rewrite fold_insert_perm. now rewrite app_nil_r.
Qed.

Lemma sorted_reverse_perm (l : list A) : Permutation (sorted_reverse l) l.
Proof.
  unfold sorted_reverse.
  rewrite <- Permutation_rev, sorted_perm. symmetry. apply Permutation_rev.
Qed.

Lemma max_from_in (l : list A) (best : A) : In (max_from best l) (best :: l).
Proof.
  revert best; induction l as [|x t IH]; intros best; simpl; [now left|].
  destruct (ltb (key best) (key x)).
  - right. apply IH.
  - destruct (IH best) as [H|H]; [now left|now right; right].
Qed.

(** The keys the sort meets are ordered by [<]. *)
Variable ordered : K -> Prop.
Hypothesis ltb_asym : forall a b, ordered a -> ordered b -> ltb a b = true -> ltb b a = false.
Hypothesis ltb_trans : forall a b c, ordered a -> ordered b -> ordered c ->
  ltb b a = false -> ltb c b = false -> ltb c a = false.

Definition all_ordered (l : list A) : Prop := Forall (fun x => ordered (key x)) l.

Lemma insert_sorted (x : A) (l : list A) :
  ordered (key x) -> all_ordered l ->
  StronglySorted before l -> StronglySorted before (insert x l).
Proof.
  intros Hx Hl Hs. induction Hs as [|y t Hs IH Hy]; simpl.
  - constructor; [constructor|constructor].
  - inversion Hl as [|? ? Hoy Hot]; subst.
    destruct (ltb (key x) (key y)) eqn:Hxy.
    + constructor; [now constructor|].
      assert (Hb : before x y) by (unfold before; now apply ltb_asym).
      constructor; [exact Hb|].
      rewrite Forall_forall in Hy, Hot |- *. intros z Hz.
      unfold before in *. apply ltb_trans with (key y); auto.
    + constructor; [now apply IH|].
      rewrite Forall_forall in Hy |- *. intros z Hz.
      apply (Permutation_in _ (insert_perm x t)) in Hz.
      destruct Hz as [<-|Hz]; [exact Hxy|now apply Hy].
Qed.

Lemma all_ordered_perm (l l' : list A) :
  Permutation l l' -> all_ordered l -> all_ordered l'.
Proof. intros Hp. unfold all_ordered. now rewrite Hp. Qed.

Lemma fold_insert_sorted (l acc : list A) :
  all_ordered l -> all_ordered acc -> StronglySorted before acc ->
  StronglySorted before (fold_left (fun acc x => insert x acc) l acc).
Proof.
  revert acc; induction l as [|x t IH]; intros acc Hl Hacc Hs; simpl; [exact Hs|].
  inversion Hl; subst. apply IH; [assumption| |now apply insert_sorted].
  apply all_ordered_perm with (x :: acc); [symmetry; apply insert_perm|].
  now constructor.
Qed.

(** [sorted] is ascending: no element is greater than a later one. *)
Lemma sorted_ascending (l : list A) :
  all_ordered l -> StronglySorted before (sorted l).
Proof.
  intros Hl. apply fold_insert_sorted; [exact Hl|constructor|constructor].
Qed.

Lemma StronglySorted_rev (R : A -> A -> Prop) (l : list A) :
  StronglySorted R l -> StronglySorted (fun x y => R y x) (rev l).
Proof.
  induction 1 as [|x t Hs IH Hx]; simpl; [constructor|].
  revert IH. generalize (rev_involutive t). generalize (rev t) as r.
  intros r Hr. rewrite <- Hr in Hx. clear Hr Hs t.
  induction r as [|y r IHr]; intros Hs; simpl.
  - constructor; [constructor|constructor].
  - inversion Hs; subst. simpl in Hx. rewrite Forall_app in Hx.
    destruct Hx as [Hx Hy]. constructor; [now apply IHr|].
    rewrite Forall_app. split; [assumption|].
    inversion Hy; subst. constructor; [assumption|constructor].
Qed.

(** [sorted_reverse] is descending: no element is smaller than a later one. *)
Lemma sorted_reverse_descending (l : list A) :
  all_ordered l -> StronglySorted (fun x y => before y x) (sorted_reverse l).
Proof.
  intros Hl. unfold sorted_reverse. apply StronglySorted_rev.
  apply sorted_ascending.
  apply all_ordered_perm with l; [apply Permutation_rev|exact Hl].
Qed.

Lemma StronglySorted_firstn_skipn (R : A -> A -> Prop) (n : nat) (l : list A) :
  StronglySorted R l ->
  forall x y, In x (firstn n l) -> In y (skipn n l) -> R x y.
Proof.
  intros Hs; revert n. induction Hs as [|z t Hs IH Hz]; intros n x y Hx Hy.
  - rewrite firstn_nil in Hx. contradiction.
  - destruct n as [|n]; simpl in *; [contradiction|].
    destruct Hx as [<-|Hx]; [|now apply (IH n)].
    rewrite Forall_forall in Hz. apply Hz.
    rewrite <- (firstn_skipn n t). apply in_or_app. now right.
Qed.

Lemma max_from_ordered (l : list A) (best : A) :
  all_ordered (best :: l) -> ordered (key (max_from best l)).
Proof.
  intros Hall. unfold all_ordered in Hall. rewrite Forall_forall in Hall.
  apply Hall, max_from_in.
Qed.

(** No element is greater than the one [max] returns. *)
Lemma max_from_greatest (l : list A) (best : A) :
  all_ordered (best :: l) ->
  forall x, In x (best :: l) -> before x (max_from best l).
Proof.
  unfold before.
  revert best; induction l as [|y t IH]; intros best Hall x Hx; simpl.
  - destruct Hx as [<-|[]].
    inversion Hall as [|? ? Hb _]; subst.
    destruct (ltb (key best) (key best)) eqn:E; [|reflexivity].
    rewrite (ltb_asym Hb Hb E) in E. discriminate.
  - inversion Hall as [|? ? Hb Hyt]; subst. inversion Hyt as [|? ? Hy Ht]; subst.
    assert (Hbt : all_ordered (best :: t)) by now constructor.
    destruct (ltb (key best) (key y)) eqn:Hby.
    + destruct Hx as [<-|Hx]; [|now apply IH].
      apply ltb_trans with (key y); auto using max_from_ordered.
      apply IH; [assumption|now left].
    + destruct Hx as [<-|[<-|Hx]].
      * apply IH; [assumption|now left].
      * apply ltb_trans with (key best); auto using max_from_ordered.
        apply IH; [assumption|now left].
      * apply IH; [assumption|now right].
Qed.

End Sorted.

(** Two keys that compare alike sort alike. *)
Lemma insert_ext (A K K' : Type) (ltb : K -> K -> bool) (ltb' : K' -> K' -> bool)
  (key : A -> K) (key' : A -> K') :
  (forall x y, ltb (key x) (key y) = ltb' (key' x) (key' y)) ->
  forall x l, insert ltb key x l = insert ltb' key' x l.
Proof.
  intros H x l. induction l as [|y t IH]; simpl; [reflexivity|].
  now rewrite H, IH.
Qed.

Lemma sorted_ext (A K K' : Type) (ltb : K -> K -> bool) (ltb' : K' -> K' -> bool)
  (key : A -> K) (key' : A -> K') :
  (forall x y, ltb (key x) (key y) = ltb' (key' x) (key' y)) ->
  forall l, sorted ltb key l = sorted ltb' key' l.
Proof.
  intros H l. unfold sorted. generalize (@nil A) as acc.
  induction l as [|x t IH]; intros acc; simpl; [reflexivity|].
  now rewrite IH, (insert_ext _ _ _ _ H).
Qed.

Lemma max_from_ext (A K K' : Type) (ltb : K -> K -> bool) (ltb' : K' -> K' -> bool)
  (key : A -> K) (key' : A -> K') :
  (forall x y, ltb (key x) (key y) = ltb' (key' x) (key' y)) ->
  forall l best, max_from ltb key best l = max_from ltb' key' best l.
Proof.
  intros H l. induction l as [|x t IH]; intros best; simpl; [reflexivity|].
  now rewrite H, !IH.
Qed.

End Py.

Module Combinations.

Section Choose.

Variable A : Type.

(** [itertools.combinations(l, r)]: the subsequences of [l] of length [r], in
    the lexicographic order of their positions. *)
Fixpoint combinations (l : list A) (r : nat) : list (list A) :=
  match r with
  | O => [[]]
  | S r' =>
      match l with
      | [] => []
      | x :: t => map (cons x) (combinations t r') ++ combinations t r
      end
  end.

(** [s] is a subsequence of [l]: elements of [l] at increasing positions. *)
Inductive subseq : list A -> list A -> Prop :=
| subseq_nil : subseq [] []
| subseq_take x s l : subseq s l -> subseq (x :: s) (x :: l)
| subseq_drop x s l : subseq s l -> subseq s (x :: l).

Lemma subseq_nil_l (l : list A) : subseq [] l.
Proof. induction l; constructor; assumption. Qed.

Lemma combinations_complete (s l : list A) :
  subseq s l -> In s (combinations l (length s)).
Proof.
  induction 1 as [|x s l Hs IH|x s l Hs IH]; simpl.
  - now left.
  - apply in_or_app. left. now apply in_map.
  - destruct s as [|y s]; simpl; [now left|].
    apply in_or_app. right. exact IH.
Qed.

Lemma combinations_sound (l : list A) (r : nat) (s : list A) :
  In s (combinations l r) -> subseq s l /\ length s = r.
Proof.
  revert r s; induction l as [|x t IH]; intros r s Hs.
  - destruct r; simpl in Hs; [|contradiction].
    destruct Hs as [<-|[]]. split; [constructor|reflexivity].
  - destruct r as [|r]; simpl in Hs.
    + destruct Hs as [<-|[]]. split; [apply subseq_nil_l|reflexivity].
    + apply in_app_or in Hs. destruct Hs as [Hs|Hs].
      * apply in_map_iff in Hs. destruct Hs as (s' & <- & Hs').
        apply IH in Hs'. destruct Hs' as [Hsub Hlen].
        split; [now constructor|simpl; now rewrite Hlen].
      * apply IH in Hs. destruct Hs as [Hsub Hlen].
        split; [now constructor|exact Hlen].
Qed.

Lemma subseq_firstn (n : nat) (l : list A) : subseq (firstn n l) l.
Proof.
  revert n; induction l as [|x t IH]; intros [|n]; simpl;
    try constructor; auto using subseq_nil_l.
Qed.

Lemma combinations_nonempty (l : list A) (r : nat) :
  (r <= length l)%nat -> combinations l r <> [].
Proof.
  intros Hr Hnil.
  pose proof (combinations_complete (subseq_firstn r l)) as Hin.
  rewrite firstn_length_le in Hin by exact Hr.
  rewrite Hnil in Hin. contradiction.
Qed.

Lemma subseq_in (s l : list A) : subseq s l -> forall x, In x s -> In x l.
Proof.
  induction 1 as [|x s l Hs IH|x s l Hs IH]; intros y Hy.
  - contradiction.
  - destruct Hy as [<-|Hy]; [now left|right; now apply IH].
  - right. now apply IH.
Qed.

Lemma subseq_ordpairs (R : A -> A -> Prop) (s l : list A) :
  subseq s l -> ForallOrdPairs R l -> ForallOrdPairs R s.
Proof.
  induction 1 as [|x s l Hs IH|x s l Hs IH]; intros Hl.
  - constructor.
  - inversion Hl as [|? ? Hx Hl']; subst. constructor; [|now apply IH].
    rewrite Forall_forall in Hx |- *. intros y Hy. apply Hx.
    now apply (subseq_in Hs).
  - inversion Hl; subst. now apply IH.
Qed.

End Choose.

End Combinations.

(** ** The scanner *)

Module Scanner.

Import Angles.

(** [cv2.contourArea(cnt)]: half the absolute value of the sum of
    [prev.x * p.y - prev.y * p.x] over the vertices [p], [prev] being the
    vertex before [p] and the last vertex before the first. *)
Fixpoint shoelace (prev : Point) (cnt : contour) : Z :=
  match cnt with
  | [] => 0
  | p :: rest => fst prev * snd p - snd prev * fst p + shoelace p rest
  end.

(** Twice the area, the integer that OpenCV halves. *)
Definition contourArea2 (cnt : contour) : Z :=
  match cnt with
  | [] => 0
  | p :: _ => Z.abs (shoelace (last cnt p) cnt)
  end.

Definition contourArea (cnt : contour) : R := (IZR (contourArea2 cnt) * / 2)%R.

(** The thresholds [DocScanner.__init__] stores. *)
Record DocScanner : Type := {
  MIN_QUAD_AREA_RATIO : R;
  MAX_QUAD_ANGLE_RANGE : R
}.

(** [DocScanner()], with the defaults of [__init__]. *)
Definition default_scanner : DocScanner :=
  {| MIN_QUAD_AREA_RATIO := (25 / 100)%R; MAX_QUAD_ANGLE_RANGE := 40%R |}.

(** [is_valid_contour(cnt, IM_WIDTH, IM_HEIGHT)]; [and] evaluates its right
    operand only when the left one is true. *)
Definition is_valid_contour (self : DocScanner) (cnt : contour)
  (IM_WIDTH IM_HEIGHT : Z) : result bool :=
  if negb (length cnt =? 4)%nat then Ok false
  else if negb (Float.Rltb (IZR (IM_WIDTH * IM_HEIGHT) * MIN_QUAD_AREA_RATIO self)
                           (contourArea cnt))
  then Ok false
  else r <- angle_range cnt ;; Ok (Float.ltb r (Fin (MAX_QUAD_ANGLE_RANGE self))).

(** What the vision primitives give [get_contour] for one rescaled image:
    its shape, the corners [get_corners] collects from the detected lines
    before it filters them, and the contours [cv2.findContours] finds in the
    edge map. *)
Record Image : Type := {
  IM_HEIGHT : Z;
  IM_WIDTH : Z;
  corners : list Point;
  cnts : list contour
}.

(** [get_corners]: the collected corners, with those in close proximity
    removed. *)
Definition get_corners (img : Image) : list Point :=
  Corners.filter_corners (corners img) Corners.default_min_dist.

(** [screenCnt.reshape(4, 2)]. *)
Definition reshape_4_2 (cnt : contour) : result contour :=
  if (length cnt =? 4)%nat then Ok cnt else Raise ValueError.

Section GetContour.

(** [transform.order_points] followed by the conversion of its result to
    [int32]; the function is not part of [scan.py]. *)
Variable order_points : contour -> contour.

(** [cv2.approxPolyDP(curve, epsilon, closed)]. *)
Variable approxPolyDP : contour -> R -> bool -> contour.

Variable self : DocScanner.

(** The block under [if len(test_corners) >= 4], with the list
    [approx_contours] as its state. *)
Definition corner_path (img : Image) (approx_contours : list contour)
  : result (list contour) :=
  let test_corners := get_corners img in
  if (4 <=? length test_corners)%nat then
    let quads := map order_points (Combinations.combinations test_corners 4) in
    let quads := firstn 5 (Py.sorted_reverse Float.Rltb contourArea quads) in
    keys <- mapM angle_range quads ;;
    let quads := map snd (Py.sorted Float.ltb fst (combine keys quads)) in
    match quads with
    | [] => Raise IndexError
    | approx :: _ =>
        valid <- is_valid_contour self approx (IM_WIDTH img) (IM_HEIGHT img) ;;
        Ok (if valid then approx_contours ++ [approx] else approx_contours)
    end
  else Ok approx_contours.

(** The loop [for c in cnts], which [break]s at the first valid
    approximation. *)
Fixpoint contour_loop (img : Image) (cnts : list contour)
  (approx_contours : list contour) : result (list contour) :=
  match cnts with
  | [] => Ok approx_contours
  | c :: rest =>
      let approx := approxPolyDP c 80%R true in
      valid <- is_valid_contour self approx (IM_WIDTH img) (IM_HEIGHT img) ;;
      if valid then Ok (approx_contours ++ [approx])
      else contour_loop img rest approx_contours
  end.

Definition contour_path (img : Image) (approx_contours : list contour)
  : result (list contour) :=
  let cnts := firstn 5 (Py.sorted_reverse Float.Rltb contourArea (cnts img)) in
  contour_loop img cnts approx_contours.

(** The quadrilateral of the whole image. *)
Definition whole_image (img : Image) : contour :=
  let TOP_RIGHT : Point := (IM_WIDTH img, 0%Z) in
  let BOTTOM_RIGHT : Point := (IM_WIDTH img, IM_HEIGHT img) in
  let BOTTOM_LEFT : Point := (0%Z, IM_HEIGHT img) in
  let TOP_LEFT : Point := (0%Z, 0%Z) in
  [TOP_RIGHT; BOTTOM_RIGHT; BOTTOM_LEFT; TOP_LEFT].

(** The choice of [screenCnt] among the candidates found. *)
Definition select (img : Image) (approx_contours : list contour)
  : result (contour * bool) :=
  let has_cnt := negb (length approx_contours =? 0)%nat in
  screenCnt <- match approx_contours with
               | [] => Ok (whole_image img)
               | _ => Py.max_by Float.Rltb contourArea approx_contours
               end ;;
  points <- reshape_4_2 screenCnt ;;
  Ok (points, has_cnt).

(** [get_contour(rescaled_image, log_img_dir)], from the corners and
    contours of the image on. *)
Definition get_contour (img : Image) : result (contour * bool) :=
  let approx_contours := [] in
  approx_contours <- corner_path img approx_contours ;;
  approx_contours <- contour_path img approx_contours ;;
  select img approx_contours.

End GetContour.

End Scanner.

(** ** Sample inputs *)

Module Samples.

Import Scanner.

(** An [order_points] for corners that already come in canonical order, and
    an [approxPolyDP] for contours that are polygons already. *)
Definition keep_order (points : contour) : contour := points.

Definition keep_polygon (curve : contour) (epsilon : R) (closed : bool) : contour :=
  curve.

(** The square of side 600 in the middle of a frame of 1000 by 1000. *)
Definition square : contour :=
  [(200, 200); (800, 200); (800, 800); (200, 800)]%Z.

(** The same square as a contour that starts at its top-right vertex. *)
Definition square_contour : contour :=
  [(800, 200); (800, 800); (200, 800); (200, 200)]%Z.

(** A quadrilateral with two coincident vertices, half the frame in area. *)
Definition pinched : contour := [(0, 0); (0, 0); (1000, 1000); (0, 1000)]%Z.

(** The square that covers a quarter of the frame exactly. *)
Definition quarter : contour := [(0, 0); (500, 0); (500, 500); (0, 500)]%Z.

(** A rectangle of 300 by 200, too small for the frame. *)
Definition card : contour := [(100, 100); (400, 100); (400, 300); (100, 300)]%Z.



Definition image_of (corners : list Point) (cnts : list contour) : Image :=
  {| IM_HEIGHT := 1000; IM_WIDTH := 1000; corners := corners; cnts := cnts |}.

(** No line and no contour was detected. *)
Definition blank : Image := image_of [] [].

(** The square was found from its corners only, and by both paths. *)
Definition cornered : Image := image_of square [].

Definition twice_found : Image := image_of square [square_contour].

(** Three contours were found, the square neither first nor largest. *)
Definition cluttered : Image := image_of [] [card; square_contour; pinched].

End Samples.

(** ** Facts about floats and the angle range *)

Module FloatFacts.

Import Float.
Open Scope R_scope.

Lemma Rltb_true (a b : R) : Rltb a b = true <-> a < b.
Proof. unfold Rltb. destruct (Rlt_dec a b); split; auto; discriminate. Qed.

Lemma Rltb_false (a b : R) : Rltb a b = false <-> b <= a.
Proof.
  unfold Rltb. destruct (Rlt_dec a b); split; auto; try discriminate; lra.
Qed.

Lemma Rltb_asym (a b : R) : Rltb a b = true -> Rltb b a = false.
Proof. rewrite Rltb_true, Rltb_false. lra. Qed.

Lemma Rltb_trans (a b c : R) :
  Rltb b a = false -> Rltb c b = false -> Rltb c a = false.
Proof. rewrite !Rltb_false. lra. Qed.

Lemma maximum_fin (a b : R) : maximum (Fin a) (Fin b) = Fin (Rmax a b).
Proof.
  simpl. unfold Rltb, Rmax.
  destruct (Rlt_dec a b), (Rle_dec a b); try reflexivity; try lra;
    try (f_equal; lra).
Qed.

Lemma minimum_fin (a b : R) : minimum (Fin a) (Fin b) = Fin (Rmin a b).
Proof.
  simpl. unfold Rltb, Rmin.
  destruct (Rlt_dec b a), (Rle_dec a b); try reflexivity; try lra;
    try (f_equal; lra).
Qed.

(** A float that is a real or NaN, as every angle is. *)
Definition real_or_nan (x : float) : Prop := x = NaN \/ exists r, x = Fin r.

Lemma ptp_fin (a b c d : R) :
  ptp (Fin a) [Fin b; Fin c; Fin d]
  = Fin (Rmax (Rmax (Rmax a b) c) d - Rmin (Rmin (Rmin a b) c) d).
Proof.
  unfold ptp. cbn [fold_left]. now rewrite !maximum_fin, !minimum_fin.
Qed.

Lemma maximum_nan_l (x : float) : maximum NaN x = NaN.
Proof. reflexivity. Qed.

Lemma maximum_nan_r (x : float) : maximum x NaN = NaN.
Proof. now destruct x. Qed.

Lemma minimum_nan_l (x : float) : minimum NaN x = NaN.
Proof. reflexivity. Qed.

Lemma minimum_nan_r (x : float) : minimum x NaN = NaN.
Proof. now destruct x. Qed.

Lemma sub_nan_l (x : float) : sub NaN x = NaN.
Proof. reflexivity. Qed.

(** One NaN among four angles makes their range NaN. *)
Lemma ptp_nan (a b c d : float) :
  a = NaN \/ b = NaN \/ c = NaN \/ d = NaN -> ptp a [b; c; d] = NaN.
Proof.
  unfold ptp. cbn [fold_left].
  intros [ -> | [ -> | [ -> | -> ]]];
    rewrite ?maximum_nan_l, ?maximum_nan_r, ?maximum_nan_l; reflexivity.
Qed.

Lemma ptp_real_or_nan (a b c d : float) :
  real_or_nan a -> real_or_nan b -> real_or_nan c -> real_or_nan d ->
  (ptp a [b; c; d] = NaN <-> a = NaN \/ b = NaN \/ c = NaN \/ d = NaN) /\
  real_or_nan (ptp a [b; c; d]).
Proof.
  intros [ -> | [ra ->]]; [intros; rewrite ptp_nan by tauto; split; [tauto|now left]|].
  intros [ -> | [rb ->]]; [intros; rewrite ptp_nan by tauto; split; [tauto|now left]|].
  intros [ -> | [rc ->]]; [intros; rewrite ptp_nan by tauto; split; [tauto|now left]|].
  intros [ -> | [rd ->]]; [rewrite ptp_nan by tauto; split; [tauto|now left]|].
  rewrite ptp_fin. split.
  - split; [discriminate|]. intros [H|[H|[H|H]]]; discriminate.
  - right. eexists. reflexivity.
Qed.

(** [ltb] orders the floats that are real. *)
Definition is_real (x : float) : Prop := exists r, x = Fin r.

Lemma ltb_asym (a b : float) :
  is_real a -> is_real b -> ltb a b = true -> ltb b a = false.
Proof. intros [x ->] [y ->]. simpl. apply Rltb_asym. Qed.

Lemma ltb_trans (a b c : float) :
  is_real a -> is_real b -> is_real c ->
  ltb b a = false -> ltb c b = false -> ltb c a = false.
Proof. intros [x ->] [y ->] [z ->]. simpl. apply Rltb_trans. Qed.

End FloatFacts.

Module RangeFacts.

Import Angles AngleFacts FloatFacts.
Open Scope R_scope.

Lemma to_float_inj (p q : Point) : to_float p = to_float q -> p = q.
Proof.
  destruct p as [a b], q as [c d]; unfold to_float; simpl.
  intros H. injection H as H1 H2. apply eq_IZR in H1, H2. now subst.
Qed.

(** The angle at [p2] between the segments to [p1] and to [p3]. *)
Definition angle_at (p1 p2 p3 : Point) : float :=
  angle_value (vsub (to_float p1) (to_float p2)) (vsub (to_float p3) (to_float p2)).

Lemma angle_at_sym (p1 p2 p3 : Point) : angle_at p1 p2 p3 = angle_at p3 p2 p1.
Proof. apply angle_value_sym. Qed.

Lemma angle_at_nan (p1 p2 p3 : Point) :
  angle_at p1 p2 p3 = NaN <-> p1 = p2 \/ p3 = p2.
Proof.
  unfold angle_at. rewrite angle_value_nan, !vsub_zero.
  split; (intros [H|H]; [left|right]); auto using to_float_inj; now rewrite H.
Qed.

Lemma angle_at_real_or_nan (p1 p2 p3 : Point) : real_or_nan (angle_at p1 p2 p3).
Proof.
  unfold angle_at, angle_value.
  destruct (Req_dec_T _ 0); [now left|right; eexists; reflexivity].
Qed.

(** The four angles of a quadrilateral, in the order [angle_range] takes
    them. *)
Definition range_of (tl tr br bl : Point) : float :=
  Float.ptp (angle_at tl tr br) [angle_at bl tl tr; angle_at tr br bl; angle_at br bl tl].

Lemma angle_range_value (tl tr br bl : Point) :
  angle_range [tl; tr; br; bl] = Ok (range_of tl tr br bl).
Proof.
  unfold angle_range. rewrite !get_angle_value. reflexivity.
Qed.

(** Two vertices that follow each other coincide. *)
Definition degenerate (tl tr br bl : Point) : Prop :=
  tl = tr \/ tr = br \/ br = bl \/ bl = tl.

Lemma range_of_nan (tl tr br bl : Point) :
  range_of tl tr br bl = NaN <-> degenerate tl tr br bl.
Proof.
  unfold range_of, degenerate.
  destruct (ptp_real_or_nan (angle_at_real_or_nan tl tr br)
              (angle_at_real_or_nan bl tl tr) (angle_at_real_or_nan tr br bl)
              (angle_at_real_or_nan br bl tl)) as [-> _].
  rewrite !angle_at_nan. intuition congruence.
Qed.

Lemma range_of_real (tl tr br bl : Point) :
  ~ degenerate tl tr br bl -> is_real (range_of tl tr br bl).
Proof.
  intros Hd.
  destruct (ptp_real_or_nan (angle_at_real_or_nan tl tr br)
              (angle_at_real_or_nan bl tl tr) (angle_at_real_or_nan tr br bl)
              (angle_at_real_or_nan br bl tl)) as [_ [H|H]].
  - apply range_of_nan in H. contradiction.
  - exact H.
Qed.

Lemma angle_range_ok (cnt : contour) :
  length cnt = 4%nat -> exists x, angle_range cnt = Ok x /\ real_or_nan x.
Proof.
  destruct cnt as [|tl [|tr [|br [|bl [|]]]]]; try discriminate. intros _.
  exists (range_of tl tr br bl). split; [apply angle_range_value|].
  unfold range_of.
  apply (ptp_real_or_nan (angle_at_real_or_nan tl tr br)
              (angle_at_real_or_nan bl tl tr) (angle_at_real_or_nan tr br bl)
              (angle_at_real_or_nan br bl tl)).
Qed.

End RangeFacts.

(** ** Facts about [filter_corners] *)

Module CornerFacts.

Import Corners.
Open Scope R_scope.

Lemma Rgeb_true (a b : R) : Rgeb a b = true <-> b <= a.
Proof. unfold Rgeb. destruct (Rle_dec b a); split; auto; discriminate. Qed.

Lemma predicate_true (min_dist : R) (kept : list Point) (c : Point) :
  predicate (fun r c => Rgeb (euclidean r c) min_dist) kept c = true
  <-> forall r, In r kept -> min_dist <= euclidean r c.
Proof.
  unfold predicate. rewrite forallb_forall.
  split; intros H r Hr; apply Rgeb_true; now apply H.
Qed.

Lemma filter_corners_snoc (l : list Point) (c : Point) (min_dist : R) :
  filter_corners (l ++ [c]) min_dist
  = if predicate (fun r c => Rgeb (euclidean r c) min_dist) (filter_corners l min_dist) c
    then filter_corners l min_dist ++ [c]
    else filter_corners l min_dist.
Proof. unfold filter_corners. rewrite filter_loop_app. reflexivity. Qed.

Lemma filter_corners_prefix (l1 l2 : list Point) (min_dist : R) :
  exists tail,
    filter_corners (l1 ++ l2) min_dist = filter_corners l1 min_dist ++ tail.
Proof.
  unfold filter_corners. rewrite filter_loop_app, filter_loop_appended.
  eexists. reflexivity.
Qed.

(** The integer test decides the comparison of the distance. *)
Lemma far_int_spec (d : Z) (u v : Point) :
  Rgeb (euclidean u v) (IZR d) = far_int d u v.
Proof.
  unfold far_int, euclidean.
  set (s := ((fst u - fst v) * (fst u - fst v) + (snd u - snd v) * (snd u - snd v))%Z).
  replace ((IZR (fst u) - IZR (fst v))² + (IZR (snd u) - IZR (snd v))²) with (IZR s)
    by (unfold s, Rsqr; rewrite plus_IZR, !mult_IZR, !minus_IZR; ring).
  assert (Hs : (0 <= s)%Z)
    by (unfold s; apply Z.add_nonneg_nonneg; apply Z.square_nonneg).
  destruct (Z.leb_spec d 0) as [Hd|Hd]; simpl.
  - apply Rgeb_true. apply IZR_le in Hd.
    pose proof (sqrt_pos (IZR s)). lra.
  - destruct (Z.leb_spec (d * d) s) as [Hle|Hlt].
    + apply Rgeb_true. apply IZR_le in Hle. rewrite mult_IZR in Hle.
      apply IZR_lt in Hd.
      rewrite <- (sqrt_Rsqr (IZR d)) by lra.
      apply sqrt_le_1_alt. exact Hle.
    + unfold Rgeb. destruct (Rle_dec (IZR d) (sqrt (IZR s))) as [Hle|_]; [|reflexivity].
      exfalso. apply IZR_lt in Hlt, Hd. rewrite mult_IZR in Hlt.
      apply IZR_le in Hs.
      assert (H2 : IZR d * IZR d <= sqrt (IZR s) * sqrt (IZR s)).
      { apply Rmult_le_compat; lra. }
      rewrite sqrt_sqrt in H2 by exact Hs. lra.
Qed.

Lemma filter_loop_ext (far far' : Point -> Point -> bool) :
  (forall u v, far u v = far' u v) ->
  forall l acc, filter_loop far acc l = filter_loop far' acc l.
Proof.
  intros H l. induction l as [|c rest IH]; intros acc; simpl; [reflexivity|].
  replace (predicate far' acc c) with (predicate far acc c).
  - destruct (predicate far acc c); apply IH.
  - unfold predicate. induction acc as [|r acc IHacc]; simpl; [reflexivity|].
    now rewrite H, IHacc.
Qed.

(** For an integer [min_dist] the filter can be run on integers. *)
Lemma filter_corners_int (l : list Point) (d : Z) :
  filter_corners l (IZR d) = filter_loop (far_int d) [] l.
Proof.
  unfold filter_corners. apply filter_loop_ext. intros u v. apply far_int_spec.
Qed.

Lemma euclidean_same (p : Point) : euclidean p p = 0.
Proof.
  unfold euclidean. rewrite !Rminus_diag. unfold Rsqr.
  rewrite Rmult_0_l, Rplus_0_l. apply sqrt_0.
Qed.

(** With a positive [min_dist] no point is kept twice. *)
Lemma filter_corners_distinct (l : list Point) (min_dist : R) :
  0 < min_dist ->
  ForallOrdPairs (fun p q => p <> q) (filter_corners l min_dist).
Proof.
  intros Hd.
  pose proof (@filter_loop_pairwise_far
                (fun r c => Rgeb (euclidean r c) min_dist) l [] (FOP_nil _)) as H.
  unfold pairwise_far in H. fold (filter_corners l min_dist) in H.
  induction H as [|p t Hp Ht IH]; constructor; [|exact IH].
  rewrite Forall_forall in Hp |- *. intros q Hq Heq. subst q.
  specialize (Hp p Hq). simpl in Hp. apply Rgeb_true in Hp.
  rewrite euclidean_same in Hp. lra.
Qed.

End CornerFacts.

(** ** Facts about the validity test *)

Module ValidFacts.

Import Angles AngleFacts FloatFacts RangeFacts Scanner.
Open Scope R_scope.

Lemma is_valid_contour_total (self : DocScanner) (cnt : contour) (W H : Z) :
  exists b, is_valid_contour self cnt W H = Ok b.
Proof.
  unfold is_valid_contour.
  destruct (length cnt =? 4)%nat eqn:Hlen; simpl; [|now exists false].
  destruct (Float.Rltb _ _); simpl; [|now exists false].
  apply Nat.eqb_eq in Hlen.
  destruct (angle_range_ok cnt Hlen) as (x & -> & _). simpl. eexists. reflexivity.
Qed.

Lemma is_valid_contour_true (self : DocScanner) (cnt : contour) (W H : Z) :
  is_valid_contour self cnt W H = Ok true <->
  length cnt = 4%nat /\
  IZR (W * H) * MIN_QUAD_AREA_RATIO self < contourArea cnt /\
  exists r, angle_range cnt = Ok (Fin r) /\ r < MAX_QUAD_ANGLE_RANGE self.
Proof.
  unfold is_valid_contour.
  destruct (length cnt =? 4)%nat eqn:Hlen; simpl.
  - apply Nat.eqb_eq in Hlen.
    destruct (Float.Rltb _ (contourArea cnt)) eqn:Harea; simpl.
    + apply Rltb_true in Harea.
      destruct (angle_range_ok cnt Hlen) as (x & Hx & Hreal). rewrite Hx. simpl.
      split.
      * intros Hv. injection Hv as Hv. repeat split; try assumption.
        destruct Hreal as [->|[r ->]]; [discriminate|].
        exists r. split; [reflexivity|]. simpl in Hv. now apply Rltb_true.
      * intros (_ & _ & r & Hr & Hlt). injection Hr as ->. simpl.
        f_equal. now apply Rltb_true.
    + apply Rltb_false in Harea. split; [discriminate|].
      intros (_ & Hlt & _). lra.
  - apply Nat.eqb_neq in Hlen. split; [discriminate|]. intros (Hl & _). contradiction.
Qed.

Lemma is_valid_contour_length (self : DocScanner) (cnt : contour) (W H : Z) :
  is_valid_contour self cnt W H = Ok true -> length cnt = 4%nat.
Proof. intros Hv. now apply is_valid_contour_true in Hv. Qed.

(** A quadrilateral with a coincident pair of vertices that follow each
    other has a NaN for angle range and fails the test. *)
Lemma degenerate_range (tl tr br bl : Point) :
  degenerate tl tr br bl -> angle_range [tl; tr; br; bl] = Ok NaN.
Proof.
  intros Hd. rewrite angle_range_value. f_equal. now apply range_of_nan.
Qed.

Lemma degenerate_invalid (self : DocScanner) (tl tr br bl : Point) (W H : Z) :
  degenerate tl tr br bl -> is_valid_contour self [tl; tr; br; bl] W H = Ok false.
Proof.
  intros Hd. unfold is_valid_contour. cbn [length Nat.eqb negb].
  destruct (Float.Rltb _ _); [|reflexivity].
  cbn [negb]. now rewrite (degenerate_range Hd).
Qed.

(** The order of the areas is the order of their doubles. *)
Lemma contourArea_ltb (x y : contour) :
  Float.Rltb (contourArea x) (contourArea y) = (contourArea2 x <? contourArea2 y)%Z.
Proof.
  unfold contourArea. destruct (Z.ltb_spec (contourArea2 x) (contourArea2 y)) as [H|H].
  - apply Rltb_true. apply IZR_lt in H. lra.
  - apply Rltb_false. apply IZR_le in H. lra.
Qed.

(** *** Right angles *)

Definition dotZ (p1 p2 p3 : Point) : Z :=
  (fst p1 - fst p2) * (fst p3 - fst p2) + (snd p1 - snd p2) * (snd p3 - snd p2).

Definition Point_eqb (p q : Point) : bool :=
  ((fst p =? fst q) && (snd p =? snd q))%Z.

Lemma Point_eqb_false (p q : Point) : Point_eqb p q = false -> p <> q.
Proof.
  unfold Point_eqb. intros H Heq. subst q. now rewrite !Z.eqb_refl in H.
Qed.

Definition right_angle (p1 p2 p3 : Point) : bool :=
  negb (Point_eqb p1 p2) && negb (Point_eqb p3 p2) && (dotZ p1 p2 p3 =? 0)%Z.

(** All four angles of the quadrilateral are right angles. *)
Definition is_rectangle (tl tr br bl : Point) : bool :=
  right_angle tl tr br && right_angle bl tl tr
  && right_angle tr br bl && right_angle br bl tl.

Lemma dotZ_dot (p1 p2 p3 : Point) :
  dot (vsub (to_float p1) (to_float p2)) (vsub (to_float p3) (to_float p2))
  = IZR (dotZ p1 p2 p3).
Proof.
  unfold dot, vsub, to_float, dotZ; simpl.
  rewrite plus_IZR, !mult_IZR, !minus_IZR. reflexivity.
Qed.

Lemma right_angle_90 (p1 p2 p3 : Point) :
  right_angle p1 p2 p3 = true -> angle_at p1 p2 p3 = Fin 90.
Proof.
  unfold right_angle. rewrite !andb_true_iff, !negb_true_iff.
  intros [[H1 H3] Hd]. apply Point_eqb_false in H1, H3. apply Z.eqb_eq in Hd.
  pose proof (angle_at_nan p1 p2 p3) as Hnan.
  unfold angle_at in *. unfold angle_value in *. rewrite dotZ_dot, Hd in *.
  destruct (Req_dec_T _ 0) as [Hz|Hz].
  - exfalso. destruct Hnan as [Hnan _]. specialize (Hnan eq_refl). tauto.
  - f_equal. unfold Rdiv at 1. rewrite Rmult_0_l, acos_0.
    field. apply PI_neq0.
Qed.

Lemma is_rectangle_range (tl tr br bl : Point) :
  is_rectangle tl tr br bl = true -> range_of tl tr br bl = Fin 0.
Proof.
  unfold is_rectangle. rewrite !andb_true_iff. intros [[[H1 H2] H3] H4].
  unfold range_of.
  rewrite (right_angle_90 _ _ _ H1), (right_angle_90 _ _ _ H2),
    (right_angle_90 _ _ _ H3), (right_angle_90 _ _ _ H4).
  rewrite ptp_fin. f_equal.
  unfold Rmax, Rmin. repeat destruct (Rle_dec _ _); lra.
Qed.

(** A rectangle is valid for the default thresholds as soon as it covers
    more than a quarter of the frame. *)
Lemma is_valid_rectangle (tl tr br bl : Point) (W H : Z) :
  is_rectangle tl tr br bl = true ->
  is_valid_contour default_scanner [tl; tr; br; bl] W H
  = Ok (W * H <? 2 * contourArea2 [tl; tr; br; bl])%Z.
Proof.
  intros Hrect. unfold is_valid_contour. cbn [length Nat.eqb negb].
  rewrite angle_range_value, (is_rectangle_range _ _ _ _ Hrect).
  unfold contourArea. cbn [default_scanner MIN_QUAD_AREA_RATIO MAX_QUAD_ANGLE_RANGE].
  set (a := contourArea2 [tl; tr; br; bl]).
  destruct (Z.ltb_spec (W * H) (2 * a)) as [Hlt|Hge].
  - apply IZR_lt in Hlt. rewrite (mult_IZR 2 a) in Hlt.
    assert (Ha : Float.Rltb (IZR (W * H) * (25 / 100)) (IZR a * / 2) = true)
      by (apply Rltb_true; lra).
    rewrite Ha. simpl. f_equal. apply Rltb_true. lra.
  - apply IZR_le in Hge. rewrite (mult_IZR 2 a) in Hge.
    assert (Ha : Float.Rltb (IZR (W * H) * (25 / 100)) (IZR a * / 2) = false)
      by (apply Rltb_false; lra).
    rewrite Ha. reflexivity.
Qed.

End ValidFacts.

(** ** Facts about the selection *)

Module SelectFacts.

Import Angles AngleFacts FloatFacts RangeFacts Scanner ValidFacts.
Open Scope R_scope.

(** The quadrilaterals and contours of greatest area. *)
Definition largest (l : list contour) : list contour :=
  Py.sorted_reverse Float.Rltb contourArea l.

Lemma StronglySorted_firstn (A : Type) (R : A -> A -> Prop) (n : nat) (l : list A) :
  StronglySorted R l -> StronglySorted R (firstn n l).
Proof.
  intros Hs; revert n. induction Hs as [|x t Hs IH Hx]; intros [|n]; simpl;
    try constructor; auto.
  rewrite Forall_forall in Hx |- *. intros y Hy. apply Hx.
  rewrite <- (firstn_skipn n t). apply in_or_app. now left.
Qed.

Lemma StronglySorted_weaken (A : Type) (R R' : A -> A -> Prop) (l : list A) :
  (forall x y, R x y -> R' x y) -> StronglySorted R l -> StronglySorted R' l.
Proof.
  intros HR. induction 1 as [|x t Hs IH Hx]; constructor; auto.
  rewrite Forall_forall in Hx |- *. auto.
Qed.

Lemma largest_descending (l : list contour) :
  StronglySorted (fun x y => contourArea y <= contourArea x) (largest l).
Proof.
  apply StronglySorted_weaken
    with (R := fun x y => Py.before Float.Rltb contourArea y x).
  - intros x y Hb. unfold Py.before in Hb. now apply Rltb_false in Hb.
  - apply Py.sorted_reverse_descending with (ordered := fun _ => True).
    + intros a b _ _. apply Rltb_asym.
    + intros a b c _ _ _. apply Rltb_trans.
    + unfold Py.all_ordered. rewrite Forall_forall. auto.
Qed.

(** The first five of [largest l] are five elements of [l] of greatest area
    (all of them when [l] has fewer), in descending order of area. *)
Lemma top5_largest (l : list contour) :
  Permutation (firstn 5 (largest l) ++ skipn 5 (largest l)) l /\
  length (firstn 5 (largest l)) = Nat.min 5 (length l) /\
  StronglySorted (fun x y => contourArea y <= contourArea x) (firstn 5 (largest l)) /\
  forall c c', In c (firstn 5 (largest l)) -> In c' (skipn 5 (largest l)) ->
               contourArea c' <= contourArea c.
Proof.
  repeat split.
  - rewrite firstn_skipn. apply Py.sorted_reverse_perm.
  - rewrite length_firstn. f_equal.
    apply Permutation_length, Py.sorted_reverse_perm.
  - apply StronglySorted_firstn, largest_descending.
  - intros c c' Hc Hc'.
    apply (Py.StronglySorted_firstn_skipn 5 (largest_descending l) c c' Hc Hc').
Qed.

Section Selection.

Variable order_points : contour -> contour.
Variable approxPolyDP : contour -> R -> bool -> contour.
Variable self : DocScanner.

Local Abbreviation approx c := (approxPolyDP c 80 true).
Local Abbreviation valid img c := (is_valid_contour self c (IM_WIDTH img) (IM_HEIGHT img)).

Lemma contour_loop_none (img : Image) (l acc : list contour) :
  (forall c, In c l -> valid img (approx c) = Ok false) ->
  contour_loop approxPolyDP self img l acc = Ok acc.
Proof.
  induction l as [|c rest IH]; intros Hl; simpl; [reflexivity|].
  rewrite (Hl c) by now left. simpl. apply IH. intros c' Hc'. apply Hl. now right.
Qed.

Lemma contour_loop_first (img : Image) (pre post acc : list contour) (c : contour) :
  (forall c', In c' pre -> valid img (approx c') = Ok false) ->
  valid img (approx c) = Ok true ->
  contour_loop approxPolyDP self img (pre ++ c :: post) acc = Ok (acc ++ [approx c]).
Proof.
  induction pre as [|c' pre IH]; intros Hpre Hc; simpl.
  - now rewrite Hc.
  - rewrite (Hpre c') by now left. simpl. apply IH; [|exact Hc].
    intros c'' Hc''. apply Hpre. now right.
Qed.

Lemma first_valid (img : Image) (l : list contour) :
  (forall c, In c l -> valid img (approx c) = Ok false) \/
  exists pre c post, l = pre ++ c :: post /\
    (forall c', In c' pre -> valid img (approx c') = Ok false) /\
    valid img (approx c) = Ok true.
Proof.
  induction l as [|c rest IH]; [left; intros c []|].
  destruct (is_valid_contour_total self (approx c) (IM_WIDTH img) (IM_HEIGHT img))
    as [[|] Hc].
  - right. exists [], c, rest. repeat split; [intros c' []|exact Hc].
  - destruct IH as [IH|(pre & c0 & post & -> & Hpre & Hc0)].
    + left. intros c' [<-|Hc']; [exact Hc|now apply IH].
    + right. exists (c :: pre), c0, post. repeat split; [|exact Hc0].
      intros c' [<-|Hc']; [exact Hc|now apply Hpre].
Qed.

(** The candidates the two paths add are valid. *)
Lemma contour_loop_adds (img : Image) (l acc acc' : list contour) :
  contour_loop approxPolyDP self img l acc = Ok acc' ->
  acc' = acc \/ exists c, In c l /\ acc' = acc ++ [approx c] /\
                          valid img (approx c) = Ok true.
Proof.
  destruct (first_valid img l) as [Hnone|(pre & c & post & -> & Hpre & Hc)].
  - rewrite contour_loop_none by exact Hnone. intros H. injection H as <-. now left.
  - erewrite contour_loop_first by eassumption. intros H. injection H as <-.
    right. exists c. repeat split; [apply in_elt|exact Hc].
Qed.

Lemma corner_path_adds (img : Image) (acc acc' : list contour) :
  corner_path order_points self img acc = Ok acc' ->
  acc' = acc \/ exists q, acc' = acc ++ [q] /\ valid img q = Ok true.
Proof.
  unfold corner_path.
  destruct (4 <=? length (get_corners img))%nat;
    [|intros H; injection H as <-; now left].
  destruct (mapM angle_range _) as [keys|e]; simpl; [|discriminate].
  destruct (map snd _) as [|q quads]; [discriminate|].
  destruct (is_valid_contour self q (IM_WIDTH img) (IM_HEIGHT img)) as [[|]|e] eqn:Hq;
    simpl; try discriminate; intros H; injection H as <-.
  - right. now exists q.
  - now left.
Qed.

(** Among one or two candidates [max] takes the one of greater area, and
    the first of two of equal area. *)
Lemma select_nonempty (img : Image) (c : contour) (rest : list contour) :
  (forall x, In x (c :: rest) -> length x = 4%nat) ->
  exists best,
    select img (c :: rest) = Ok (best, true) /\
    best = Py.max_from Float.Rltb contourArea c rest /\
    In best (c :: rest) /\
    forall x, In x (c :: rest) -> contourArea x <= contourArea best.
Proof.
  intros Hlen. exists (Py.max_from Float.Rltb contourArea c rest).
  pose proof (Py.max_from_in Float.Rltb contourArea rest c) as Hin.
  repeat split; [|exact Hin|].
  - unfold select. cbn [Py.max_by bind length Nat.eqb negb].
    unfold reshape_4_2. rewrite (Hlen _ Hin). reflexivity.
  - intros x Hx. apply Rltb_false.
    apply (@Py.max_from_greatest _ _ Float.Rltb contourArea (fun _ => True)).
    + intros a b _ _. apply Rltb_asym.
    + intros a b d _ _ _. apply Rltb_trans.
    + unfold Py.all_ordered. rewrite Forall_forall. auto.
    + exact Hx.
Qed.

End Selection.

End SelectFacts.

(** ** Facts about the corner path *)

Module CornerPathFacts.

Import Angles AngleFacts FloatFacts RangeFacts Scanner ValidFacts SelectFacts.
Import Combinations.
Open Scope R_scope.

Lemma mapM_ok (A B : Type) (f : A -> result B) (g : A -> B) (l : list A) :
  (forall x, In x l -> f x = Ok (g x)) -> mapM f l = Ok (map g l).
Proof.
  induction l as [|x t IH]; intros H; simpl; [reflexivity|].
  rewrite (H x) by now left. simpl. rewrite IH; [reflexivity|].
  intros y Hy. apply H. now right.
Qed.

Lemma combine_map_self (A B : Type) (g : A -> B) (l : list A) :
  combine (map g l) l = map (fun x => (g x, x)) l.
Proof. induction l as [|x t IH]; simpl; [reflexivity|now rewrite IH]. Qed.

Lemma NoDup_of_ordpairs (A : Type) (l : list A) :
  ForallOrdPairs (fun p q => p <> q) l -> NoDup l.
Proof.
  induction 1 as [|x t Hx Ht IH]; constructor; [|exact IH].
  rewrite Forall_forall in Hx. intros Hin. now apply (Hx x Hin).
Qed.

(** The angle range of a quadrilateral, NaN for another contour. *)
Definition range_value (q : contour) : float :=
  match q with
  | [tl; tr; br; bl] => range_of tl tr br bl
  | _ => NaN
  end.

Lemma angle_range_range_value (q : contour) :
  length q = 4%nat -> angle_range q = Ok (range_value q).
Proof.
  destruct q as [|tl [|tr [|br [|bl [|]]]]]; try discriminate. intros _.
  apply angle_range_value.
Qed.

Lemma range_value_real (q : contour) :
  length q = 4%nat -> NoDup q -> is_real (range_value q).
Proof.
  destruct q as [|tl [|tr [|br [|bl [|]]]]]; try discriminate. intros _ Hnd.
  apply range_of_real. unfold degenerate.
  inversion Hnd as [|? ? H1 Hnd1]; subst. inversion Hnd1 as [|? ? H2 Hnd2]; subst.
  inversion Hnd2 as [|? ? H3 Hnd3]; subst. simpl in *.
  intros [H|[H|[H|H]]]; subst; tauto.
Qed.

Section CornerPath.

Variable order_points : contour -> contour.
Variable self : DocScanner.

Hypothesis order_points_perm :
  forall q, length q = 4%nat -> Permutation (order_points q) q.

(** The quadrilaterals of the image: its combinations of four corners, each
    in the order [order_points] gives it. *)
Definition quadrilaterals (img : Image) : list contour :=
  map order_points (combinations (get_corners img) 4).

Lemma quadrilaterals_in (img : Image) (q : contour) :
  In q (quadrilaterals img) <->
  exists s, subseq s (get_corners img) /\ length s = 4%nat /\ q = order_points s.
Proof.
  unfold quadrilaterals. rewrite in_map_iff. split.
  - intros (s & <- & Hs). apply combinations_sound in Hs. now exists s.
  - intros (s & Hsub & Hlen & ->). exists s. split; [reflexivity|].
    rewrite <- Hlen. now apply combinations_complete.
Qed.

Lemma quadrilaterals_proper (img : Image) (q : contour) :
  In q (quadrilaterals img) -> length q = 4%nat /\ NoDup q.
Proof.
  rewrite quadrilaterals_in. intros (s & Hsub & Hlen & ->).
  pose proof (order_points_perm s Hlen) as Hp.
  split; [now rewrite (Permutation_length Hp)|].
  apply (Permutation_NoDup (Permutation_sym Hp)).
  apply NoDup_of_ordpairs. apply (subseq_ordpairs Hsub).
  apply CornerFacts.filter_corners_distinct.
  unfold Corners.default_min_dist. lra.
Qed.

Lemma top5_proper (img : Image) (q : contour) :
  In q (firstn 5 (largest (quadrilaterals img))) -> length q = 4%nat /\ NoDup q.
Proof.
  intros Hq. apply (@quadrilaterals_proper img q).
  destruct (top5_largest (quadrilaterals img)) as (Hp & _).
  apply (Permutation_in _ Hp). apply in_or_app. now left.
Qed.

Lemma quadrilaterals_nonempty (img : Image) :
  (4 <= length (get_corners img))%nat -> firstn 5 (largest (quadrilaterals img)) <> [].
Proof.
  intros Hlen Hnil.
  destruct (top5_largest (quadrilaterals img)) as (_ & Hl & _).
  rewrite Hnil in Hl. simpl in Hl. unfold quadrilaterals in Hl.
  rewrite length_map in Hl.
  pose proof (@combinations_nonempty _ (get_corners img) 4 Hlen) as Hne.
  destruct (combinations (get_corners img) 4); [congruence|simpl in Hl; lia].
Qed.

(** The head of the quadrilaterals sorted by angle range. *)
Lemma sorted_by_range_head (l : list contour) :
  l <> [] -> (forall q, In q l -> is_real (range_value q)) ->
  exists best r tail,
    map snd (Py.sorted Float.ltb fst (combine (map range_value l) l)) = best :: tail /\
    In best l /\ range_value best = Fin r /\
    forall q, In q l -> exists r', range_value q = Fin r' /\ r <= r'.
Proof.
  intros Hne Hreal. rewrite combine_map_self.
  set (pairs := map (fun x => (range_value x, x)) l).
  assert (Hord : Py.all_ordered fst is_real pairs).
  { unfold Py.all_ordered, pairs. rewrite Forall_forall. intros p Hp.
    apply in_map_iff in Hp. destruct Hp as (q & <- & Hq). simpl. now apply Hreal. }
  pose proof (Py.sorted_perm Float.ltb fst pairs) as Hperm.
  pose proof (@Py.sorted_ascending _ _ Float.ltb fst is_real ltb_asym ltb_trans
                pairs Hord) as Hsorted.
  destruct (Py.sorted Float.ltb fst pairs) as [|[k best] tail] eqn:Hs.
  - apply Permutation_nil in Hperm. unfold pairs in Hperm.
    destruct l; [congruence|discriminate].
  - assert (Hin : In (k, best) pairs) by (apply (Permutation_in _ Hperm); now left).
    unfold pairs in Hin. apply in_map_iff in Hin.
    destruct Hin as (q0 & Heq & Hq0). injection Heq as Hk <-.
    destruct (Hreal q0 Hq0) as [r Hr].
    exists q0, r, (map snd tail). repeat split; try assumption.
    intros q Hq. destruct (Hreal q Hq) as [r' Hr']. exists r'. split; [exact Hr'|].
    assert (Hqin : In (range_value q, q) ((k, q0) :: tail)).
    { apply (Permutation_in _ (Permutation_sym Hperm)).
      unfold pairs. apply in_map_iff. now exists q. }
    inversion Hsorted as [|? ? _ Hall]; subst.
    destruct Hqin as [Heq|Hqin].
    + injection Heq as Hk' _. rewrite Hr, Hr' in Hk'. injection Hk' as ->. lra.
    + rewrite Forall_forall in Hall. specialize (Hall _ Hqin).
      unfold Py.before in Hall. simpl in Hall. rewrite Hr, Hr' in Hall.
      simpl in Hall. now apply Rltb_false in Hall.
Qed.

Lemma corner_path_few (img : Image) (acc : list contour) :
  (length (get_corners img) < 4)%nat ->
  corner_path order_points self img acc = Ok acc.
Proof.
  intros Hlen. unfold corner_path.
  destruct (Nat.leb_spec 4 (length (get_corners img))); [lia|reflexivity].
Qed.

Lemma corner_path_best (img : Image) (acc : list contour) :
  (4 <= length (get_corners img))%nat ->
  let top5 := firstn 5 (largest (quadrilaterals img)) in
  exists best r valid,
    In best top5 /\ angle_range best = Ok (Fin r) /\
    (forall q, In q top5 -> exists r', angle_range q = Ok (Fin r') /\ r <= r') /\
    is_valid_contour self best (IM_WIDTH img) (IM_HEIGHT img) = Ok valid /\
    corner_path order_points self img acc
    = Ok (if valid then acc ++ [best] else acc).
Proof.
  intros Hlen top5.
  assert (Hreal : forall q, In q top5 -> is_real (range_value q)).
  { intros q Hq. destruct (top5_proper img q Hq). now apply range_value_real. }
  destruct (sorted_by_range_head (quadrilaterals_nonempty img Hlen) Hreal)
    as (best & r & tail & Hhead & Hin & Hr & Hmin).
  destruct (is_valid_contour_total self best (IM_WIDTH img) (IM_HEIGHT img))
    as [valid Hvalid].
  exists best, r, valid. repeat split.
  - exact Hin.
  - rewrite angle_range_range_value by (now apply (top5_proper img)). now rewrite Hr.
  - intros q Hq. destruct (Hmin q Hq) as (r' & Hr' & Hle). exists r'.
    split; [|exact Hle].
    rewrite angle_range_range_value by (now apply (top5_proper img)). now rewrite Hr'.
  - exact Hvalid.
  - unfold corner_path.
    destruct (Nat.leb_spec 4 (length (get_corners img))); [|lia].
    fold (quadrilaterals img). fold (largest (quadrilaterals img)). fold top5.
    rewrite (@mapM_ok _ _ angle_range range_value top5).
    + cbn [bind]. unfold top5. rewrite Hhead, Hvalid. reflexivity.
    + intros q Hq. apply angle_range_range_value. now apply (top5_proper img).
Qed.

End CornerPath.

End CornerPathFacts.

(** ** The canonical order of a quadrilateral *)

Module Canonical.

Import Angles AngleFacts FloatFacts RangeFacts.



Section Order.

(** [top_left points p]: [p] is the vertex of [points] that counts as the
    top-left one. The specification does not say which vertex that is. *)
Variable top_left : contour -> Point -> Prop.


End Order.



(** The range of four angles does not depend on the vertex at which the
    quadrilateral starts. *)
Lemma ptp_rotate (w x y z : float) :
  real_or_nan w -> real_or_nan x -> real_or_nan y -> real_or_nan z ->
  Float.ptp y [w; z; x] = Float.ptp w [x; y; z].
Proof.
  intros [ -> | [rw ->]]; [intros; now rewrite !ptp_nan by tauto|].
  intros [ -> | [rx ->]]; [intros; now rewrite !ptp_nan by tauto|].
  intros [ -> | [ry ->]]; [intros; now rewrite !ptp_nan by tauto|].
  intros [ -> | [rz ->]]; [now rewrite !ptp_nan by tauto|].
  rewrite !ptp_fin. f_equal.
  unfold Rmax, Rmin. repeat destruct (Rle_dec _ _); lra.
Qed.

Lemma range_of_rotate (a b c d : Point) :
  range_of b c d a = range_of a b c d.
Proof.
  unfold range_of. apply ptp_rotate; apply angle_at_real_or_nan.
Qed.



End Canonical.

(** ** Evaluation on the samples *)

Module SampleFacts.

Import Angles AngleFacts FloatFacts RangeFacts Scanner ValidFacts SelectFacts Samples.
Open Scope R_scope.

Lemma get_corners_square : get_corners cornered = square.
Proof.
  unfold get_corners, Corners.default_min_dist.
  rewrite (CornerFacts.filter_corners_int _ 20). reflexivity.
Qed.

Lemma square_valid :
  is_valid_contour default_scanner square 1000 1000 = Ok true.
Proof. unfold square. now rewrite is_valid_rectangle. Qed.

(** An area equal to the threshold is not enough. *)
Lemma quarter_invalid :
  is_valid_contour default_scanner quarter 1000 1000 = Ok false.
Proof. unfold quarter. now rewrite is_valid_rectangle. Qed.

Lemma square_contour_valid :
  is_valid_contour default_scanner square_contour 1000 1000 = Ok true.
Proof. unfold square_contour. now rewrite is_valid_rectangle. Qed.

(** With exactly four corners there is one quadrilateral to judge. *)
Lemma corner_path_four (order_points : contour -> contour) (self : DocScanner)
  (img : Image) (acc : list contour) (a b c d : Point) :
  get_corners img = [a; b; c; d] ->
  corner_path order_points self img acc
  = (_ <- angle_range (order_points [a; b; c; d]) ;;
     valid <- is_valid_contour self (order_points [a; b; c; d])
                (IM_WIDTH img) (IM_HEIGHT img) ;;
     Ok (if valid then acc ++ [order_points [a; b; c; d]] else acc)).
Proof.
  intros Hc. unfold corner_path. rewrite Hc. cbn -[angle_range is_valid_contour].
  destruct (angle_range (order_points [a; b; c; d])); reflexivity.
Qed.

Lemma corner_path_cornered (cnts : list contour) (acc : list contour) :
  corner_path keep_order default_scanner (image_of square cnts) acc
  = Ok (acc ++ [square]).
Proof.
  rewrite (@corner_path_four _ _ _ _ (200, 200)%Z (800, 200)%Z (800, 800)%Z (200, 800)%Z)
    by apply get_corners_square.
  change (_ <- angle_range square ;;
          valid <- is_valid_contour default_scanner square 1000 1000 ;;
          Ok (if valid then acc ++ [square] else acc) = Ok (acc ++ [square])).
  rewrite (CornerPathFacts.angle_range_range_value square eq_refl). cbn [bind].
  now rewrite square_valid.
Qed.

Lemma contour_path_twice_found (acc : list contour) :
  contour_path keep_polygon default_scanner twice_found acc
  = Ok (acc ++ [square_contour]).
Proof.
  unfold contour_path. cbn -[is_valid_contour].
  unfold keep_polygon. now rewrite square_contour_valid.
Qed.

(** The contours of greatest area, computed on integers. *)
Lemma largest_int (l : list contour) :
  largest l = rev (Py.sorted Z.ltb contourArea2 (rev l)).
Proof.
  unfold largest, Py.sorted_reverse. f_equal.
  apply Py.sorted_ext. intros x y. apply contourArea_ltb.
Qed.

Lemma largest_cluttered :
  firstn 5 (largest (cnts cluttered)) = [pinched; square_contour; card].
Proof. rewrite largest_int. reflexivity. Qed.

Lemma pinched_invalid :
  is_valid_contour default_scanner pinched 1000 1000 = Ok false.
Proof. apply degenerate_invalid. left. reflexivity. Qed.

(** The largest contour is skipped for its NaN, the square is taken and the
    card is not looked at. *)
Lemma contour_path_cluttered (acc : list contour) :
  contour_path keep_polygon default_scanner cluttered acc
  = Ok (acc ++ [square_contour]).
Proof.
  unfold contour_path. fold (largest (cnts cluttered)). rewrite largest_cluttered.
  cbn -[is_valid_contour]. unfold keep_polygon.
  rewrite pinched_invalid. cbn [bind]. now rewrite square_contour_valid.
Qed.

Lemma get_contour_cluttered :
  get_contour keep_order keep_polygon default_scanner cluttered
  = Ok (square_contour, true).
Proof.
  unfold get_contour. cbn -[contour_path select].
  rewrite contour_path_cluttered. reflexivity.
Qed.

(** The scenario of the specification: the square is returned, as found. *)
Lemma get_contour_cornered :
  get_contour keep_order keep_polygon default_scanner cornered = Ok (square, true).
Proof.
  unfold get_contour, cornered. rewrite corner_path_cornered. reflexivity.
Qed.

Lemma get_contour_blank :
  get_contour keep_order keep_polygon default_scanner blank
  = Ok ([(1000, 0); (1000, 1000); (0, 1000); (0, 0)]%Z, false).
Proof. reflexivity. Qed.

End SampleFacts.

(** ** The angle computation in double precision *)

(** The modules above read a float as an exact real. In exact arithmetic the
    cosine that [angle_between_vectors_degrees] hands to [math.acos] always
    lies in [-1, 1]; the doubles of numpy leave that interval by one unit in
    the last place for some vectors on one line, and [math.acos] then raises
    [ValueError]. This module embeds the same functions on IEEE 754 binary64
    numbers, every operation rounded as the processor rounds it. *)

Module Doubles.

Import Scanner.

(** A [float64] of numpy, which is also the [float] of Python. *)
Definition double : Type := spec_float.

Definition prec : Z := 53.
Definition emax : Z := 1024.

(** The operations of binary64: the exact result, rounded to the nearest
    double, ties to even. *)
Definition add : double -> double -> double := SFadd prec emax.
Definition sub : double -> double -> double := SFsub prec emax.
Definition mul : double -> double -> double := SFmul prec emax.
Definition div : double -> double -> double := SFdiv prec emax.
Definition sqrt : double -> double := SFsqrt prec emax.

(** [a < b]; every comparison with NaN is false. *)
Definition ltb : double -> double -> bool := SFltb.

(** The conversion of an integer to a double. *)
Definition of_int (z : Z) : double := binary_normalize prec emax z 0 false.

(** [NPY_PI], the double nearest to pi: 3.141592653589793. *)
Definition pi : double := S754_finite false 0x1921fb54442d18 (-51).

(** [np.radians(x)] is [x * (NPY_PI / 180.0)] and [np.degrees(x)] is
    [x * (180.0 / NPY_PI)]. *)
Definition radians (x : double) : double := mul x (div pi (of_int 180)).

Definition degrees (x : double) : double := mul x (div (of_int 180) pi).

(** [np.maximum] and [np.minimum], which propagate NaN. *)
Definition maximum (a b : double) : double :=
  match a with
  | S754_nan => S754_nan
  | _ => match b with
         | S754_nan => S754_nan
         | _ => if ltb a b then b else a
         end
  end.

Definition minimum (a b : double) : double :=
  match a with
  | S754_nan => S754_nan
  | _ => match b with
         | S754_nan => S754_nan
         | _ => if ltb b a then b else a
         end
  end.

(** [np.ptp] of a non-empty sequence: maximum minus minimum. *)
Definition ptp (x : double) (xs : list double) : double :=
  sub (fold_left maximum xs x) (fold_left minimum xs x).

(** A float array of two entries. *)
Definition DPoint : Type := (double * double)%type.

(** [np.array(p)] of a pixel position, once numpy has made doubles of its
    integers. *)
Definition to_double (p : Point) : DPoint := (of_int (fst p), of_int (snd p)).

(** [np.dot(u, v)], [np.linalg.norm(u)] (the square root of [u.dot(u)]),
    [a - b] and [np.radians] of arrays of two entries. *)
Definition dot (u v : DPoint) : double :=
  add (mul (fst u) (fst v)) (mul (snd u) (snd v)).

Definition norm (u : DPoint) : double := sqrt (dot u u).

Definition vsub (a b : DPoint) : DPoint := (sub (fst a) (fst b), sub (snd a) (snd b)).

Definition vradians (p : DPoint) : DPoint := (radians (fst p), radians (snd p)).

(** The argument of [math.acos] in [angle_between_vectors_degrees]. *)
Definition cosine (u v : DPoint) : double := div (dot u v) (mul (norm u) (norm v)).

(** The arguments for which [math.acos] raises "math domain error": the
    numbers below -1 and above 1, the infinities among them. *)
Definition outside (x : double) : bool := ltb x (of_int (-1)) || ltb (of_int 1) x.

(** [cv2.contourArea(cnt)]: the sum of twice the area is exact in doubles for
    the coordinates of an image, and halving is exact. *)
Definition contourArea (cnt : contour) : double :=
  mul (of_int (contourArea2 cnt)) (div (of_int 1) (of_int 2)).

(** The thresholds [DocScanner.__init__] stores. *)
Record DocScanner : Type := {
  MIN_QUAD_AREA_RATIO : double;
  MAX_QUAD_ANGLE_RANGE : double
}.

(** [DocScanner()], with the defaults 0.25 and 40 of [__init__]. *)
Definition default_scanner : DocScanner :=
  {| MIN_QUAD_AREA_RATIO := div (of_int 25) (of_int 100);
     MAX_QUAD_ANGLE_RANGE := of_int 40 |}.

Section Libm.

(** The arc cosine of the C library, which [math.acos] calls. *)
Variable acos : double -> double.

(** [math.acos]: NaN for NaN, "math domain error" outside [-1, 1]. *)
Definition math_acos (x : double) : result double :=
  match x with
  | S754_nan => Ok S754_nan
  | _ => if outside x then Raise ValueError else Ok (acos x)
  end.

(** [angle_between_vectors_degrees(u, v)]. *)
Definition angle_between_vectors_degrees (u v : DPoint) : result double :=
  a <- math_acos (div (dot u v) (mul (norm u) (norm v))) ;;
  Ok (degrees a).

(** [get_angle(p1, p2, p3)]. *)
Definition get_angle (p1 p2 p3 : Point) : result double :=
  let a := vradians (to_double p1) in
  let b := vradians (to_double p2) in
  let c := vradians (to_double p3) in
  let avec := vsub a b in
  let cvec := vsub c b in
  angle_between_vectors_degrees avec cvec.

(** [angle_range(quad)]. *)
Definition angle_range (quad : contour) : result double :=
  match quad with
  | [tl; tr; br; bl] =>
      ura <- get_angle tl tr br ;;
      ula <- get_angle bl tl tr ;;
      lra <- get_angle tr br bl ;;
      lla <- get_angle br bl tl ;;
      Ok (ptp ura [ula; lra; lla])
  | _ => Raise ValueError
  end.

(** [is_valid_contour(cnt, IM_WIDTH, IM_HEIGHT)]. *)
Definition is_valid_contour (self : DocScanner) (cnt : contour)
  (IM_WIDTH IM_HEIGHT : Z) : result bool :=
  if negb (length cnt =? 4)%nat then Ok false
  else if negb (ltb (mul (of_int (IM_WIDTH * IM_HEIGHT)) (MIN_QUAD_AREA_RATIO self))
                    (contourArea cnt))
  then Ok false
  else r <- angle_range cnt ;; Ok (ltb r (MAX_QUAD_ANGLE_RANGE self)).

Section GetContour.

Variable order_points : contour -> contour.

Variable approxPolyDP : contour -> R -> bool -> contour.

Variable self : DocScanner.

(** The block under [if len(test_corners) >= 4]. *)
Definition corner_path (img : Image) (approx_contours : list contour)
  : result (list contour) :=
  let test_corners := get_corners img in
  if (4 <=? length test_corners)%nat then
    let quads := map order_points (Combinations.combinations test_corners 4) in
    let quads := firstn 5 (Py.sorted_reverse ltb contourArea quads) in
    keys <- mapM angle_range quads ;;
    let quads := map snd (Py.sorted ltb fst (combine keys quads)) in
    match quads with
    | [] => Raise IndexError
    | approx :: _ =>
        valid <- is_valid_contour self approx (IM_WIDTH img) (IM_HEIGHT img) ;;
        Ok (if valid then approx_contours ++ [approx] else approx_contours)
    end
  else Ok approx_contours.

(** The loop [for c in cnts]. *)
Fixpoint contour_loop (img : Image) (cnts : list contour)
  (approx_contours : list contour) : result (list contour) :=
  match cnts with
  | [] => Ok approx_contours
  | c :: rest =>
      let approx := approxPolyDP c 80%R true in
      valid <- is_valid_contour self approx (IM_WIDTH img) (IM_HEIGHT img) ;;
      if valid then Ok (approx_contours ++ [approx])
      else contour_loop img rest approx_contours
  end.

Definition contour_path (img : Image) (approx_contours : list contour)
  : result (list contour) :=
  let cnts := firstn 5 (Py.sorted_reverse ltb contourArea (cnts img)) in
  contour_loop img cnts approx_contours.

(** The choice of [screenCnt] among the candidates found. *)
Definition select (img : Image) (approx_contours : list contour)
  : result (contour * bool) :=
  let has_cnt := negb (length approx_contours =? 0)%nat in
  screenCnt <- match approx_contours with
               | [] => Ok (whole_image img)
               | _ => Py.max_by ltb contourArea approx_contours
               end ;;
  points <- reshape_4_2 screenCnt ;;
  Ok (points, has_cnt).

(** [get_contour(rescaled_image, log_img_dir)] in double precision. *)
Definition get_contour (img : Image) : result (contour * bool) :=
  let approx_contours := [] in
  approx_contours <- corner_path img approx_contours ;;
  approx_contours <- contour_path img approx_contours ;;
  select img approx_contours.

End GetContour.

End Libm.

End Doubles.

(** ** Facts about the double-precision computation *)

Module DoubleFacts.

Import Doubles.

Definition is_nan (x : double) : bool :=
  match x with S754_nan => true | _ => false end.

(** Zero of either sign, or NaN: what is left of a difference [x - x]. *)
Definition zero_or_nan (x : double) : bool :=
  match x with S754_zero _ | S754_nan => true | _ => false end.

Lemma double_sub_diag (x : double) : zero_or_nan (sub x x) = true.
Proof.
  destruct x as [[|]|[|]| |s m e]; try reflexivity.
  unfold sub, SFsub. cbv zeta.
  set (a := cond_Zopp s _).
  replace (IntDef.Z.sub a a) with 0%Z by (symmetry; apply Z.sub_diag).
  reflexivity.
Qed.

Lemma double_mul_zero_l (x y : double) :
  zero_or_nan x = true -> zero_or_nan (mul x y) = true.
Proof. destruct x, y; simpl; intros H; try discriminate; reflexivity. Qed.

Lemma double_mul_zero_r (x y : double) :
  zero_or_nan y = true -> zero_or_nan (mul x y) = true.
Proof. destruct x, y; simpl; intros H; try discriminate; reflexivity. Qed.

Lemma double_add_zero (x y : double) :
  zero_or_nan x = true -> zero_or_nan y = true -> zero_or_nan (add x y) = true.
Proof.
  destruct x as [[|]| | |], y as [[|]| | |]; simpl; intros H1 H2;
    try discriminate; reflexivity.
Qed.

Lemma double_sqrt_zero (x : double) : zero_or_nan x = true -> zero_or_nan (sqrt x) = true.
Proof. destruct x; simpl; intros H; try discriminate; reflexivity. Qed.

Lemma double_div_zero (x y : double) :
  zero_or_nan x = true -> zero_or_nan y = true -> div x y = S754_nan.
Proof. destruct x, y; simpl; intros H1 H2; try discriminate; reflexivity. Qed.

Lemma double_mul_comm (x y : double) : mul x y = mul y x.
Proof.
  destruct x as [s|s| |s m e], y as [s'|s'| |s' m' e']; try reflexivity;
    try (destruct s, s'; reflexivity).
  unfold mul, SFmul.
  replace (xorb s' s) with (xorb s s') by apply xorb_comm.
  replace (Pos.mul m' m) with (Pos.mul m m') by apply Pos.mul_comm.
  replace (IntDef.Z.add e' e) with (IntDef.Z.add e e') by apply Z.add_comm.
  reflexivity.
Qed.

Lemma double_ltb_nan_l (x : double) : ltb S754_nan x = false.
Proof. reflexivity. Qed.

Lemma double_ltb_nan_r (x : double) : ltb x S754_nan = false.
Proof. now destruct x. Qed.

Lemma double_ltb_irrefl (x : double) : ltb x x = false.
Proof.
  destruct x as [s|[|]| |[|] m e]; try reflexivity;
    unfold ltb, SFltb, SFcompare;
    replace (IntDef.Z.compare e e) with Eq by (symmetry; apply Z.compare_refl);
    replace (Pos.compare_cont Eq m m) with Eq by (symmetry; apply Pos.compare_refl);
    reflexivity.
Qed.

Lemma double_maximum_nan_l (x : double) : maximum S754_nan x = S754_nan.
Proof. reflexivity. Qed.

Lemma double_maximum_nan_r (x : double) : maximum x S754_nan = S754_nan.
Proof. now destruct x. Qed.

Lemma double_minimum_nan_l (x : double) : minimum S754_nan x = S754_nan.
Proof. reflexivity. Qed.

Lemma double_minimum_nan_r (x : double) : minimum x S754_nan = S754_nan.
Proof. now destruct x. Qed.

Lemma double_fold_maximum_nan (xs : list double) : fold_left maximum xs S754_nan = S754_nan.
Proof. induction xs as [|x xs IH]; [reflexivity|exact IH]. Qed.

Lemma double_fold_minimum_nan (xs : list double) : fold_left minimum xs S754_nan = S754_nan.
Proof. induction xs as [|x xs IH]; [reflexivity|exact IH]. Qed.

(** One NaN among the values makes their range NaN. *)
Lemma double_ptp_nan (x : double) (xs : list double) :
  In S754_nan (x :: xs) -> ptp x xs = S754_nan.
Proof.
  intros Hin. unfold ptp.
  assert (Hmax : fold_left maximum xs x = S754_nan).
  { revert x Hin. induction xs as [|y ys IH]; intros x [Hx|Hin]; simpl.
    - now symmetry.
    - destruct Hin.
    - subst x. apply double_fold_maximum_nan.
    - destruct Hin as [Hy|Hin].
      + subst y. rewrite double_maximum_nan_r. apply double_fold_maximum_nan.
      + apply IH. now right. }
  now rewrite Hmax.
Qed.

(** *** The cosine *)

Lemma cosine_sym (u v : DPoint) : cosine u v = cosine v u.
Proof.
  unfold cosine, dot.
  now rewrite (double_mul_comm (fst u) (fst v)), (double_mul_comm (snd u) (snd v)),
    (double_mul_comm (norm u) (norm v)).
Qed.

Definition zero_vector (u : DPoint) : bool := zero_or_nan (fst u) && zero_or_nan (snd u).

Lemma double_vsub_diag (a : DPoint) : zero_vector (vsub a a) = true.
Proof. unfold zero_vector, vsub; simpl. now rewrite !double_sub_diag. Qed.

Lemma double_norm_zero (u : DPoint) : zero_vector u = true -> zero_or_nan (norm u) = true.
Proof.
  unfold zero_vector. rewrite andb_true_iff. intros [H1 H2].
  apply double_sqrt_zero, double_add_zero; now apply double_mul_zero_l.
Qed.

(** A vector of length zero makes the quotient [0.0 / 0.0], which is NaN. *)
Lemma cosine_zero_l (u v : DPoint) : zero_vector u = true -> cosine u v = S754_nan.
Proof.
  intros Hu. pose proof (double_norm_zero u Hu) as Hn.
  unfold zero_vector in Hu. rewrite andb_true_iff in Hu. destruct Hu as [H1 H2].
  apply double_div_zero; [apply double_add_zero; now apply double_mul_zero_l|now apply double_mul_zero_l].
Qed.

Lemma cosine_zero_r (u v : DPoint) : zero_vector v = true -> cosine u v = S754_nan.
Proof. intros Hv. rewrite cosine_sym. now apply cosine_zero_l. Qed.

Section Libm.

Variable acos : double -> double.

Lemma math_acos_inside (x : double) :
  is_nan x = false -> outside x = false -> math_acos acos x = Ok (acos x).
Proof.
  unfold math_acos. intros Hn Ho. rewrite Ho. now destruct x.
Qed.

Lemma math_acos_outside (x : double) :
  is_nan x = false -> outside x = true -> math_acos acos x = Raise ValueError.
Proof.
  unfold math_acos. intros Hn Ho. rewrite Ho. now destruct x.
Qed.

Lemma math_acos_raises (x : double) :
  math_acos acos x = Raise ValueError <-> is_nan x = false /\ outside x = true.
Proof.
  destruct (is_nan x) eqn:Hn.
  - destruct x; try discriminate.
    split; [discriminate|intros [Hf _]; discriminate].
  - destruct (outside x) eqn:Ho.
    + rewrite (math_acos_outside x Hn Ho). now split.
    + rewrite (math_acos_inside x Hn Ho).
      split; [discriminate|intros [_ Hf]; discriminate].
Qed.

(** [math.acos] raises nothing but [ValueError]. *)
Lemma math_acos_cases (x : double) :
  (exists a, math_acos acos x = Ok a) \/ math_acos acos x = Raise ValueError.
Proof.
  unfold math_acos. destruct x; eauto; destruct (outside _); eauto.
Qed.

Lemma angle_between_vectors_degrees_cosine (u v : DPoint) :
  angle_between_vectors_degrees acos u v
  = (a <- math_acos acos (cosine u v) ;; Ok (degrees a)).
Proof. reflexivity. Qed.

Lemma angle_between_vectors_degrees_sym (u v : DPoint) :
  angle_between_vectors_degrees acos u v = angle_between_vectors_degrees acos v u.
Proof. now rewrite !angle_between_vectors_degrees_cosine, cosine_sym. Qed.

Lemma double_degrees_nan : degrees S754_nan = S754_nan.
Proof. reflexivity. Qed.

Lemma angle_between_vectors_degrees_nan (u v : DPoint) :
  cosine u v = S754_nan -> angle_between_vectors_degrees acos u v = Ok S754_nan.
Proof. intros H. rewrite angle_between_vectors_degrees_cosine, H. reflexivity. Qed.

Lemma angle_between_vectors_degrees_inside (u v : DPoint) (c : double) :
  cosine u v = c -> is_nan c = false -> outside c = false ->
  angle_between_vectors_degrees acos u v = Ok (degrees (acos c)).
Proof.
  intros H Hn Ho. rewrite angle_between_vectors_degrees_cosine, H.
  now rewrite math_acos_inside.
Qed.

Lemma angle_between_vectors_degrees_outside (u v : DPoint) (c : double) :
  cosine u v = c -> is_nan c = false -> outside c = true ->
  angle_between_vectors_degrees acos u v = Raise ValueError.
Proof.
  intros H Hn Ho. rewrite angle_between_vectors_degrees_cosine, H.
  now rewrite math_acos_outside.
Qed.

Lemma angle_between_vectors_degrees_raises (u v : DPoint) :
  angle_between_vectors_degrees acos u v = Raise ValueError <->
  is_nan (cosine u v) = false /\ outside (cosine u v) = true.
Proof.
  rewrite <- math_acos_raises, angle_between_vectors_degrees_cosine.
  destruct (math_acos acos (cosine u v)) as [a|e]; cbn [bind];
    split; intros Hr; first [discriminate|exact Hr].
Qed.

Lemma angle_between_vectors_degrees_cases (u v : DPoint) :
  (exists a, angle_between_vectors_degrees acos u v = Ok a) \/
  angle_between_vectors_degrees acos u v = Raise ValueError.
Proof.
  rewrite angle_between_vectors_degrees_cosine.
  destruct (math_acos_cases (cosine u v)) as [[a Ha]|Ha]; rewrite Ha; simpl; eauto.
Qed.

(** The cosine at the vertex [p2] of the angle [p1 p2 p3]. *)
Definition cosine_at (p1 p2 p3 : Point) : double :=
  cosine (vsub (vradians (to_double p1)) (vradians (to_double p2)))
         (vsub (vradians (to_double p3)) (vradians (to_double p2))).

Lemma get_angle_cosine (p1 p2 p3 : Point) :
  get_angle acos p1 p2 p3 = (a <- math_acos acos (cosine_at p1 p2 p3) ;; Ok (degrees a)).
Proof. reflexivity. Qed.

Lemma get_angle_sym (p1 p2 p3 : Point) :
  get_angle acos p1 p2 p3 = get_angle acos p3 p2 p1.
Proof. apply angle_between_vectors_degrees_sym. Qed.

Lemma get_angle_cases (p1 p2 p3 : Point) :
  (exists a, get_angle acos p1 p2 p3 = Ok a) \/
  get_angle acos p1 p2 p3 = Raise ValueError.
Proof. apply angle_between_vectors_degrees_cases. Qed.

(** At a vertex that coincides with a neighbour nothing is raised: the
    angle is NaN. *)
Lemma get_angle_coincident_l (p q : Point) : get_angle acos p p q = Ok S754_nan.
Proof.
  apply angle_between_vectors_degrees_nan, cosine_zero_l, double_vsub_diag.
Qed.

Lemma get_angle_coincident_r (p q : Point) : get_angle acos q p p = Ok S754_nan.
Proof. rewrite get_angle_sym. apply get_angle_coincident_l. Qed.

Lemma get_angle_inside (p1 p2 p3 : Point) (c : double) :
  cosine_at p1 p2 p3 = c -> is_nan c = false -> outside c = false ->
  get_angle acos p1 p2 p3 = Ok (degrees (acos c)).
Proof. apply angle_between_vectors_degrees_inside. Qed.

Lemma get_angle_outside (p1 p2 p3 : Point) (c : double) :
  cosine_at p1 p2 p3 = c -> is_nan c = false -> outside c = true ->
  get_angle acos p1 p2 p3 = Raise ValueError.
Proof. apply angle_between_vectors_degrees_outside. Qed.

(** With a degenerate vertex the angle range is NaN, unless the angle at
    another vertex raises. *)
Lemma angle_range_degenerate (tl tr br bl : Point) :
  RangeFacts.degenerate tl tr br bl ->
  angle_range acos [tl; tr; br; bl] = Ok S754_nan \/
  angle_range acos [tl; tr; br; bl] = Raise ValueError.
Proof.
  intros Hd. unfold angle_range.
  destruct (get_angle_cases tl tr br) as [[ura Hura]|Hura]; rewrite Hura;
    [cbn [bind]|now right].
  destruct (get_angle_cases bl tl tr) as [[ula Hula]|Hula]; rewrite Hula;
    [cbn [bind]|now right].
  destruct (get_angle_cases tr br bl) as [[lra Hlra]|Hlra]; rewrite Hlra;
    [cbn [bind]|now right].
  destruct (get_angle_cases br bl tl) as [[lla Hlla]|Hlla]; rewrite Hlla;
    [cbn [bind]|now right].
  left. f_equal. apply double_ptp_nan.
  destruct Hd as [Hd|[Hd|[Hd|Hd]]]; subst.
  - rewrite get_angle_coincident_l in Hura. injection Hura as <-. now left.
  - rewrite get_angle_coincident_r in Hura. injection Hura as <-. now left.
  - rewrite get_angle_coincident_r in Hlra. injection Hlra as <-. right; right; now left.
  - rewrite get_angle_coincident_l in Hula. injection Hula as <-. right; now left.
Qed.

Lemma angle_range_cases (quad : contour) :
  (exists x, angle_range acos quad = Ok x) \/ angle_range acos quad = Raise ValueError.
Proof.
  destruct quad as [|a [|b [|c [|d [|]]]]]; try (now right).
  unfold angle_range.
  destruct (get_angle_cases a b c) as [[x1 H1]|H1]; rewrite H1; [cbn [bind]|now right].
  destruct (get_angle_cases d a b) as [[x2 H2]|H2]; rewrite H2; [cbn [bind]|now right].
  destruct (get_angle_cases b c d) as [[x3 H3]|H3]; rewrite H3; [cbn [bind]|now right].
  destruct (get_angle_cases c d a) as [[x4 H4]|H4]; rewrite H4; [cbn [bind]|now right].
  eauto.
Qed.

Lemma is_valid_contour_cases (self : DocScanner) (cnt : contour) (W H : Z) :
  (exists b, is_valid_contour acos self cnt W H = Ok b) \/
  is_valid_contour acos self cnt W H = Raise ValueError.
Proof.
  unfold is_valid_contour.
  destruct (negb (length cnt =? 4)%nat); [eauto|].
  destruct (negb (ltb _ _)); [eauto|].
  destruct (angle_range_cases cnt) as [[r Hr]|Hr]; rewrite Hr; cbn [bind]; eauto.
Qed.

(** A quadrilateral with a degenerate vertex is never accepted. *)
Lemma is_valid_contour_degenerate (self : DocScanner) (tl tr br bl : Point) (W H : Z) :
  RangeFacts.degenerate tl tr br bl ->
  is_valid_contour acos self [tl; tr; br; bl] W H = Ok false \/
  is_valid_contour acos self [tl; tr; br; bl] W H = Raise ValueError.
Proof.
  intros Hd. unfold is_valid_contour. cbn [length Nat.eqb negb].
  destruct (negb (ltb _ _)); [now left|].
  destruct (angle_range_degenerate Hd) as [Hr|Hr]; rewrite Hr; [left|right]; reflexivity.
Qed.

End Libm.

End DoubleFacts.

(** ** Sample inputs of the double-precision computation *)

Module DoubleSamples.

Import Scanner Samples Doubles DoubleFacts.

(** Four corners, three of them on one line through the origin. *)
Definition collinear_corners : list Point :=
  [(0, 0); (200, 20); (1000, 100); (0, 1000)]%Z.

(** The frame of 1000 by 1000 in which these corners were detected, and no
    contour. *)
Definition collinear : Image := image_of collinear_corners [].

(** A contour of half the frame with three vertices on the diagonal. *)
Definition flat : contour := [(0, 0); (210, 210); (1000, 1000); (0, 1000)]%Z.

(** Two coincident vertices followed by two more on the same diagonal. *)
Definition folded : contour := [(0, 0); (0, 0); (210, 210); (1000, 1000)]%Z.

(** The difference [p - q] of two integer arrays. *)
Definition minus (p q : Point) : Point := (fst p - fst q, snd p - snd q)%Z.

Lemma get_corners_collinear : get_corners collinear = collinear_corners.
Proof.
  unfold get_corners, Corners.default_min_dist.
  rewrite (CornerFacts.filter_corners_int _ 20). reflexivity.
Qed.

(** [angle_range] returns NaN for the quadrilateral and raises nothing,
    whatever the arc cosine of the library returns for the angles that are
    computed. *)
Definition raises_nothing (quad : contour) : Prop :=
  forall acos : double -> double,
    angle_range acos quad = Ok S754_nan /\
    ~ (exists e, angle_range acos quad = Raise e).

Section Libm.

Variable acos : double -> double.

(** The cosine at the middle one of three points on a line is rounded to
    the double just below -1. *)
Lemma get_angle_diagonal :
  get_angle acos (0, 0)%Z (210, 210)%Z (1000, 1000)%Z = Raise ValueError.
Proof.
  eapply get_angle_outside; [vm_compute; reflexivity|reflexivity|vm_compute; reflexivity].
Qed.

Lemma get_angle_slanted :
  get_angle acos (0, 0)%Z (200, 20)%Z (1000, 100)%Z = Raise ValueError.
Proof.
  eapply get_angle_outside; [vm_compute; reflexivity|reflexivity|vm_compute; reflexivity].
Qed.

Lemma angle_range_flat : angle_range acos flat = Raise ValueError.
Proof. unfold flat, angle_range. now rewrite get_angle_diagonal. Qed.

Lemma angle_range_collinear : angle_range acos collinear_corners = Raise ValueError.
Proof. unfold collinear_corners, angle_range. now rewrite get_angle_slanted. Qed.

(** The first two angles are NaN, the third is the one of [get_angle_diagonal]. *)
Lemma angle_range_folded : angle_range acos folded = Raise ValueError.
Proof.
  unfold folded, angle_range.
  rewrite get_angle_coincident_l. cbn [bind].
  rewrite get_angle_coincident_r. cbn [bind].
  now rewrite get_angle_diagonal.
Qed.

(** For the pinched quadrilateral the two other angles are computed. *)
Lemma angle_range_pinched : angle_range acos pinched = Ok S754_nan.
Proof.
  unfold pinched, angle_range.
  rewrite get_angle_coincident_l. cbn [bind].
  rewrite get_angle_coincident_r. cbn [bind].
  erewrite get_angle_inside;
    [|vm_compute; reflexivity|reflexivity|vm_compute; reflexivity]. cbn [bind].
  erewrite get_angle_inside;
    [|vm_compute; reflexivity|reflexivity|vm_compute; reflexivity]. cbn [bind].
  reflexivity.
Qed.

Lemma is_valid_contour_pinched :
  is_valid_contour acos default_scanner pinched 1000 1000 = Ok false.
Proof.
  unfold is_valid_contour.
  replace (negb (length pinched =? 4)%nat) with false by reflexivity.
  replace (negb (ltb _ (contourArea pinched))) with false by (vm_compute; reflexivity).
  now rewrite angle_range_pinched.
Qed.

(** With exactly four corners there is one quadrilateral to judge. *)
Lemma corner_path_four_corners (order_points : contour -> contour) (self : DocScanner)
  (img : Image) (acc : list contour) (a b c d : Point) :
  get_corners img = [a; b; c; d] ->
  corner_path acos order_points self img acc
  = (_ <- angle_range acos (order_points [a; b; c; d]) ;;
     valid <- is_valid_contour acos self (order_points [a; b; c; d])
                (IM_WIDTH img) (IM_HEIGHT img) ;;
     Ok (if valid then acc ++ [order_points [a; b; c; d]] else acc)).
Proof.
  intros Hc. unfold corner_path. rewrite Hc. cbn -[angle_range is_valid_contour].
  destruct (angle_range acos (order_points [a; b; c; d])); reflexivity.
Qed.

Lemma corner_path_collinear (acc : list contour) :
  corner_path acos keep_order default_scanner collinear acc = Raise ValueError.
Proof.
  rewrite (@corner_path_four_corners _ _ _ _ (0, 0)%Z (200, 20)%Z (1000, 100)%Z (0, 1000)%Z)
    by apply get_corners_collinear.
  change ((_ <- angle_range acos collinear_corners ;;
           valid <- is_valid_contour acos default_scanner collinear_corners 1000 1000 ;;
           Ok (if valid then acc ++ [collinear_corners] else acc))
          = Raise ValueError).
  now rewrite angle_range_collinear.
Qed.

End Libm.

End DoubleSamples.

(** ** The properties of the specification *)

Import Angles Scanner Samples.

(** C7. The close-point filter keeps a point exactly when its Euclidean
    distance to every point kept before it is at least [min_dist]: after a
    prefix [l] of the input, the next point [c] is appended to the kept
    points if it is that far from each of them and dropped otherwise, and
    what was kept stays in front however the input goes on (first-seen
    wins). The filter is idempotent. *)
Theorem filter_corners_greedy_idempotent (corners : list Point) (min_dist : R) :
  (forall l c,
      (forall r, In r (Corners.filter_corners l min_dist) ->
                 (min_dist <= Corners.euclidean r c)%R) ->
      Corners.filter_corners (l ++ [c]) min_dist
      = Corners.filter_corners l min_dist ++ [c]) /\
  (forall l c,
      ~ (forall r, In r (Corners.filter_corners l min_dist) ->
                   (min_dist <= Corners.euclidean r c)%R) ->
      Corners.filter_corners (l ++ [c]) min_dist = Corners.filter_corners l min_dist) /\
  (forall l rest, exists tail,
      Corners.filter_corners (l ++ rest) min_dist
      = Corners.filter_corners l min_dist ++ tail) /\
  Corners.filter_corners (Corners.filter_corners corners min_dist) min_dist
  = Corners.filter_corners corners min_dist.
Proof.
  repeat split.
  - intros l c Hfar. rewrite CornerFacts.filter_corners_snoc.
    apply CornerFacts.predicate_true in Hfar. now rewrite Hfar.
  - intros l c Hnear. rewrite CornerFacts.filter_corners_snoc.
    destruct (Corners.predicate _ _ c) eqn:Hp; [|reflexivity].
    exfalso. apply Hnear. now apply CornerFacts.predicate_true.
  - intros l rest. apply CornerFacts.filter_corners_prefix.
  - apply Corners.filter_loop_fixed.
Qed.

(** C10. [get_angle] does not return the angle between [p1 - p2] and
    [p3 - p2] for every three points: the conversion to radians rounds each
    coordinate, and the cosine of the rounded vectors can leave [-1, 1] where
    the cosine of the vectors themselves does not. For the three points
    (0, 0), (210, 210), (1000, 1000) of one line [get_angle] raises
    [ValueError], and the angle of the two difference vectors is computed
    (it is the arc cosine of -1, in degrees); for p1 = p3 = (1, 5) and
    p2 = (0, 0) it is the other way round. *)
Theorem get_angle_collinear_raises (acos : Doubles.double -> Doubles.double) :
  Doubles.get_angle acos (0, 0)%Z (210, 210)%Z (1000, 1000)%Z = Raise ValueError /\
  Doubles.angle_between_vectors_degrees acos
    (Doubles.to_double (DoubleSamples.minus (0, 0)%Z (210, 210)%Z))
    (Doubles.to_double (DoubleSamples.minus (1000, 1000)%Z (210, 210)%Z))
  = Ok (Doubles.degrees (acos (Doubles.of_int (-1)))) /\
  Doubles.get_angle acos (1, 5)%Z (0, 0)%Z (1, 5)%Z
  = Ok (Doubles.degrees (acos (Doubles.of_int 1))) /\
  Doubles.angle_between_vectors_degrees acos
    (Doubles.to_double (DoubleSamples.minus (1, 5)%Z (0, 0)%Z))
    (Doubles.to_double (DoubleSamples.minus (1, 5)%Z (0, 0)%Z))
  = Raise ValueError.
Proof.
  split; [|split; [|split]].
  - apply DoubleSamples.get_angle_diagonal.
  - eapply DoubleFacts.angle_between_vectors_degrees_inside;
      [vm_compute; reflexivity|reflexivity|vm_compute; reflexivity].
  - eapply DoubleFacts.get_angle_inside;
      [vm_compute; reflexivity|reflexivity|vm_compute; reflexivity].
  - eapply DoubleFacts.angle_between_vectors_degrees_outside;
      [vm_compute; reflexivity|reflexivity|vm_compute; reflexivity].
Qed.

(** C2. [is_valid_contour] returns true exactly for a contour of four
    vertices whose area is strictly greater than
    [IM_WIDTH * IM_HEIGHT * MIN_QUAD_AREA_RATIO] and for which [angle_range]
    returns a value strictly less than [MAX_QUAD_ANGLE_RANGE]. A contour
    without four vertices or with an area equal to the threshold or below it
    is rejected before any angle is computed; past these two tests the answer
    is the comparison of the angle range, or the error [angle_range] raises.
    The defaults of the thresholds are 0.25 and 40. *)
Theorem is_valid_contour_criteria (acos : Doubles.double -> Doubles.double)
  (self : Doubles.DocScanner) (cnt : contour) (W H : Z) :
  (Doubles.is_valid_contour acos self cnt W H = Ok true <->
   length cnt = 4%nat /\
   Doubles.ltb (Doubles.mul (Doubles.of_int (W * H)) (Doubles.MIN_QUAD_AREA_RATIO self))
               (Doubles.contourArea cnt) = true /\
   exists r, Doubles.angle_range acos cnt = Ok r /\
             Doubles.ltb r (Doubles.MAX_QUAD_ANGLE_RANGE self) = true) /\
  (length cnt <> 4%nat -> Doubles.is_valid_contour acos self cnt W H = Ok false) /\
  (Doubles.ltb (Doubles.mul (Doubles.of_int (W * H)) (Doubles.MIN_QUAD_AREA_RATIO self))
               (Doubles.contourArea cnt) = false ->
   Doubles.is_valid_contour acos self cnt W H = Ok false) /\
  (Doubles.contourArea cnt
   = Doubles.mul (Doubles.of_int (W * H)) (Doubles.MIN_QUAD_AREA_RATIO self) ->
   Doubles.is_valid_contour acos self cnt W H = Ok false) /\
  (length cnt = 4%nat ->
   Doubles.ltb (Doubles.mul (Doubles.of_int (W * H)) (Doubles.MIN_QUAD_AREA_RATIO self))
               (Doubles.contourArea cnt) = true ->
   Doubles.is_valid_contour acos self cnt W H
   = (r <- Doubles.angle_range acos cnt ;;
      Ok (Doubles.ltb r (Doubles.MAX_QUAD_ANGLE_RANGE self)))) /\
  Doubles.MIN_QUAD_AREA_RATIO Doubles.default_scanner
  = Doubles.div (Doubles.of_int 1) (Doubles.of_int 4) /\
  Doubles.MAX_QUAD_ANGLE_RANGE Doubles.default_scanner = Doubles.of_int 40.
Proof.
  assert (Hsmall : Doubles.ltb (Doubles.mul (Doubles.of_int (W * H))
                                  (Doubles.MIN_QUAD_AREA_RATIO self))
                               (Doubles.contourArea cnt) = false ->
                   Doubles.is_valid_contour acos self cnt W H = Ok false).
  { intros Ha. unfold Doubles.is_valid_contour. rewrite Ha.
    now destruct (negb (length cnt =? 4)%nat). }
  split; [split|].
  - intros Hv. unfold Doubles.is_valid_contour in Hv.
    destruct (Nat.eqb_spec (length cnt) 4) as [Hl|Hl]; [|discriminate].
    cbn [negb] in Hv.
    destruct (Doubles.ltb _ (Doubles.contourArea cnt)); [|discriminate].
    cbn [negb] in Hv.
    destruct (Doubles.angle_range acos cnt) as [r|e]; [|discriminate].
    cbn [bind] in Hv. repeat split; [exact Hl|].
    exists r. split; [reflexivity|congruence].
  - intros (Hl & Ha & r & Hr & Hlt). unfold Doubles.is_valid_contour.
    rewrite Hl, Ha, Hr. cbn. now rewrite Hlt.
  - split; [|split; [exact Hsmall|split; [|split; [|split; reflexivity]]]].
    + intros Hl. unfold Doubles.is_valid_contour.
      destruct (Nat.eqb_spec (length cnt) 4) as [Hl'|Hl']; [contradiction|reflexivity].
    + intros Ha. apply Hsmall. rewrite Ha. apply DoubleFacts.double_ltb_irrefl.
    + intros Hl Ha. unfold Doubles.is_valid_contour. now rewrite Hl, Ha.
Qed.

(** C1. The corner path does not select a quadrilateral for every set of
    four or more corners. In the frame with the corners (0, 0), (200, 20),
    (1000, 100) and (0, 1000), which are 20 apart and so all kept, the one
    combination of four corners is judged in this order; the cosine at
    (200, 20), between two corners on one line with it, is rounded below -1,
    [math.acos] raises [ValueError] inside the key of [sorted], and the
    error leaves [get_contour] before any candidate is added. *)
Theorem get_contour_collinear_corners_raise
  (acos : Doubles.double -> Doubles.double)
  (approxPolyDP : contour -> R -> bool -> contour) :
  get_corners DoubleSamples.collinear = DoubleSamples.collinear_corners /\
  Combinations.combinations (get_corners DoubleSamples.collinear) 4
  = [DoubleSamples.collinear_corners] /\
  Doubles.get_angle acos (0, 0)%Z (200, 20)%Z (1000, 100)%Z = Raise ValueError /\
  Doubles.angle_range acos (keep_order DoubleSamples.collinear_corners)
  = Raise ValueError /\
  Doubles.corner_path acos keep_order Doubles.default_scanner DoubleSamples.collinear []
  = Raise ValueError /\
  Doubles.get_contour acos keep_order approxPolyDP Doubles.default_scanner
    DoubleSamples.collinear
  = Raise ValueError.
Proof.
  split; [apply DoubleSamples.get_corners_collinear|].
  split; [now rewrite DoubleSamples.get_corners_collinear|].
  split; [apply DoubleSamples.get_angle_slanted|].
  split; [apply DoubleSamples.angle_range_collinear|].
  split; [apply DoubleSamples.corner_path_collinear|].
  unfold Doubles.get_contour. now rewrite DoubleSamples.corner_path_collinear.
Qed.


(** C3. When the two paths leave at least one candidate, [get_contour]
    returns a candidate of greatest area among them, the only one when there
    is one, and reports a contour as found. *)
Theorem get_contour_larger_candidate (order_points : contour -> contour)
  (approxPolyDP : contour -> R -> bool -> contour)
  (self : DocScanner) (img : Image) (from_corners candidates : list contour) :
  corner_path order_points self img [] = Ok from_corners ->
  contour_path approxPolyDP self img from_corners = Ok candidates ->
  candidates <> [] ->
  exists best,
    get_contour order_points approxPolyDP self img = Ok (best, true) /\
    In best candidates /\
    (forall c, In c candidates -> (contourArea c <= contourArea best)%R) /\
    (forall c, candidates = [c] -> best = c) /\
    (length candidates <= 2)%nat.
Proof.
  intros Ha Hb Hne.
  assert (Hshape : (length candidates <= 2)%nat /\
                   forall c, In c candidates -> length c = 4%nat).
  { apply SelectFacts.corner_path_adds in Ha.
    apply SelectFacts.contour_loop_adds in Hb.
    destruct Ha as [->|(q & -> & Hq)];
      destruct Hb as [->|(c & _ & -> & Hc)]; simpl; (split; [lia|]);
      intros x Hx; simpl in Hx; intuition (subst;
        eauto using ValidFacts.is_valid_contour_length). }
  destruct Hshape as [Hlen H4].
  destruct candidates as [|c rest]; [congruence|].
  destruct (@SelectFacts.select_nonempty img c rest H4) as (best & Hsel & _ & Hin & Hmax).
  exists best. unfold get_contour. rewrite Ha. cbn [bind]. rewrite Hb. cbn [bind].
  repeat split; try assumption.
  intros c' Heq. injection Heq as -> ->. destruct Hin as [Hin|[]]. now symmetry.
Qed.

(** The square found by both paths. *)
Lemma get_contour_larger_candidate_witness :
  exists best,
    get_contour keep_order keep_polygon default_scanner twice_found = Ok (best, true) /\
    In best [square; square_contour].
Proof.
  destruct (@get_contour_larger_candidate keep_order keep_polygon default_scanner
              twice_found [square] [square; square_contour])
    as (best & Hbest & Hin & _).
  - apply (SampleFacts.corner_path_cornered [square_contour] []).
  - apply (SampleFacts.contour_path_twice_found [square]).
  - discriminate.
  - exists best. split; assumption.
Defined.

(** C9. When the candidate of the corner path and the candidate of the
    contour path have the same area, [get_contour] returns the candidate of
    the corner path: it comes first in the list and [max] keeps the first of
    the greatest elements. *)
Theorem get_contour_tie_corner_path (order_points : contour -> contour)
  (approxPolyDP : contour -> R -> bool -> contour)
  (self : DocScanner) (img : Image) (a b : contour) :
  corner_path order_points self img [] = Ok [a] ->
  contour_path approxPolyDP self img [a] = Ok [a; b] ->
  contourArea a = contourArea b ->
  get_contour order_points approxPolyDP self img = Ok (a, true).
Proof.
  intros Ha Hb Heq.
  assert (H4 : forall c, In c [a; b] -> length c = 4%nat).
  { apply SelectFacts.corner_path_adds in Ha.
    apply SelectFacts.contour_loop_adds in Hb.
    destruct Ha as [Ha|(q & Ha & Hq)]; [discriminate|].
    destruct Hb as [Hb|(c & _ & Hc & Hv)]; [discriminate|].
    injection Ha as <-. injection Hc as ->.
    intros x [<-|[<-|[]]]; eauto using ValidFacts.is_valid_contour_length. }
  destruct (@SelectFacts.select_nonempty img a [b] H4) as (best & Hsel & Hbest & _).
  unfold get_contour. rewrite Ha. cbn [bind]. rewrite Hb. cbn [bind].
  rewrite Hsel. do 2 f_equal. rewrite Hbest. simpl.
  assert (Hlt : Float.Rltb (contourArea a) (contourArea b) = false)
    by (apply FloatFacts.Rltb_false; lra).
  now rewrite Hlt.
Qed.

(** The square found by both paths: the two candidates have the same area
    and the one of the corner path is returned. *)
Lemma get_contour_tie_corner_path_witness :
  contourArea square = contourArea square_contour /\
  get_contour keep_order keep_polygon default_scanner twice_found = Ok (square, true).
Proof.
  assert (Heq : contourArea square = contourArea square_contour) by reflexivity.
  split; [exact Heq|].
  apply (@get_contour_tie_corner_path keep_order keep_polygon default_scanner
           twice_found square square_contour).
  - apply (SampleFacts.corner_path_cornered [square_contour] []).
  - apply (SampleFacts.contour_path_twice_found [square]).
  - exact Heq.
Defined.

(** C4, as the code has it. When neither path leaves a candidate,
    [get_contour] returns the four corners of the image frame, clockwise
    from the top-right one (top-right, bottom-right, bottom-left, top-left),
    and reports no contour as found. *)
Theorem get_contour_fallback (order_points : contour -> contour)
  (approxPolyDP : contour -> R -> bool -> contour)
  (self : DocScanner) (img : Image) :
  corner_path order_points self img [] = Ok [] ->
  contour_path approxPolyDP self img [] = Ok [] ->
  get_contour order_points approxPolyDP self img
  = Ok ([(IM_WIDTH img, 0); (IM_WIDTH img, IM_HEIGHT img);
         (0, IM_HEIGHT img); (0, 0)]%Z, false).
Proof.
  intros Ha Hb. unfold get_contour. rewrite Ha. cbn [bind]. rewrite Hb. reflexivity.
Qed.

(** The frame of 1000 by 1000 in which nothing was detected. *)
Lemma get_contour_fallback_witness :
  get_contour keep_order keep_polygon default_scanner blank
  = Ok ([(1000, 0); (1000, 1000); (0, 1000); (0, 0)]%Z, false).
Proof.
  apply (@get_contour_fallback keep_order keep_polygon default_scanner blank);
    reflexivity.
Defined.

(** C4, as the specification has it, fails: with no corner and no contour
    the quadrilateral returned does not start at the top-left corner of the
    frame. *)
Lemma get_contour_fallback_starts_top_right :
  corner_path keep_order default_scanner blank [] = Ok [] /\
  contour_path keep_polygon default_scanner blank [] = Ok [] /\
  get_contour keep_order keep_polygon default_scanner blank
  <> Ok ([(0, 0); (1000, 0); (1000, 1000); (0, 1000)]%Z, false).
Proof.
  repeat split; try reflexivity.
  rewrite SampleFacts.get_contour_blank. discriminate.
Qed.

(** C6, as the code has it. At a vertex that coincides with the vertex
    before or after it the angle computation raises nothing: the quotient is
    0.0 / 0.0 and [get_angle] returns NaN. For a quadrilateral with such a
    vertex [angle_range] is therefore NaN, unless the angle at another
    vertex raises the [ValueError] of [math.acos]; [is_valid_contour] never
    accepts the quadrilateral, and when it returns false the loop over the
    contours goes on with the next contour. *)
Theorem degenerate_quadrilateral_rejected
  (acos : Doubles.double -> Doubles.double)
  (approxPolyDP : contour -> R -> bool -> contour)
  (self : Doubles.DocScanner) (img : Image) (tl tr br bl : Point) :
  RangeFacts.degenerate tl tr br bl ->
  (forall p q, Doubles.get_angle acos p p q = Ok S754_nan /\
               Doubles.get_angle acos q p p = Ok S754_nan) /\
  (Doubles.angle_range acos [tl; tr; br; bl] = Ok S754_nan \/
   Doubles.angle_range acos [tl; tr; br; bl] = Raise ValueError) /\
  (Doubles.is_valid_contour acos self [tl; tr; br; bl] (IM_WIDTH img) (IM_HEIGHT img)
   = Ok false \/
   Doubles.is_valid_contour acos self [tl; tr; br; bl] (IM_WIDTH img) (IM_HEIGHT img)
   = Raise ValueError) /\
  forall c rest acc,
    approxPolyDP c 80%R true = [tl; tr; br; bl] ->
    Doubles.is_valid_contour acos self [tl; tr; br; bl] (IM_WIDTH img) (IM_HEIGHT img)
    = Ok false ->
    Doubles.contour_loop acos approxPolyDP self img (c :: rest) acc
    = Doubles.contour_loop acos approxPolyDP self img rest acc.
Proof.
  intros Hd. split; [|split; [|split]].
  - intros p q. split;
      [apply DoubleFacts.get_angle_coincident_l|apply DoubleFacts.get_angle_coincident_r].
  - now apply DoubleFacts.angle_range_degenerate.
  - now apply DoubleFacts.is_valid_contour_degenerate.
  - intros c rest acc Hc Hv. cbn [Doubles.contour_loop]. now rewrite Hc, Hv.
Qed.

(** The pinched quadrilateral, the largest contour of the cluttered frame:
    its two other angles are computed, its angle range is NaN and the loop
    goes on with the square. *)
Lemma degenerate_quadrilateral_rejected_witness :
  RangeFacts.degenerate (0, 0)%Z (0, 0)%Z (1000, 1000)%Z (0, 1000)%Z /\
  forall acos : Doubles.double -> Doubles.double,
    Doubles.is_valid_contour acos Doubles.default_scanner pinched 1000 1000 = Ok false /\
    (Doubles.angle_range acos pinched = Ok S754_nan \/
     Doubles.angle_range acos pinched = Raise ValueError) /\
    Doubles.contour_loop acos keep_polygon Doubles.default_scanner cluttered
      [pinched; square_contour; card] []
    = Doubles.contour_loop acos keep_polygon Doubles.default_scanner cluttered
        [square_contour; card] [].
Proof.
  assert (Hd : RangeFacts.degenerate (0, 0)%Z (0, 0)%Z (1000, 1000)%Z (0, 1000)%Z)
    by (left; reflexivity).
  split; [exact Hd|]. intros acos.
  pose proof (DoubleSamples.is_valid_contour_pinched acos) as Hv.
  destruct (@degenerate_quadrilateral_rejected acos keep_polygon Doubles.default_scanner
              cluttered (0, 0)%Z (0, 0)%Z (1000, 1000)%Z (0, 1000)%Z Hd)
    as (_ & H2 & _ & H4).
  split; [exact Hv|]. split; [exact H2|].
  apply (H4 pinched [square_contour; card] []); [reflexivity|exact Hv].
Defined.

(** C6, as the specification has it, fails: for a quadrilateral with a
    degenerate vertex the angle computation raises no error at all, it
    returns NaN, and there is nothing to catch. *)
Lemma degenerate_angle_raises_nothing :
  RangeFacts.degenerate (0, 0)%Z (0, 0)%Z (1000, 1000)%Z (0, 1000)%Z /\
  DoubleSamples.raises_nothing pinched.
Proof.
  split; [left; reflexivity|].
  intros acos. pose proof (DoubleSamples.angle_range_pinched acos) as Hnan.
  split; [exact Hnan|].
  intros [e He]. rewrite Hnan in He. discriminate.
Qed.



(** ** More about [filter_corners] *)

Module CornerMore.

Import Corners CornerFacts Combinations.
Open Scope R_scope.

Lemma appended_subseq (far : Point -> Point -> bool) (l acc : list Point) :
  subseq (appended far acc l) l.
Proof.
  revert acc; induction l as [|c rest IH]; intros acc; simpl; [constructor|].
  destruct (predicate far acc c); constructor; apply IH.
Qed.

Lemma filter_loop_keeps (far : Point -> Point -> bool) (l acc : list Point) (x : Point) :
  In x acc -> In x (filter_loop far acc l).
Proof.
  intros Hx. rewrite filter_loop_appended. apply in_or_app. now left.
Qed.

Lemma predicate_false (far : Point -> Point -> bool) (acc : list Point) (c : Point) :
  predicate far acc c = false -> exists r, In r acc /\ far r c = false.
Proof.
  unfold predicate. induction acc as [|r acc IH]; simpl; [discriminate|].
  destruct (far r c) eqn:Hr; simpl.
  - intros H. destruct (IH H) as (r' & Hin & Hf). exists r'. split; [now right|exact Hf].
  - intros _. exists r. split; [now left|exact Hr].
Qed.

(** A point of the input is kept, or the test fails for it against a point
    that is kept. *)
Lemma filter_loop_covers (far : Point -> Point -> bool) (l acc : list Point) (c : Point) :
  In c l ->
  In c (filter_loop far acc l) \/
  exists r, In r (filter_loop far acc l) /\ far r c = false.
Proof.
  revert acc; induction l as [|x rest IH]; intros acc Hc; [contradiction|].
  simpl. destruct Hc as [->|Hc].
  - destruct (predicate far acc c) eqn:Hp.
    + left. apply filter_loop_keeps. apply in_or_app. right. now left.
    + right. destruct (predicate_false _ _ _ Hp) as (r & Hr & Hf).
      exists r. split; [now apply filter_loop_keeps|exact Hf].
  - destruct (predicate far acc x); now apply IH.
Qed.

Lemma filter_loop_all (far : Point -> Point -> bool) (l acc : list Point) :
  (forall u v, far u v = true) -> filter_loop far acc l = acc ++ l.
Proof.
  intros Hfar. revert acc; induction l as [|c rest IH]; intros acc; simpl.
  - now rewrite app_nil_r.
  - assert (Hp : predicate far acc c = true).
    { unfold predicate. apply forallb_forall. intros r _. apply Hfar. }
    rewrite Hp, IH, <- app_assoc. reflexivity.
Qed.

Lemma filter_corners_subseq (l : list Point) (min_dist : R) :
  subseq (filter_corners l min_dist) l.
Proof.
  unfold filter_corners. rewrite filter_loop_appended. simpl. apply appended_subseq.
Qed.

Lemma euclidean_sym (u v : Point) : euclidean u v = euclidean v u.
Proof. unfold euclidean. f_equal. unfold Rsqr. ring. Qed.

Lemma euclidean_nonneg (u v : Point) : 0 <= euclidean u v.
Proof. apply sqrt_pos. Qed.

Lemma Rgeb_false (a b : R) : Rgeb a b = false <-> a < b.
Proof.
  unfold Rgeb. destruct (Rle_dec b a); split; try discriminate; auto; lra.
Qed.

End CornerMore.

(** X1. [filter_corners] invents nothing and reorders nothing: its result is
    a subsequence of its input, and the first corner of the input is always
    the first corner of the result. *)
Theorem filter_corners_subsequence (corners : list Point) (min_dist : R) :
  Combinations.subseq (Corners.filter_corners corners min_dist) corners /\
  forall c rest, corners = c :: rest ->
    exists tail, Corners.filter_corners corners min_dist = c :: tail.
Proof.
  split.
  - apply CornerMore.filter_corners_subseq.
  - intros c rest ->. unfold Corners.filter_corners. simpl.
    rewrite Corners.filter_loop_appended. simpl. eexists. reflexivity.
Qed.

(** X2. Any two corners [filter_corners] keeps are at least [min_dist]
    apart, in both directions; for a positive [min_dist] no corner is kept
    twice. *)
Theorem filter_corners_separated (corners : list Point) (min_dist : R) :
  ForallOrdPairs
    (fun p q => (min_dist <= Corners.euclidean p q)%R /\
                (min_dist <= Corners.euclidean q p)%R)
    (Corners.filter_corners corners min_dist) /\
  ((0 < min_dist)%R -> NoDup (Corners.filter_corners corners min_dist)).
Proof.
  split.
  - pose proof (@Corners.filter_loop_pairwise_far
                  (fun r c => Corners.Rgeb (Corners.euclidean r c) min_dist)
                  corners [] (FOP_nil _)) as H.
    unfold Corners.pairwise_far in H. fold (Corners.filter_corners corners min_dist) in H.
    induction H as [|p t Hp Ht IH]; constructor; [|exact IH].
    rewrite Forall_forall in Hp |- *. intros q Hq.
    specialize (Hp q Hq). simpl in Hp. apply CornerFacts.Rgeb_true in Hp.
    split; [exact Hp|]. now rewrite CornerMore.euclidean_sym.
  - intros Hd. apply CornerPathFacts.NoDup_of_ordpairs.
    now apply CornerFacts.filter_corners_distinct.
Qed.

(** X3. Every corner of the input is kept or lies closer than [min_dist] to
    a corner that is kept: the filter drops a corner only for a neighbour it
    returns. *)
Theorem filter_corners_covers (corners : list Point) (min_dist : R) (c : Point) :
  In c corners ->
  In c (Corners.filter_corners corners min_dist) \/
  exists r, In r (Corners.filter_corners corners min_dist) /\
            (Corners.euclidean r c < min_dist)%R.
Proof.
  intros Hc. unfold Corners.filter_corners.
  destruct (CornerMore.filter_loop_covers
              (fun r c => Corners.Rgeb (Corners.euclidean r c) min_dist)
              corners [] c Hc) as [Hin|(r & Hr & Hf)]; [now left|right].
  exists r. split; [exact Hr|]. now apply CornerMore.Rgeb_false.
Qed.

(** The corner (210, 205) is dropped for its neighbour (200, 200). *)
Lemma filter_corners_covers_witness :
  In (210, 205)%Z (Corners.filter_corners [(200, 200); (210, 205)]%Z 20) \/
  exists r, In r (Corners.filter_corners [(200, 200); (210, 205)]%Z 20) /\
            (Corners.euclidean r (210, 205)%Z < 20)%R.
Proof.
  apply (@filter_corners_covers [(200, 200); (210, 205)]%Z 20%R (210, 205)%Z).
  simpl. right. left. reflexivity.
Defined.

(** X4. With a [min_dist] of zero or less [filter_corners] returns its
    input unchanged. *)
Theorem filter_corners_nonpositive (corners : list Point) (min_dist : R) :
  (min_dist <= 0)%R -> Corners.filter_corners corners min_dist = corners.
Proof.
  intros Hd. unfold Corners.filter_corners.
  rewrite CornerMore.filter_loop_all; [reflexivity|].
  intros u v. apply CornerFacts.Rgeb_true.
  pose proof (CornerMore.euclidean_nonneg u v). lra.
Qed.

(** A corner given twice is kept twice when [min_dist] is zero. *)
Lemma filter_corners_nonpositive_witness :
  Corners.filter_corners [(200, 200); (200, 200)]%Z 0 = [(200, 200); (200, 200)]%Z.
Proof.
  apply (@filter_corners_nonpositive [(200, 200); (200, 200)]%Z 0%R). lra.
Defined.

(** ** More about angles *)

Module AngleMore.

Import AngleFacts FloatFacts RangeFacts.
Open Scope R_scope.

(** The range of four angles does not depend on the direction in which the
    quadrilateral is walked. *)
Lemma ptp_reverse (w x y z : float) :
  real_or_nan w -> real_or_nan x -> real_or_nan y -> real_or_nan z ->
  Float.ptp y [z; w; x] = Float.ptp w [x; y; z].
Proof.
  intros [ -> | [rw ->]]; [intros; now rewrite !ptp_nan by tauto|].
  intros [ -> | [rx ->]]; [intros; now rewrite !ptp_nan by tauto|].
  intros [ -> | [ry ->]]; [intros; now rewrite !ptp_nan by tauto|].
  intros [ -> | [rz ->]]; [now rewrite !ptp_nan by tauto|].
  rewrite !ptp_fin. f_equal.
  unfold Rmax, Rmin. repeat destruct (Rle_dec _ _); lra.
Qed.

Lemma range_of_reverse (a b c d : Point) :
  range_of d c b a = range_of a b c d.
Proof.
  unfold range_of.
  rewrite (angle_at_sym d c b), (angle_at_sym a d c), (angle_at_sym c b a),
    (angle_at_sym b a d).
  apply ptp_reverse; apply angle_at_real_or_nan.
Qed.

End AngleMore.

(** X5. In double precision [angle_between_vectors_degrees] gives the same
    result, value or error, for [u, v] and [v, u]. It raises [ValueError],
    and nothing else, exactly when the quotient it computes is a number
    outside [-1, 1], as it is for u = v = (1, 5); for a vector of two zeros
    the quotient is NaN and NaN is returned. *)
Theorem angle_between_vectors_degrees_domain
  (acos : Doubles.double -> Doubles.double) (u v : Doubles.DPoint) :
  Doubles.angle_between_vectors_degrees acos u v
  = Doubles.angle_between_vectors_degrees acos v u /\
  (DoubleFacts.zero_vector u = true \/ DoubleFacts.zero_vector v = true ->
   Doubles.angle_between_vectors_degrees acos u v = Ok S754_nan) /\
  (Doubles.angle_between_vectors_degrees acos u v = Raise ValueError <->
   DoubleFacts.is_nan (Doubles.cosine u v) = false /\
   Doubles.outside (Doubles.cosine u v) = true) /\
  (forall e, Doubles.angle_between_vectors_degrees acos u v = Raise e -> e = ValueError) /\
  Doubles.angle_between_vectors_degrees acos
    (Doubles.to_double (1, 5)%Z) (Doubles.to_double (1, 5)%Z)
  = Raise ValueError.
Proof.
  split; [apply DoubleFacts.angle_between_vectors_degrees_sym|].
  split.
  { intros [Hz|Hz]; apply DoubleFacts.angle_between_vectors_degrees_nan;
      [now apply DoubleFacts.cosine_zero_l|now apply DoubleFacts.cosine_zero_r]. }
  split.
  { apply DoubleFacts.angle_between_vectors_degrees_raises. }
  split.
  { intros e He.
    destruct (DoubleFacts.angle_between_vectors_degrees_cases acos u v) as [[a Ha]|Ha];
      congruence. }
  eapply DoubleFacts.angle_between_vectors_degrees_outside;
    [vm_compute; reflexivity|reflexivity|vm_compute; reflexivity].
Qed.

(** X6. In double precision [get_angle] gives the same result, value or
    error, when [p1] and [p3] are exchanged. It is not unchanged by a
    scaling of the three points: for (0, 0), (21, 21), (100, 100) the
    cosine is -1 and the angle is computed, for the same points scaled by 10
    the cosine is below -1 and [ValueError] is raised. *)
Theorem get_angle_exchange (acos : Doubles.double -> Doubles.double)
  (p1 p2 p3 : Point) :
  Doubles.get_angle acos p3 p2 p1 = Doubles.get_angle acos p1 p2 p3 /\
  Doubles.get_angle acos (0, 0)%Z (21, 21)%Z (100, 100)%Z
  = Ok (Doubles.degrees (acos (Doubles.of_int (-1)))) /\
  Doubles.get_angle acos (0, 0)%Z (210, 210)%Z (1000, 1000)%Z = Raise ValueError.
Proof.
  split; [apply DoubleFacts.get_angle_sym|]. split.
  - eapply DoubleFacts.get_angle_inside;
      [vm_compute; reflexivity|reflexivity|vm_compute; reflexivity].
  - apply DoubleSamples.get_angle_diagonal.
Qed.

(** X7. In double precision [angle_range] raises [ValueError] for a contour
    that has not four vertices. For four vertices it raises nothing but
    [ValueError], and raises it exactly when one of its four calls of
    [get_angle] does, as for the contour (0, 0), (210, 210), (1000, 1000),
    (0, 1000); when it returns and one of the four angles is NaN, it returns
    NaN. *)
Theorem angle_range_errors (acos : Doubles.double -> Doubles.double) (quad : contour) :
  (length quad <> 4%nat -> Doubles.angle_range acos quad = Raise ValueError) /\
  (forall e, Doubles.angle_range acos quad = Raise e -> e = ValueError) /\
  (forall tl tr br bl, quad = [tl; tr; br; bl] ->
     (Doubles.angle_range acos quad = Raise ValueError <->
      Doubles.get_angle acos tl tr br = Raise ValueError \/
      Doubles.get_angle acos bl tl tr = Raise ValueError \/
      Doubles.get_angle acos tr br bl = Raise ValueError \/
      Doubles.get_angle acos br bl tl = Raise ValueError) /\
     (forall x,
        Doubles.angle_range acos quad = Ok x ->
        Doubles.get_angle acos tl tr br = Ok S754_nan \/
        Doubles.get_angle acos bl tl tr = Ok S754_nan \/
        Doubles.get_angle acos tr br bl = Ok S754_nan \/
        Doubles.get_angle acos br bl tl = Ok S754_nan ->
        x = S754_nan)) /\
  Doubles.angle_range acos DoubleSamples.flat = Raise ValueError.
Proof.
  split; [|split; [|split; [|apply DoubleSamples.angle_range_flat]]].
  - destruct quad as [|tl [|tr [|br [|bl [|]]]]]; simpl; try reflexivity.
    intros H. now destruct H.
  - intros e He.
    destruct (DoubleFacts.angle_range_cases acos quad) as [[x Hx]|Hx]; congruence.
  - intros tl tr br bl ->. unfold Doubles.angle_range.
    destruct (DoubleFacts.get_angle_cases acos tl tr br) as [[x1 H1]|H1]; rewrite H1;
      cbn [bind]; [|split; [tauto|]; intros x Hx; discriminate].
    destruct (DoubleFacts.get_angle_cases acos bl tl tr) as [[x2 H2]|H2]; rewrite H2;
      cbn [bind]; [|split; [tauto|]; intros x Hx; discriminate].
    destruct (DoubleFacts.get_angle_cases acos tr br bl) as [[x3 H3]|H3]; rewrite H3;
      cbn [bind]; [|split; [tauto|]; intros x Hx; discriminate].
    destruct (DoubleFacts.get_angle_cases acos br bl tl) as [[x4 H4]|H4]; rewrite H4;
      cbn [bind]; [|split; [tauto|]; intros x Hx; discriminate].
    split.
    + split; [discriminate|]. intros [H|[H|[H|H]]]; discriminate.
    + intros x Hx Hnan. injection Hx as <-. apply DoubleFacts.double_ptp_nan.
      destruct Hnan as [H|[H|[H|H]]]; injection H as ->; simpl; tauto.
Qed.

(** X8. The value of [angle_range] does not depend on the vertex at which
    the quadrilateral starts nor on the direction in which its vertices are
    listed. *)
Theorem angle_range_start_and_direction (a b c d : Point) :
  angle_range [b; c; d; a] = angle_range [a; b; c; d] /\
  angle_range [d; c; b; a] = angle_range [a; b; c; d].
Proof.
  rewrite !RangeFacts.angle_range_value. split; f_equal.
  - apply Canonical.range_of_rotate.
  - apply AngleMore.range_of_reverse.
Qed.

(** X9. A rectangle whose sides are parallel to the axes has angle range
    0; its area is the product of its sides, and with the default thresholds
    [is_valid_contour] accepts it exactly when that area exceeds a quarter of
    the frame. *)
Theorem axis_parallel_rectangle_valid (x0 y0 x1 y1 W H : Z) :
  x0 <> x1 -> y0 <> y1 ->
  angle_range [(x0, y0); (x1, y0); (x1, y1); (x0, y1)] = Ok (Fin 0) /\
  contourArea2 [(x0, y0); (x1, y0); (x1, y1); (x0, y1)]
  = (2 * Z.abs ((x1 - x0) * (y1 - y0)))%Z /\
  is_valid_contour default_scanner [(x0, y0); (x1, y0); (x1, y1); (x0, y1)] W H
  = Ok (W * H <? 4 * Z.abs ((x1 - x0) * (y1 - y0)))%Z.
Proof.
  intros Hx Hy.
  assert (Hrect : ValidFacts.is_rectangle (x0, y0) (x1, y0) (x1, y1) (x0, y1) = true).
  { unfold ValidFacts.is_rectangle, ValidFacts.right_angle, ValidFacts.Point_eqb,
      ValidFacts.dotZ. cbn [fst snd].
    rewrite !Z.eqb_refl.
    destruct (Z.eqb_spec x0 x1) as [?|_]; [contradiction|].
    destruct (Z.eqb_spec x1 x0) as [?|_]; [congruence|].
    destruct (Z.eqb_spec y0 y1) as [?|_]; [contradiction|].
    destruct (Z.eqb_spec y1 y0) as [?|_]; [congruence|].
    cbn [andb negb].
    repeat match goal with
           | |- context [(?a =? 0)%Z] =>
               replace a with 0%Z by ring; rewrite Z.eqb_refl
           end.
    reflexivity. }
  assert (Ha : contourArea2 [(x0, y0); (x1, y0); (x1, y1); (x0, y1)]
               = (2 * Z.abs ((x1 - x0) * (y1 - y0)))%Z).
  { unfold contourArea2. cbn [last shoelace fst snd].
    rewrite <- (Z.abs_mul 2).
    f_equal. ring. }
  split; [|split; [exact Ha|]].
  - rewrite RangeFacts.angle_range_value. f_equal.
    now apply ValidFacts.is_rectangle_range.
  - etransitivity; [exact (ValidFacts.is_valid_rectangle _ _ _ _ W H Hrect)|].
    f_equal. f_equal.
    transitivity (2 * (2 * Z.abs ((x1 - x0) * (y1 - y0))))%Z; [f_equal; exact Ha|ring].
Qed.

(** The card, too small for the frame, and the square. *)
Lemma axis_parallel_rectangle_valid_witness :
  angle_range card = Ok (Fin 0) /\
  is_valid_contour default_scanner card 1000 1000 = Ok false.
Proof.
  destruct (@axis_parallel_rectangle_valid 100 100 400 300 1000 1000) as (H1 & _ & H3).
  - discriminate.
  - discriminate.
  - split; [exact H1|exact H3].
Defined.

(** ** More about the validity test and the selection *)

Module SelectMore.

Import AngleFacts FloatFacts RangeFacts ValidFacts SelectFacts CornerPathFacts.
Open Scope R_scope.

Lemma contourArea2_rotate (a b c d : Point) :
  contourArea2 [b; c; d; a] = contourArea2 [a; b; c; d].
Proof.
  destruct a as [ax ay], b as [bx by_], c as [cx cy], d as [dx dy].
  unfold contourArea2; simpl. f_equal. ring.
Qed.

Lemma contourArea2_reverse (a b c d : Point) :
  contourArea2 [d; c; b; a] = contourArea2 [a; b; c; d].
Proof.
  destruct a as [ax ay], b as [bx by_], c as [cx cy], d as [dx dy].
  unfold contourArea2; simpl. rewrite <- Z.abs_opp. f_equal. ring.
Qed.

(** The test depends on the contour through its length, area and angle
    range only. *)
Lemma is_valid_contour_ext (self : DocScanner) (cnt cnt' : contour) (W H : Z) :
  length cnt = length cnt' -> contourArea2 cnt = contourArea2 cnt' ->
  angle_range cnt = angle_range cnt' ->
  is_valid_contour self cnt W H = is_valid_contour self cnt' W H.
Proof.
  intros Hl Ha Hr. unfold is_valid_contour, contourArea. now rewrite Hl, Ha, Hr.
Qed.

Section Total.

Variable order_points : contour -> contour.
Variable approxPolyDP : contour -> R -> bool -> contour.
Variable self : DocScanner.

(** The candidates the two paths leave are valid. *)
Lemma candidates_valid (img : Image) (a ab : list contour) :
  corner_path order_points self img [] = Ok a ->
  contour_path approxPolyDP self img a = Ok ab ->
  forall c, In c ab ->
    is_valid_contour self c (IM_WIDTH img) (IM_HEIGHT img) = Ok true.
Proof.
  intros Ha Hb.
  apply corner_path_adds in Ha. apply contour_loop_adds in Hb.
  destruct Ha as [->|(q & -> & Hq)]; destruct Hb as [->|(c0 & _ & -> & Hc0)];
    simpl; intros c Hc; intuition (subst; auto).
Qed.

Lemma select_cases (img : Image) (ab : list contour) (q : contour) (found : bool) :
  select img ab = Ok (q, found) ->
  (ab = [] /\ q = whole_image img /\ found = false) \/
  (In q ab /\ found = true).
Proof.
  unfold select. destruct ab as [|c rest].
  - cbn. intros H. injection H as <- <-. now left.
  - cbn [Py.max_by bind length Nat.eqb negb]. unfold reshape_4_2.
    destruct (length _ =? 4)%nat; cbn [bind]; [|discriminate].
    intros H. injection H as <- <-. right. split; [|reflexivity].
    apply Py.max_from_in.
Qed.

End Total.

(** A quadrilateral the corner path adds is made of four corners of the
    filtered list. *)
Lemma corner_path_candidate (order_points : contour -> contour) (self : DocScanner)
  (img : Image) (q : contour) :
  (forall q, length q = 4%nat -> Permutation (order_points q) q) ->
  corner_path order_points self img [] = Ok [q] ->
  exists s, Combinations.subseq s (get_corners img) /\ length s = 4%nat /\
            Permutation q s.
Proof.
  intros Hperm Hq.
  destruct (Nat.lt_ge_cases (length (get_corners img)) 4) as [Hfew|Hmany].
  - rewrite (corner_path_few order_points self img [] Hfew) in Hq. discriminate.
  - destruct (@corner_path_best order_points self Hperm img [] Hmany)
      as (best & r & valid & Hin & _ & _ & _ & Hpath).
    rewrite Hpath in Hq. destruct valid; [|discriminate].
    injection Hq as ->.
    destruct (top5_largest (quadrilaterals order_points img)) as (Hp & _).
    assert (Hbest : In q (quadrilaterals order_points img)).
    { apply (Permutation_in _ Hp). apply in_or_app. now left. }
    apply quadrilaterals_in in Hbest. destruct Hbest as (s & Hsub & Hlen & ->).
    exists s. repeat split; try assumption. now apply Hperm.
Qed.

End SelectMore.

(** ** The selection in double precision *)

Module DoubleSelect.

Import Scanner Doubles DoubleFacts.

Lemma mapM_cases (A B : Type) (f : A -> result B) (l : list A) :
  (forall x, (exists y, f x = Ok y) \/ f x = Raise ValueError) ->
  (exists ys, mapM f l = Ok ys /\ length ys = length l) \/
  mapM f l = Raise ValueError.
Proof.
  intros Hf. induction l as [|x t IH]; simpl.
  - left. now exists [].
  - destruct (Hf x) as [[y Hy]|Hy]; rewrite Hy; cbn [bind]; [|now right].
    destruct IH as [(ys & Hys & Hlen)|Hr]; rewrite ?Hys, ?Hr; cbn [bind]; [|now right].
    left. exists (y :: ys). split; [reflexivity|]. simpl. now rewrite Hlen.
Qed.

Section Libm.

Variable acos : double -> double.

Lemma is_valid_contour_four (self : DocScanner) (cnt : contour) (W H : Z) :
  is_valid_contour acos self cnt W H = Ok true -> length cnt = 4%nat.
Proof.
  unfold is_valid_contour.
  destruct (Nat.eqb_spec (length cnt) 4) as [Hl|Hl]; [auto|discriminate].
Qed.

Section Selection.

Variable order_points : contour -> contour.
Variable approxPolyDP : contour -> R -> bool -> contour.
Variable self : DocScanner.

(** What a path of [get_contour] does to the list of candidates: it raises
    [ValueError], leaves the list as it is or appends one valid contour. *)
Definition extends (img : Image) (acc : list contour) (c : result (list contour)) : Prop :=
  c = Raise ValueError \/
  c = Ok acc \/
  exists q, c = Ok (acc ++ [q]) /\
            is_valid_contour acos self q (IM_WIDTH img) (IM_HEIGHT img) = Ok true.

Lemma top5_nonempty (A : Type) (key : A -> double) (l : list A) :
  l <> [] -> firstn 5 (Py.sorted_reverse ltb key l) <> [].
Proof.
  intros Hl.
  pose proof (Permutation_length (Py.sorted_reverse_perm ltb key l)) as Hlen.
  destruct (Py.sorted_reverse ltb key l); [|discriminate].
  destruct l; [contradiction|discriminate].
Qed.

Lemma corner_path_extends (img : Image) (acc : list contour) :
  extends img acc (corner_path acos order_points self img acc).
Proof.
  unfold extends, corner_path.
  destruct (Nat.leb_spec 4 (length (get_corners img))) as [Hmany|_]; [|now right; left].
  set (top5 := firstn 5 _).
  assert (Htop : top5 <> []).
  { apply top5_nonempty. intros Hnil. apply map_eq_nil in Hnil.
    now apply (@Combinations.combinations_nonempty _ (get_corners img) 4 Hmany). }
  destruct (mapM_cases (angle_range acos) top5 (angle_range_cases acos))
    as [(keys & Hkeys & Hlen)|Hr]; rewrite ?Hkeys, ?Hr; cbn [bind]; [|now left].
  assert (Hne : map snd (Py.sorted ltb fst (combine keys top5)) <> []).
  { intros Hnil. apply map_eq_nil in Hnil.
    pose proof (Permutation_length (Py.sorted_perm ltb fst (combine keys top5))) as Hp.
    rewrite Hnil, length_combine, Hlen, Nat.min_id in Hp.
    destruct top5; [contradiction|discriminate]. }
  destruct (map snd _) as [|q quads]; [contradiction|].
  destruct (is_valid_contour_cases acos self q (IM_WIDTH img) (IM_HEIGHT img))
    as [[[|] Hq]|Hq]; rewrite Hq; cbn [bind].
  - right; right. now exists q.
  - now right; left.
  - now left.
Qed.

Lemma contour_loop_extends (img : Image) (cnts acc : list contour) :
  extends img acc (contour_loop acos approxPolyDP self img cnts acc).
Proof.
  unfold extends. induction cnts as [|c rest IH]; cbn [contour_loop]; [now right; left|].
  destruct (is_valid_contour_cases acos self (approxPolyDP c 80%R true)
              (IM_WIDTH img) (IM_HEIGHT img)) as [[[|] Hq]|Hq]; rewrite Hq; cbn [bind].
  - right; right. eexists. split; [reflexivity|exact Hq].
  - exact IH.
  - now left.
Qed.

Lemma select_valid (img : Image) (ab : list contour) :
  (forall c, In c ab ->
             is_valid_contour acos self c (IM_WIDTH img) (IM_HEIGHT img) = Ok true) ->
  exists screenCnt found,
    select img ab = Ok (screenCnt, found) /\ length screenCnt = 4%nat /\
    (found = false /\ ab = [] /\ screenCnt = whole_image img \/
     found = true /\ In screenCnt ab).
Proof.
  intros Hvalid. destruct ab as [|c rest].
  - exists (whole_image img), false. repeat split. now left.
  - pose proof (Py.max_from_in ltb contourArea rest c) as Hin.
    assert (Hlen : length (Py.max_from ltb contourArea c rest) = 4%nat)
      by (eapply is_valid_contour_four; apply Hvalid, Hin).
    exists (Py.max_from ltb contourArea c rest), true.
    split; [|split; [exact Hlen|right; now split]].
    unfold select. cbn [Py.max_by bind length Nat.eqb negb].
    unfold reshape_4_2. now rewrite Hlen.
Qed.

End Selection.

End Libm.

End DoubleSelect.

(** X10. [is_valid_contour] gives the same answer for the four vertices of a
    quadrilateral whatever the vertex the list starts at and whatever the
    direction in which it goes round. *)
Theorem is_valid_contour_start_and_direction (self : DocScanner)
  (a b c d : Point) (W H : Z) :
  is_valid_contour self [b; c; d; a] W H = is_valid_contour self [a; b; c; d] W H /\
  is_valid_contour self [d; c; b; a] W H = is_valid_contour self [a; b; c; d] W H.
Proof.
  split; apply SelectMore.is_valid_contour_ext; try reflexivity.
  - apply SelectMore.contourArea2_rotate.
  - rewrite !RangeFacts.angle_range_value. f_equal. apply Canonical.range_of_rotate.
  - apply SelectMore.contourArea2_reverse.
  - rewrite !RangeFacts.angle_range_value. f_equal. apply AngleMore.range_of_reverse.
Qed.

(** X11. Relaxing the thresholds never rejects a contour that was accepted:
    a contour valid for a scanner is valid for every scanner with a smaller
    or equal [MIN_QUAD_AREA_RATIO] and a greater or equal
    [MAX_QUAD_ANGLE_RANGE], the frame having a non-negative area. *)
Theorem is_valid_contour_relaxed (strict relaxed : DocScanner) (cnt : contour)
  (W H : Z) :
  (0 <= W * H)%Z ->
  (MIN_QUAD_AREA_RATIO relaxed <= MIN_QUAD_AREA_RATIO strict)%R ->
  (MAX_QUAD_ANGLE_RANGE strict <= MAX_QUAD_ANGLE_RANGE relaxed)%R ->
  is_valid_contour strict cnt W H = Ok true ->
  is_valid_contour relaxed cnt W H = Ok true.
Proof.
  intros Hwh Hmin Hmax Hv.
  apply ValidFacts.is_valid_contour_true in Hv.
  destruct Hv as (Hlen & Harea & r & Hr & Hlt).
  apply ValidFacts.is_valid_contour_true. repeat split; [exact Hlen| |].
  - apply IZR_le in Hwh.
    apply Rle_lt_trans with (IZR (W * H) * MIN_QUAD_AREA_RATIO strict)%R;
      [|exact Harea].
    apply Rmult_le_compat_l; assumption.
  - exists r. split; [exact Hr|lra].
Qed.

(** The square stays valid for a ratio of 0.1 and a range of 60. *)
Lemma is_valid_contour_relaxed_witness :
  is_valid_contour {| MIN_QUAD_AREA_RATIO := 1 / 10; MAX_QUAD_ANGLE_RANGE := 60 |}
    square 1000 1000 = Ok true.
Proof.
  apply (@is_valid_contour_relaxed default_scanner
           {| MIN_QUAD_AREA_RATIO := 1 / 10; MAX_QUAD_ANGLE_RANGE := 60 |}
           square 1000%Z 1000%Z).
  - discriminate.
  - simpl. lra.
  - simpl. lra.
  - apply SampleFacts.square_valid.
Defined.

(** X12. In double precision [get_contour] raises nothing but the
    [ValueError] of the angle computation: the list that [sorted] orders
    by angle range is never empty, so that taking its first element raises
    no [IndexError], and the contour chosen has four vertices, so that the
    reshaping succeeds. What it returns is a valid candidate with the flag
    set, or the quadrilateral of the whole image with the flag unset. *)
Theorem get_contour_raises_value_error_only
  (acos : Doubles.double -> Doubles.double) (order_points : contour -> contour)
  (approxPolyDP : contour -> R -> bool -> contour)
  (self : Doubles.DocScanner) (img : Image) :
  Doubles.get_contour acos order_points approxPolyDP self img = Raise ValueError \/
  exists screenCnt found,
    Doubles.get_contour acos order_points approxPolyDP self img = Ok (screenCnt, found) /\
    length screenCnt = 4%nat /\
    (found = false /\ screenCnt = whole_image img \/
     found = true /\
     Doubles.is_valid_contour acos self screenCnt (IM_WIDTH img) (IM_HEIGHT img) = Ok true).
Proof.
  unfold Doubles.get_contour.
  destruct (DoubleSelect.corner_path_extends acos order_points self img [])
    as [Ha|Ha]; [rewrite Ha; now left|].
  assert (exists a, Doubles.corner_path acos order_points self img [] = Ok a /\
                    forall c, In c a ->
                      Doubles.is_valid_contour acos self c (IM_WIDTH img) (IM_HEIGHT img)
                      = Ok true) as (a & Hpath & Hvalid).
  { destruct Ha as [Ha|(q & Ha & Hq)]; rewrite Ha; eexists; (split; [reflexivity|]).
    - intros c [].
    - intros c [<-|[]]. exact Hq. }
  rewrite Hpath. cbn [bind]. unfold Doubles.contour_path.
  set (top5 := firstn 5 _).
  destruct (DoubleSelect.contour_loop_extends acos approxPolyDP self img top5 a)
    as [Hb|Hb]; [rewrite Hb; now left|].
  assert (exists ab, Doubles.contour_loop acos approxPolyDP self img top5 a = Ok ab /\
                     forall c, In c ab ->
                       Doubles.is_valid_contour acos self c (IM_WIDTH img) (IM_HEIGHT img)
                       = Ok true) as (ab & Hloop & Hvalid').
  { destruct Hb as [Hb|(q & Hb & Hq)]; rewrite Hb; eexists; (split; [reflexivity|]).
    - exact Hvalid.
    - intros c Hc. apply in_app_or in Hc. destruct Hc as [Hc|[<-|[]]]; auto. }
  rewrite Hloop. cbn [bind].
  destruct (DoubleSelect.select_valid acos self img ab Hvalid')
    as (screenCnt & found & Hsel & Hlen & Hcase).
  right. exists screenCnt, found. split; [exact Hsel|]. split; [exact Hlen|].
  destruct Hcase as [(Hf & _ & Hw)|(Hf & Hin)]; [left|right]; split; auto.
Qed.

(** X13. The flag [get_contour] returns tells what the quadrilateral is:
    with the flag set it is a contour that [is_valid_contour] accepts, so
    that its area and angle range are within the thresholds; with the flag
    unset it is the quadrilateral of the whole image. *)
Theorem get_contour_flag_sound (order_points : contour -> contour)
  (approxPolyDP : contour -> R -> bool -> contour)
  (self : DocScanner) (img : Image) (screenCnt : contour) (found : bool) :
  get_contour order_points approxPolyDP self img = Ok (screenCnt, found) ->
  (found = true ->
   is_valid_contour self screenCnt (IM_WIDTH img) (IM_HEIGHT img) = Ok true) /\
  (found = false -> screenCnt = whole_image img).
Proof.
  unfold get_contour.
  destruct (corner_path order_points self img []) as [a|e] eqn:Ha; [|discriminate].
  cbn [bind].
  destruct (contour_path approxPolyDP self img a) as [ab|e] eqn:Hb; [|discriminate].
  cbn [bind]. intros Hsel.
  apply SelectMore.select_cases in Hsel.
  destruct Hsel as [(_ & -> & ->)|(Hin & ->)]; split; try discriminate; auto.
  intros _.
  now apply (@SelectMore.candidates_valid order_points approxPolyDP self img a ab Ha Hb).
Qed.

(** The square found from its corners. *)
Lemma get_contour_flag_sound_witness :
  is_valid_contour default_scanner square 1000 1000 = Ok true.
Proof.
  apply (@get_contour_flag_sound keep_order keep_polygon default_scanner cornered
           square true SampleFacts.get_contour_cornered).
  reflexivity.
Defined.

(** X14. For an [order_points] that returns the four points it is given, the
    quadrilateral the corner path adds has four distinct vertices, all of
    them corners that were detected in the image, and any two of them at
    least 20 apart. *)
Theorem corner_path_vertices (order_points : contour -> contour)
  (self : DocScanner) (img : Image) (q : contour) :
  (forall q, length q = 4%nat -> Permutation (order_points q) q) ->
  corner_path order_points self img [] = Ok [q] ->
  length q = 4%nat /\ NoDup q /\
  (forall p, In p q -> In p (corners img)) /\
  (forall p p', In p q -> In p' q -> p <> p' -> (20 <= Corners.euclidean p p')%R).
Proof.
  intros Hperm Hq.
  destruct (@SelectMore.corner_path_candidate order_points self img q Hperm Hq)
    as (s & Hsub & Hlen & Hp).
  assert (Hpos : (0 < Corners.default_min_dist)%R)
    by (unfold Corners.default_min_dist; lra).
  pose proof (@CornerFacts.filter_corners_distinct (corners img)
                Corners.default_min_dist Hpos) as Hdist.
  fold (get_corners img) in Hdist.
  repeat split.
  - now rewrite (Permutation_length Hp).
  - apply (Permutation_NoDup (Permutation_sym Hp)).
    apply CornerPathFacts.NoDup_of_ordpairs.
    now apply (Combinations.subseq_ordpairs Hsub).
  - intros p Hin. apply (Permutation_in _ Hp) in Hin.
    apply (Combinations.subseq_in Hsub) in Hin.
    apply (Combinations.subseq_in
             (CornerMore.filter_corners_subseq (corners img)
                Corners.default_min_dist)) in Hin.
    exact Hin.
  - intros p p' Hin Hin' Hne.
    apply (Permutation_in _ Hp) in Hin, Hin'.
    apply (Combinations.subseq_in Hsub) in Hin, Hin'.
    pose proof (@Corners.filter_loop_pairwise_far
                  (fun r c => Corners.Rgeb (Corners.euclidean r c) Corners.default_min_dist)
                  (corners img) [] (FOP_nil _)) as Hfar.
    unfold Corners.pairwise_far in Hfar.
    destruct (ForallOrdPairs_In Hfar _ _ Hin Hin') as [Heq|[H|H]];
      [contradiction| |]; simpl in H; apply CornerFacts.Rgeb_true in H;
      unfold Corners.default_min_dist in H; [exact H|].
    now rewrite CornerMore.euclidean_sym.
Qed.

(** The square found from its four corners. *)
Lemma corner_path_vertices_witness :
  length square = 4%nat /\ NoDup square /\
  (forall p, In p square -> In p (corners cornered)) /\
  (forall p p', In p square -> In p' square -> p <> p' ->
                (20 <= Corners.euclidean p p')%R).
Proof.
  apply (@corner_path_vertices keep_order default_scanner cornered square).
  - intros q _. reflexivity.
  - apply (SampleFacts.corner_path_cornered [] []).
Defined.

(** X15. The quadrilateral of the whole image, which [get_contour] returns
    when it found nothing, is itself a contour that [is_valid_contour]
    accepts with the default thresholds, for every frame of positive width
    and height: only the flag tells it from a contour that was found. *)
Theorem whole_image_valid (img : Image) :
  (0 < IM_WIDTH img)%Z -> (0 < IM_HEIGHT img)%Z ->
  angle_range (whole_image img) = Ok (Fin 0) /\
  is_valid_contour default_scanner (whole_image img) (IM_WIDTH img) (IM_HEIGHT img)
  = Ok true.
Proof.
  intros HW HH. unfold whole_image. cbv zeta.
  set (W := IM_WIDTH img) in *. set (H := IM_HEIGHT img) in *.
  assert (Hrect : ValidFacts.is_rectangle (W, 0%Z) (W, H) (0%Z, H) (0%Z, 0%Z) = true).
  { assert (Hright : forall p1 p2 p3 : Point,
              p1 <> p2 -> p3 <> p2 -> ValidFacts.dotZ p1 p2 p3 = 0%Z ->
              ValidFacts.right_angle p1 p2 p3 = true).
    { intros p1 p2 p3 H1 H3 Hd. unfold ValidFacts.right_angle, ValidFacts.Point_eqb.
      rewrite Hd.
      assert (E : forall p q : Point, p <> q ->
                    ((fst p =? fst q) && (snd p =? snd q))%Z = false).
      { intros [px py] [qx qy] Hne. simpl.
        destruct (Z.eqb_spec px qx), (Z.eqb_spec py qy); try reflexivity.
        subst. now destruct Hne. }
      now rewrite (E _ _ H1), (E _ _ H3). }
    unfold ValidFacts.is_rectangle.
    rewrite !Hright; try reflexivity;
      try (intros Heq; injection Heq; intros; lia);
      unfold ValidFacts.dotZ; cbn [fst snd]; ring. }
  split.
  - rewrite RangeFacts.angle_range_value. f_equal.
    now apply ValidFacts.is_rectangle_range.
  - rewrite (ValidFacts.is_valid_rectangle _ _ _ _ W H Hrect). f_equal.
    apply Z.ltb_lt. unfold contourArea2. cbn [shoelace last fst snd].
    assert (Hwh : (0 < W * H)%Z) by (apply Z.mul_pos_pos; assumption).
    replace (0 * 0 - 0 * W + (W * H - 0 * W + (W * H - H * 0 + (0 * 0 - H * 0 + 0))))%Z
      with (2 * (W * H))%Z by ring.
    rewrite Z.abs_eq; lia.
Qed.

(** The frame of 1000 by 1000 in which nothing was detected. *)
Lemma whole_image_valid_witness :
  is_valid_contour default_scanner (whole_image blank) 1000 1000 = Ok true.
Proof.
  apply (@whole_image_valid blank); reflexivity.
Defined.

(** ** The lines of [get_corners] *)

Module Lines.

Open Scope Z_scope.

(** A row of the detector's output, [(x1, y1, x2, y2, width)], after
    [astype(np.int32)]. *)
Definition Line : Type := (Z * Z * Z * Z * Z)%type.

(** [lines.squeeze().astype(np.int32).tolist()] for an array of [n] rows of
    five entries: [squeeze] drops every axis of length one, so that a single
    row becomes a flat list of five numbers. *)
Inductive pylist : Type :=
| Rows (lines : list Line)
| Flat (numbers : list Z).

Definition squeeze_tolist (lines : list Line) : pylist :=
  match lines with
  | [(x1, y1, x2, y2, width)] => Flat [x1; y1; x2; y2; width]
  | _ => Rows lines
  end.

Inductive canvas : Type := horizontal_lines_canvas | vertical_lines_canvas.

(** A call [cv2.line(canvas, pt1, pt2, 255, 2)]. *)
Definition stroke : Type := (canvas * Point * Point)%type.

(** [sorted((a, b), key=key)] of two points. *)
Definition sorted_pair (key : Point -> Z) (a b : Point) : Point * Point :=
  match Py.sorted Z.ltb key [a; b] with
  | [p; q] => (p, q)
  | _ => (a, b)
  end.

(** The body of the loop [for line in lines]: the line is drawn on the
    canvas of its orientation, from the end that comes first along that
    orientation, 5 longer at both ends but not beyond the image. [shape] is
    [img.shape], its height and width. *)
Definition draw_line (shape : Z * Z) (line : Line) : stroke :=
  let '(x1, y1, x2, y2, _) := line in
  if Z.abs (y2 - y1) <? Z.abs (x2 - x1) then
    let '((x1, y1), (x2, y2)) := sorted_pair fst (x1, y1) (x2, y2) in
    (horizontal_lines_canvas,
     (Z.max (x1 - 5) 0, y1), (Z.min (x2 + 5) (snd shape - 1), y2))
  else
    let '((x1, y1), (x2, y2)) := sorted_pair snd (x1, y1) (x2, y2) in
    (vertical_lines_canvas,
     (x1, Z.max (y1 - 5) 0), (x2, Z.min (y2 + 5) (fst shape - 1))).

(** The outcome of the loop: the lines drawn, or the [TypeError] of
    [x1, y1, x2, y2, _ = line] for a [line] that is a number. *)
Inductive drawn : Type :=
| Strokes (strokes : list stroke)
| TypeError.

Definition draw_lines (shape : Z * Z) (lines : list Line) : drawn :=
  match squeeze_tolist lines with
  | Rows rows => Strokes (map (draw_line shape) rows)
  | Flat [] => Strokes []
  | Flat (_ :: _) => TypeError
  end.

(** [np.amin] and [np.amax], which raise [ValueError] for an empty array. *)
Definition amin (values : list Z) : result Z :=
  match values with
  | [] => Raise ValueError
  | x :: rest => Ok (fold_left Z.min rest x)
  end.

Definition amax (values : list Z) : result Z :=
  match values with
  | [] => Raise ValueError
  | x :: rest => Ok (fold_left Z.max rest x)
  end.

(** [int(np.average(values))]: the mean of an empty array is NaN, which
    [int] refuses with [ValueError]; [int] rounds towards zero. *)
Definition int_average (values : list Z) : result Z :=
  match values with
  | [] => Raise ValueError
  | _ => Ok (Z.quot (fold_left Z.add values 0) (Z.of_nat (length values)))
  end.

(** [contour[contour[:, 0] == x][:, 1]] and [contour[contour[:, 1] == y][:, 0]]. *)
Definition column (cnt : contour) (x : Z) : list Z :=
  map snd (filter (fun p => fst p =? x) cnt).

Definition row (cnt : contour) (y : Z) : list Z :=
  map fst (filter (fun p => snd p =? y) cnt).

(** The line [(min_x, left_y, max_x, right_y)] of a horizontal component. *)
Definition horizontal_line (cnt : contour) : result (Z * Z * Z * Z) :=
  lo <- amin (map fst cnt) ;;
  let min_x := lo + 2 in
  hi <- amax (map fst cnt) ;;
  let max_x := hi - 2 in
  left_y <- int_average (column cnt min_x) ;;
  right_y <- int_average (column cnt max_x) ;;
  Ok (min_x, left_y, max_x, right_y).

(** The line [(top_x, min_y, bottom_x, max_y)] of a vertical component. *)
Definition vertical_line (cnt : contour) : result (Z * Z * Z * Z) :=
  lo <- amin (map snd cnt) ;;
  let min_y := lo + 2 in
  hi <- amax (map snd cnt) ;;
  let max_y := hi - 2 in
  top_x <- int_average (row cnt min_y) ;;
  bottom_x <- int_average (row cnt max_y) ;;
  Ok (top_x, min_y, bottom_x, max_y).

(** The two ends of a line, each a corner. *)
Definition ends (line : Z * Z * Z * Z) : list Point :=
  let '(xa, ya, xb, yb) := line in [(xa, ya); (xb, yb)].

Section Components.

(** [cv2.arcLength(c, True)]. *)
Variable arcLength : contour -> R.

(** The loops [for contour in contours], with [lines] and [corners] as
    their state. *)
Fixpoint line_loop (reduce : contour -> result (Z * Z * Z * Z))
  (contours : list contour) (lines : list (Z * Z * Z * Z)) (corners : list Point)
  : result (list (Z * Z * Z * Z) * list Point) :=
  match contours with
  | [] => Ok (lines, corners)
  | cnt :: rest =>
      line <- reduce cnt ;;
      line_loop reduce rest (lines ++ [line]) (corners ++ ends line)
  end.

(** [sorted(contours, key=lambda c: cv2.arcLength(c, True), reverse=True)[:2]]. *)
Definition longest (contours : list contour) : list contour :=
  firstn 2 (Py.sorted_reverse Float.Rltb arcLength contours).

(** The lines and corners [get_corners] has before it looks for the
    crossings, from the components of the two canvases. *)
Definition line_corners (horizontal vertical : list contour)
  : result (list (Z * Z * Z * Z) * list Point) :=
  state <- line_loop horizontal_line (longest horizontal) [] [] ;;
  line_loop vertical_line (longest vertical) (fst state) (snd state).

End Components.

End Lines.

Module LineFacts.

Import Lines.
Open Scope Z_scope.

Lemma sorted_pair_eq (key : Point -> Z) (a b : Point) :
  sorted_pair key a b = if key b <? key a then (b, a) else (a, b).
Proof.
  unfold sorted_pair, Py.sorted. simpl. now destruct (key b <? key a).
Qed.

(** A point of the image. *)
Definition in_frame (shape : Z * Z) (p : Point) : Prop :=
  0 <= fst p < snd shape /\ 0 <= snd p < fst shape.

Lemma fold_min_spec (l : list Z) (x : Z) :
  In (fold_left Z.min l x) (x :: l) /\
  forall v, In v (x :: l) -> fold_left Z.min l x <= v.
Proof.
  revert x; induction l as [|y t IH]; intros x; simpl.
  - split; [now left|]. intros v [<-|[]]. lia.
  - destruct (IH (Z.min x y)) as [Hin Hle]. split.
    + destruct Hin as [Hin|Hin]; [|now right; right].
      rewrite <- Hin. destruct (Z.min_spec x y) as [[_ ->]|[_ ->]]; auto.
    + intros v Hv. assert (Hm : fold_left Z.min t (Z.min x y) <= Z.min x y)
        by (apply Hle; now left).
      destruct Hv as [<-|[<-|Hv]]; [lia|lia|]. apply Hle. now right.
Qed.

Lemma fold_max_spec (l : list Z) (x : Z) :
  In (fold_left Z.max l x) (x :: l) /\
  forall v, In v (x :: l) -> v <= fold_left Z.max l x.
Proof.
  revert x; induction l as [|y t IH]; intros x; simpl.
  - split; [now left|]. intros v [<-|[]]. lia.
  - destruct (IH (Z.max x y)) as [Hin Hle]. split.
    + destruct Hin as [Hin|Hin]; [|now right; right].
      rewrite <- Hin. destruct (Z.max_spec x y) as [[_ ->]|[_ ->]]; auto.
    + intros v Hv. assert (Hm : Z.max x y <= fold_left Z.max t (Z.max x y))
        by (apply Hle; now left).
      destruct Hv as [<-|[<-|Hv]]; [lia|lia|]. apply Hle. now right.
Qed.

Lemma amin_spec (l : list Z) (m : Z) :
  amin l = Ok m -> In m l /\ forall v, In v l -> m <= v.
Proof.
  destruct l as [|x t]; [discriminate|]. simpl. intros H. injection H as <-.
  apply fold_min_spec.
Qed.

Lemma amax_spec (l : list Z) (m : Z) :
  amax l = Ok m -> In m l /\ forall v, In v l -> v <= m.
Proof.
  destruct l as [|x t]; [discriminate|]. simpl. intros H. injection H as <-.
  apply fold_max_spec.
Qed.

Lemma fold_add_acc (l : list Z) (a : Z) :
  fold_left Z.add l a = a + fold_left Z.add l 0.
Proof.
  revert a; induction l as [|x t IH]; intros a; cbn [fold_left]; [lia|].
  rewrite (IH (a + x)), (IH (0 + x)). lia.
Qed.

Lemma sum_bounds (l : list Z) (lo hi : Z) :
  (forall v, In v l -> lo <= v <= hi) ->
  lo * Z.of_nat (length l) <= fold_left Z.add l 0 <= hi * Z.of_nat (length l).
Proof.
  induction l as [|x t IH]; intros H; [simpl; lia|].
  cbn [fold_left length]. rewrite fold_add_acc, Nat2Z.inj_succ.
  assert (Hx : lo <= x <= hi) by (apply H; now left).
  assert (Ht : forall v, In v t -> lo <= v <= hi) by (intros v Hv; apply H; now right).
  specialize (IH Ht). nia.
Qed.

(** The rounded mean of a non-empty list lies between two of its values. *)
Lemma int_average_between (l : list Z) (m : Z) :
  int_average l = Ok m ->
  exists a b, In a l /\ In b l /\ a <= m <= b.
Proof.
  destruct l as [|x t]; [discriminate|].
  unfold int_average. intros H.
  assert (Hm : m = Z.quot (fold_left Z.add (x :: t) 0) (Z.of_nat (length (x :: t))))
    by congruence.
  clear H. rewrite Hm. clear Hm.
  destruct (fold_min_spec t x) as [Hina Hlo].
  destruct (fold_max_spec t x) as [Hinb Hhi].
  set (lo := fold_left Z.min t x) in *. set (hi := fold_left Z.max t x) in *.
  exists lo, hi. repeat split; try assumption.
  - set (n := Z.of_nat (length (x :: t))).
    assert (Hn : 0 < n) by (unfold n; simpl length; lia).
    assert (Hs := @sum_bounds (x :: t) lo hi
                    (fun v Hv => conj (Hlo v Hv) (Hhi v Hv))).
    fold n in Hs. rewrite <- (Z.quot_mul lo n) by lia.
    apply Z.quot_le_mono; lia.
  - set (n := Z.of_nat (length (x :: t))).
    assert (Hn : 0 < n) by (unfold n; simpl length; lia).
    assert (Hs := @sum_bounds (x :: t) lo hi
                    (fun v Hv => conj (Hlo v Hv) (Hhi v Hv))).
    fold n in Hs. rewrite <- (Z.quot_mul hi n) by lia.
    apply Z.quot_le_mono; lia.
Qed.

Lemma column_in (cnt : contour) (x y : Z) :
  In y (column cnt x) <-> In (x, y) cnt.
Proof.
  unfold column. rewrite in_map_iff. split.
  - intros ([px py] & <- & Hp). apply filter_In in Hp. simpl in Hp.
    destruct Hp as [Hp Hx]. apply Z.eqb_eq in Hx. now subst.
  - intros Hp. exists (x, y). split; [reflexivity|].
    apply filter_In. split; [exact Hp|]. simpl. apply Z.eqb_refl.
Qed.

Definition transpose (p : Point) : Point := (snd p, fst p).

Lemma row_transpose (cnt : contour) (y : Z) :
  column (map transpose cnt) y = row cnt y.
Proof.
  unfold column, row. induction cnt as [|[px py] t IH]; simpl; [reflexivity|].
  destruct (py =? y); simpl; now rewrite IH.
Qed.

Lemma line_loop_adds (reduce : contour -> result (Z * Z * Z * Z))
  (contours : list contour) (lines lines' : list (Z * Z * Z * Z))
  (corners corners' : list Point) :
  line_loop reduce contours lines corners = Ok (lines', corners') ->
  exists new, lines' = lines ++ new /\ corners' = corners ++ flat_map ends new /\
              length new = length contours /\
              Forall2 (fun cnt line => reduce cnt = Ok line) contours new.
Proof.
  revert lines corners; induction contours as [|cnt rest IH]; intros lines corners; simpl.
  - intros H. injection H as <- <-. exists []. simpl. rewrite !app_nil_r.
    repeat split. constructor.
  - destruct (reduce cnt) as [line|e] eqn:Hline; [|discriminate]. simpl.
    intros H. apply IH in H. destruct H as (new & -> & -> & Hlen & Hall).
    exists (line :: new). repeat split.
    + now rewrite <- app_assoc.
    + simpl. now rewrite <- app_assoc.
    + simpl. now rewrite Hlen.
    + now constructor.
Qed.

Lemma longest_length (arcLength : contour -> R) (contours : list contour) :
  (length (longest arcLength contours) <= 2)%nat.
Proof. unfold longest. rewrite length_firstn. lia. Qed.

End LineFacts.

(** X16. The loop of [get_corners] over the detected lines fails on a single
    line: [squeeze] turns the one row into a flat list of numbers, and
    unpacking a number raises [TypeError]. With no line or with two lines
    and more, every line is drawn and nothing is raised. *)
Theorem draw_lines_single_line (shape : Z * Z) (lines : list Lines.Line) :
  (length lines = 1%nat -> Lines.draw_lines shape lines = Lines.TypeError) /\
  (length lines <> 1%nat ->
   Lines.draw_lines shape lines = Lines.Strokes (map (Lines.draw_line shape) lines)).
Proof.
  destruct lines as [|[[[[x1 y1] x2] y2] w] [|l2 rest]]; split; intros H;
    try reflexivity; try discriminate; now destruct H.
Qed.

(** X17. The segment drawn for a line does not depend on the direction in
    which the detector gives the line, nor on its width. *)
Theorem draw_line_direction (shape : Z * Z) (x1 y1 x2 y2 w w' : Z) :
  Lines.draw_line shape (x1, y1, x2, y2, w) = Lines.draw_line shape (x2, y2, x1, y1, w').
Proof.
  unfold Lines.draw_line.
  replace (Z.abs (y1 - y2)) with (Z.abs (y2 - y1)) by lia.
  replace (Z.abs (x1 - x2)) with (Z.abs (x2 - x1)) by lia.
  rewrite !LineFacts.sorted_pair_eq. cbn [fst snd].
  destruct (Z.ltb_spec (Z.abs (y2 - y1)) (Z.abs (x2 - x1))) as [Hh|Hv].
  - destruct (Z.ltb_spec x2 x1), (Z.ltb_spec x1 x2); try reflexivity; lia.
  - destruct (Z.ltb_spec y2 y1), (Z.ltb_spec y1 y2); try reflexivity; try lia.
    assert (y1 = y2) by lia. assert (x1 = x2) by lia. now subst.
Qed.

(** X18. For a line with both ends in the image, the segment drawn stays in
    the image, covers the line along its orientation and is at most 5 longer
    at each end; a line is horizontal when it is wider than high, and
    vertical otherwise. *)
Theorem draw_line_in_frame (shape : Z * Z) (x1 y1 x2 y2 w : Z) :
  LineFacts.in_frame shape (x1, y1) -> LineFacts.in_frame shape (x2, y2) ->
  exists cv pt1 pt2,
    Lines.draw_line shape (x1, y1, x2, y2, w) = (cv, pt1, pt2) /\
    LineFacts.in_frame shape pt1 /\ LineFacts.in_frame shape pt2 /\
    match cv with
    | Lines.horizontal_lines_canvas =>
        (Z.abs (y2 - y1) < Z.abs (x2 - x1) /\
         Z.min x1 x2 - 5 <= fst pt1 <= Z.min x1 x2 /\
         Z.max x1 x2 <= fst pt2 <= Z.max x1 x2 + 5)%Z
    | Lines.vertical_lines_canvas =>
        (Z.abs (x2 - x1) <= Z.abs (y2 - y1) /\
         Z.min y1 y2 - 5 <= snd pt1 <= Z.min y1 y2 /\
         Z.max y1 y2 <= snd pt2 <= Z.max y1 y2 + 5)%Z
    end.
Proof.
  unfold LineFacts.in_frame. cbn [fst snd]. intros H1 H2.
  unfold Lines.draw_line. rewrite !LineFacts.sorted_pair_eq. cbn [fst snd].
  destruct (Z.ltb_spec (Z.abs (y2 - y1)) (Z.abs (x2 - x1))) as [Hh|Hv].
  - destruct (Z.ltb_spec x2 x1); do 3 eexists; (split; [reflexivity|]);
      cbn [fst snd]; lia.
  - destruct (Z.ltb_spec y2 y1); do 3 eexists; (split; [reflexivity|]);
      cbn [fst snd]; lia.
Qed.

(** A line from (300, 120) back to (40, 100) in an image of 500 by 375. *)
Lemma draw_line_in_frame_witness :
  exists cv pt1 pt2,
    Lines.draw_line (500, 375)%Z (300, 120, 40, 100, 3)%Z = (cv, pt1, pt2) /\
    LineFacts.in_frame (500, 375)%Z pt1 /\ LineFacts.in_frame (500, 375)%Z pt2.
Proof.
  destruct (@draw_line_in_frame (500, 375)%Z 300%Z 120%Z 40%Z 100%Z 3%Z)
    as (cv & pt1 & pt2 & H1 & H2 & H3 & _).
  - unfold LineFacts.in_frame; simpl; lia.
  - unfold LineFacts.in_frame; simpl; lia.
  - exists cv, pt1, pt2. split; [exact H1|split; [exact H2|exact H3]].
Defined.

(** X19. When the reduction of a horizontal component succeeds, its line
    runs from the column 2 right of the leftmost point of the component to
    the column 2 left of its rightmost point, and each end lies on its
    column between two points of the component: both corners are inside the
    bounding box of the component. *)
Theorem horizontal_line_within (cnt : contour) (min_x left_y max_x right_y : Z) :
  Lines.horizontal_line cnt = Ok (min_x, left_y, max_x, right_y) ->
  (forall p, In p cnt -> (min_x - 2 <= fst p <= max_x + 2)%Z) /\
  (exists p, In p cnt /\ fst p = (min_x - 2)%Z) /\
  (exists p, In p cnt /\ fst p = (max_x + 2)%Z) /\
  (exists ya yb, In (min_x, ya) cnt /\ In (min_x, yb) cnt /\ (ya <= left_y <= yb)%Z) /\
  (exists ya yb, In (max_x, ya) cnt /\ In (max_x, yb) cnt /\ (ya <= right_y <= yb)%Z).
Proof.
  unfold Lines.horizontal_line.
  destruct (Lines.amin (map fst cnt)) as [lo|e] eqn:Hlo; [|discriminate]. cbn [bind].
  destruct (Lines.amax (map fst cnt)) as [hi|e] eqn:Hhi; [|discriminate]. cbn [bind].
  destruct (Lines.int_average (Lines.column cnt (lo + 2))) as [ly|e] eqn:Hl;
    [|discriminate]. cbn [bind].
  destruct (Lines.int_average (Lines.column cnt (hi - 2))) as [ry|e] eqn:Hr;
    [|discriminate]. cbn [bind].
  intros H. injection H as <- <- <- <-.
  apply LineFacts.amin_spec in Hlo. apply LineFacts.amax_spec in Hhi.
  destruct Hlo as [Hlo_in Hlo]. destruct Hhi as [Hhi_in Hhi].
  apply LineFacts.int_average_between in Hl, Hr.
  destruct Hl as (ya & yb & Hya & Hyb & Hly). destruct Hr as (yc & yd & Hyc & Hyd & Hry).
  apply LineFacts.column_in in Hya, Hyb, Hyc, Hyd.
  apply in_map_iff in Hlo_in, Hhi_in.
  destruct Hlo_in as (pl & Hpl & Hpl_in). destruct Hhi_in as (ph & Hph & Hph_in).
  repeat split.
  - assert (Hp : In (fst p) (map fst cnt)) by now apply in_map.
    specialize (Hlo _ Hp). lia.
  - assert (Hp : In (fst p) (map fst cnt)) by now apply in_map.
    specialize (Hhi _ Hp). lia.
  - exists pl. split; [exact Hpl_in|lia].
  - exists ph. split; [exact Hph_in|lia].
  - exists ya, yb. now repeat split.
  - exists yc, yd. now repeat split.
Qed.

(** The outline of a bar 7 wide and 2 high. *)
Lemma horizontal_line_within_witness :
  exists ya yb,
    In (12, ya)%Z [(10, 20); (11, 20); (12, 20); (13, 20); (14, 20); (15, 20); (16, 20);
                   (16, 21); (15, 21); (14, 21); (13, 21); (12, 21); (11, 21); (10, 21)]%Z /\
    In (12, yb)%Z [(10, 20); (11, 20); (12, 20); (13, 20); (14, 20); (15, 20); (16, 20);
                   (16, 21); (15, 21); (14, 21); (13, 21); (12, 21); (11, 21); (10, 21)]%Z /\
    (ya <= 20 <= yb)%Z.
Proof.
  destruct (@horizontal_line_within
              [(10, 20); (11, 20); (12, 20); (13, 20); (14, 20); (15, 20); (16, 20);
               (16, 21); (15, 21); (14, 21); (13, 21); (12, 21); (11, 21); (10, 21)]%Z
              12%Z 20%Z 14%Z 20%Z eq_refl)
    as (_ & _ & _ & Hleft & _).
  exact Hleft.
Defined.

(** X20. A component that is less than three columns wide, an empty one
    included, makes the reduction raise [ValueError]: no point lies on the
    column 2 right of its leftmost point. *)
Theorem horizontal_line_narrow (cnt : contour) :
  (forall p q, In p cnt -> In q cnt -> (fst q - fst p < 2)%Z) ->
  Lines.horizontal_line cnt = Raise ValueError.
Proof.
  intros Hnarrow. unfold Lines.horizontal_line.
  destruct cnt as [|p0 rest]; [reflexivity|].
  destruct (Lines.amin (map fst (p0 :: rest))) as [lo|e] eqn:Hlo; [|discriminate].
  cbn [bind].
  destruct (Lines.amax (map fst (p0 :: rest))) as [hi|e] eqn:Hhi; [|discriminate].
  cbn [bind].
  apply LineFacts.amin_spec in Hlo. destruct Hlo as [Hlo_in _].
  apply in_map_iff in Hlo_in. destruct Hlo_in as (pl & Hpl & Hpl_in).
  destruct (Lines.column (p0 :: rest) (lo + 2)) as [|y ys] eqn:Hcol; [reflexivity|].
  exfalso.
  assert (Hy : In (lo + 2, y)%Z (p0 :: rest)).
  { apply LineFacts.column_in. rewrite Hcol. now left. }
  specialize (Hnarrow pl (lo + 2, y)%Z Hpl_in Hy). simpl in Hnarrow. lia.
Qed.

(** A component of a single point. *)
Lemma horizontal_line_narrow_witness :
  Lines.horizontal_line [(10, 20)%Z] = Raise ValueError.
Proof.
  apply (@horizontal_line_narrow [(10, 20)%Z]).
  intros p q [<-|[]] [<-|[]]. simpl. lia.
Defined.

(** X21. The reduction of a vertical component is the reduction of a
    horizontal one with the two coordinates exchanged, in its argument and
    in its result, errors included. *)
Theorem vertical_line_transposed (cnt : contour) :
  Lines.vertical_line cnt
  = match Lines.horizontal_line (map LineFacts.transpose cnt) with
    | Ok (min_y, top_x, max_y, bottom_x) => Ok (top_x, min_y, bottom_x, max_y)
    | Raise e => Raise e
    end.
Proof.
  unfold Lines.vertical_line, Lines.horizontal_line.
  replace (map fst (map LineFacts.transpose cnt)) with (map snd cnt)
    by (rewrite map_map; reflexivity).
  destruct (Lines.amin (map snd cnt)) as [lo|e]; [|reflexivity]. cbn [bind].
  destruct (Lines.amax (map snd cnt)) as [hi|e]; [|reflexivity]. cbn [bind].
  rewrite !LineFacts.row_transpose.
  destruct (Lines.int_average (Lines.row cnt (lo + 2))) as [a|e]; [|reflexivity].
  cbn [bind].
  destruct (Lines.int_average (Lines.row cnt (hi - 2))) as [b|e]; reflexivity.
Qed.

(** X22. However many components the two canvases have, [get_corners] takes
    at most two lines from each, four in all, and the corners it has before
    it looks for the crossings are the two ends of each line, in the order
    of the lines: eight corners at most. *)
Theorem line_corners_bound (arcLength : contour -> R)
  (horizontal vertical : list contour)
  (lines : list (Z * Z * Z * Z)) (corners : list Point) :
  Lines.line_corners arcLength horizontal vertical = Ok (lines, corners) ->
  (length lines <= 4)%nat /\
  corners = flat_map Lines.ends lines /\
  length corners = (2 * length lines)%nat.
Proof.
  unfold Lines.line_corners.
  destruct (Lines.line_loop Lines.horizontal_line (Lines.longest arcLength horizontal)
              [] []) as [[lines_h corners_h]|e] eqn:Hh; [|discriminate].
  cbn [bind fst snd]. intros Hv.
  apply LineFacts.line_loop_adds in Hh, Hv.
  destruct Hh as (new_h & -> & -> & Hlen_h & _).
  destruct Hv as (new_v & -> & -> & Hlen_v & _).
  pose proof (LineFacts.longest_length arcLength horizontal).
  pose proof (LineFacts.longest_length arcLength vertical).
  simpl app.
  assert (Hends : forall l, length (flat_map Lines.ends l) = (2 * length l)%nat).
  { induction l as [|[[[a b] c] d] t IH]; simpl; [reflexivity|]. rewrite IH. lia. }
  repeat split.
  - rewrite length_app. lia.
  - now rewrite flat_map_app.
  - rewrite <- flat_map_app. apply Hends.
Qed.

(** One bar on the horizontal canvas and nothing on the vertical one. *)
Lemma line_corners_bound_witness :
  (length [(12, 20, 14, 20)%Z] <= 4)%nat /\
  [(12, 20); (14, 20)]%Z = flat_map Lines.ends [(12, 20, 14, 20)%Z] /\
  length [(12, 20); (14, 20)]%Z = (2 * length [(12, 20, 14, 20)%Z])%nat.
Proof.
  apply (@line_corners_bound (fun _ => 0%R)
           [[(10, 20); (11, 20); (12, 20); (13, 20); (14, 20); (15, 20); (16, 20);
             (16, 21); (15, 21); (14, 21); (13, 21); (12, 21); (11, 21); (10, 21)]%Z]
           [] [(12, 20, 14, 20)%Z] [(12, 20); (14, 20)]%Z).
  reflexivity.
Defined.

(** X23. A corner detected last that lies closer than 20 to a corner kept
    before it changes nothing: [get_contour] returns what it returns without
    that corner. *)
Theorem get_contour_ignores_near_corner (order_points : contour -> contour)
  (approxPolyDP : contour -> R -> bool -> contour) (self : DocScanner)
  (H W : Z) (detected : list Point) (c : Point) (contours : list contour) :
  (exists r, In r (Corners.filter_corners detected 20) /\
             (Corners.euclidean r c < 20)%R) ->
  get_contour order_points approxPolyDP self
    {| IM_HEIGHT := H; IM_WIDTH := W; corners := detected ++ [c]; cnts := contours |}
  = get_contour order_points approxPolyDP self
      {| IM_HEIGHT := H; IM_WIDTH := W; corners := detected; cnts := contours |}.
Proof.
  intros (r & Hr & Hnear).
  assert (Hsame : get_corners {| IM_HEIGHT := H; IM_WIDTH := W;
                                 corners := detected ++ [c]; cnts := contours |}
                  = get_corners {| IM_HEIGHT := H; IM_WIDTH := W;
                                   corners := detected; cnts := contours |}).
  { unfold get_corners, Corners.default_min_dist. cbn [corners].
    rewrite CornerFacts.filter_corners_snoc.
    destruct (Corners.predicate _ _ c) eqn:Hp; [|reflexivity].
    exfalso.
    assert (Hfar : (20 <= Corners.euclidean r c)%R).
    { apply (proj1 (CornerFacts.predicate_true 20
                      (Corners.filter_corners detected 20) c) Hp r Hr). }
    lra. }
  assert (Hloop : forall l acc,
            contour_loop approxPolyDP self
              {| IM_HEIGHT := H; IM_WIDTH := W; corners := detected ++ [c];
                 cnts := contours |} l acc
            = contour_loop approxPolyDP self
                {| IM_HEIGHT := H; IM_WIDTH := W; corners := detected;
                   cnts := contours |} l acc).
  { induction l as [|x t IH]; intros acc; cbn [contour_loop IM_WIDTH IM_HEIGHT];
      [reflexivity|].
    destruct (is_valid_contour self (approxPolyDP x 80%R true) W H) as [[|]|e];
      cbn [bind]; auto. }
  unfold get_contour, corner_path, contour_path. rewrite Hsame.
  cbn [IM_WIDTH IM_HEIGHT cnts].
  destruct (if (4 <=? _)%nat then _ else _) as [a|e]; [|reflexivity].
  cbn [bind]. rewrite Hloop. reflexivity.
Qed.

(** The corner (210, 205) after the four corners of the square. *)
Lemma get_contour_ignores_near_corner_witness :
  get_contour keep_order keep_polygon default_scanner
    {| IM_HEIGHT := 1000; IM_WIDTH := 1000;
       corners := square ++ [(210, 205)%Z]; cnts := [] |}
  = get_contour keep_order keep_polygon default_scanner
      {| IM_HEIGHT := 1000; IM_WIDTH := 1000; corners := square; cnts := [] |}.
Proof.
  apply (@get_contour_ignores_near_corner keep_order keep_polygon default_scanner
           1000%Z 1000%Z square (210, 205)%Z []).
  exists (200, 200)%Z. split.
  - rewrite (CornerFacts.filter_corners_int square 20). simpl. left. reflexivity.
  - assert (Hf : Corners.Rgeb (Corners.euclidean (200, 200)%Z (210, 205)%Z) 20 = false)
      by (rewrite (CornerFacts.far_int_spec 20); reflexivity).
    now apply CornerMore.Rgeb_false.
Defined.

(** ** The corner path in double precision *)

Module DoubleOrder.

Import Scanner Doubles DoubleFacts.

(** *** The order of the doubles *)

(** The place of a double other than NaN on the number line: its class
    (negative infinity, negative, zero, positive, positive infinity), then
    its exponent and its mantissa, both negated for a negative number. *)
Definition place (x : double) : Z * Z * Z :=
  match x with
  | S754_infinity true => (-2, 0, 0)
  | S754_finite true m e => (-1, - e, - Z.pos m)
  | S754_zero _ | S754_nan => (0, 0, 0)
  | S754_finite false m e => (1, e, Z.pos m)
  | S754_infinity false => (2, 0, 0)
  end%Z.

Definition below (p q : Z * Z * Z) : Prop :=
  let '(a1, a2, a3) := p in
  let '(b1, b2, b3) := q in
  (a1 < b1 \/ (a1 = b1 /\ (a2 < b2 \/ (a2 = b2 /\ a3 < b3))))%Z.

Lemma compare_finite (e e' : Z) (m m' : positive) :
  match IntDef.Z.compare e e' with
  | Lt => Lt
  | Gt => Gt
  | Eq => Pos.compare_cont Eq m m'
  end = Lt <-> (e < e' \/ (e = e' /\ Z.pos m < Z.pos m'))%Z.
Proof.
  change (IntDef.Z.compare e e') with (e ?= e')%Z.
  change (Pos.compare_cont Eq m m') with (m ?= m')%positive.
  destruct (Z.compare_spec e e'); destruct (Pos.compare_spec m m');
    split; intros; try discriminate; try reflexivity; lia.
Qed.

Lemma compare_finite_opp (e e' : Z) (m m' : positive) :
  match IntDef.Z.compare e e' with
  | Lt => Gt
  | Gt => Lt
  | Eq => CompOpp (Pos.compare_cont Eq m m')
  end = Lt <-> (e' < e \/ (e = e' /\ Z.pos m' < Z.pos m))%Z.
Proof.
  change (IntDef.Z.compare e e') with (e ?= e')%Z.
  change (Pos.compare_cont Eq m m') with (m ?= m')%positive.
  destruct (Z.compare_spec e e'); destruct (Pos.compare_spec m m');
    split; simpl; intros; try discriminate; try reflexivity; lia.
Qed.

Lemma is_Lt (c : comparison) :
  match c with Lt => true | _ => false end = true <-> c = Lt.
Proof. destruct c; split; intros; try discriminate; reflexivity. Qed.

Lemma ltb_below (x y : double) :
  is_nan x = false -> is_nan y = false ->
  (ltb x y = true <-> below (place x) (place y)).
Proof.
  destruct x as [s|s| |s m e], y as [s'|s'| |s' m' e']; try discriminate; intros _ _;
    try (destruct s, s'; unfold ltb, SFltb, SFcompare, place, below;
         split; intros; try discriminate; try reflexivity; lia).
  destruct s, s'; unfold ltb, SFltb, SFcompare, place, below.
  - rewrite is_Lt, compare_finite_opp. lia.
  - split; intros; try reflexivity; lia.
  - split; intros; try discriminate; lia.
  - rewrite is_Lt, compare_finite. lia.
Qed.

Lemma ltb_not_below (x y : double) :
  is_nan x = false -> is_nan y = false ->
  (ltb x y = false <-> ~ below (place x) (place y)).
Proof.
  intros Hx Hy. rewrite <- (ltb_below x y Hx Hy).
  destruct (ltb x y); split; intros; try discriminate; try reflexivity; congruence.
Qed.

(** A double that is a number or an infinity. *)
Definition ordered (x : double) : Prop := is_nan x = false.

Lemma double_ltb_asym (a b : double) :
  ordered a -> ordered b -> ltb a b = true -> ltb b a = false.
Proof.
  unfold ordered. intros Ha Hb. rewrite (ltb_below a b Ha Hb), (ltb_not_below b a Hb Ha).
  destruct (place a) as [[a1 a2] a3], (place b) as [[b1 b2] b3]. simpl. lia.
Qed.

Lemma double_ltb_trans (a b c : double) :
  ordered a -> ordered b -> ordered c ->
  ltb b a = false -> ltb c b = false -> ltb c a = false.
Proof.
  unfold ordered. intros Ha Hb Hc.
  rewrite (ltb_not_below b a Hb Ha), (ltb_not_below c b Hc Hb), (ltb_not_below c a Hc Ha).
  destruct (place a) as [[a1 a2] a3], (place b) as [[b1 b2] b3],
    (place c) as [[c1 c2] c3]. simpl. lia.
Qed.

(** *** Rounding never gives NaN *)

Lemma shr_1_nonneg (mrs : shr_record) :
  (0 <= shr_m mrs)%Z -> (0 <= shr_m (shr_1 mrs))%Z.
Proof. destruct mrs as [[|[p|p|]|p] r s]; simpl; lia. Qed.

Lemma iter_shr_1_nonneg (p : positive) (mrs : shr_record) :
  (0 <= shr_m mrs)%Z -> (0 <= shr_m (iter_pos shr_1 p mrs))%Z.
Proof.
  revert mrs. induction p as [p IH|p IH|]; intros mrs Hm; simpl.
  - apply IH, IH. now apply shr_1_nonneg.
  - now apply IH, IH.
  - now apply shr_1_nonneg.
Qed.

Lemma shr_fexp_nonneg (m e : Z) (l : location) :
  (0 <= m)%Z -> (0 <= shr_m (fst (shr_fexp prec emax m e l)))%Z.
Proof.
  intros Hm. unfold shr_fexp, shr.
  assert (H0 : (0 <= shr_m (shr_record_of_loc m l))%Z) by (destruct l as [|[| |]]; exact Hm).
  destruct (IntDef.Z.sub _ e); simpl; try exact H0. now apply iter_shr_1_nonneg.
Qed.

Lemma round_nearest_even_nonneg (m : Z) (l : location) :
  (0 <= m)%Z -> (0 <= round_nearest_even m l)%Z.
Proof.
  intros Hm. destruct l as [|[| |]]; simpl; try exact Hm.
  - destruct (IntDef.Z.even m); [exact Hm|].
    change (IntDef.Z.add m 1) with (m + 1)%Z. lia.
  - change (IntDef.Z.add m 1) with (m + 1)%Z. lia.
Qed.

Lemma binary_round_aux_number (s : bool) (m e : Z) (l : location) :
  (0 <= m)%Z -> is_nan (binary_round_aux prec emax s m e l) = false.
Proof.
  intros Hm. unfold binary_round_aux.
  pose proof (shr_fexp_nonneg e l Hm) as H1.
  destruct (shr_fexp prec emax m e l) as [mrs' e']. simpl in H1.
  pose proof (shr_fexp_nonneg e' loc_Exact
                (round_nearest_even_nonneg (loc_of_shr_record mrs') H1)) as H2.
  destruct (shr_fexp prec emax _ e' loc_Exact) as [mrs'' e'']. simpl in H2.
  destruct (shr_m mrs'') as [|p|p]; [reflexivity| |lia].
  now destruct (IntDef.Z.leb e'' _).
Qed.

Lemma of_int_number (z : Z) : is_nan (of_int z) = false.
Proof.
  unfold of_int, binary_normalize, binary_round.
  destruct z as [|p|p]; [reflexivity| |];
    destruct (shl_align _ _ _) as [mz ez]; now apply binary_round_aux_number.
Qed.

(** The area of a contour is a number or an infinity. *)
Lemma contourArea_ordered (cnt : contour) : ordered (contourArea cnt).
Proof.
  unfold ordered, contourArea.
  replace (div (of_int 1) (of_int 2)) with (S754_finite false 4503599627370496 (-53))
    by (vm_compute; reflexivity).
  pose proof (of_int_number (contourArea2 cnt)) as Hn.
  destruct (of_int (contourArea2 cnt)) as [s|s| |s m e]; try reflexivity; try discriminate.
  unfold mul, SFmul. now apply binary_round_aux_number.
Qed.

(** *** The corner path, once it has returned *)

Lemma mapM_inv (A B : Type) (f : A -> result B) (l : list A) (ys : list B) :
  mapM f l = Ok ys -> Forall2 (fun x y => f x = Ok y) l ys.
Proof.
  revert ys. induction l as [|x t IH]; simpl; intros ys H.
  - injection H as <-. constructor.
  - destruct (f x) as [y|e] eqn:Hx; [|discriminate]. cbn [bind] in H.
    destruct (mapM f t) as [ys'|e]; [|discriminate]. cbn [bind] in H.
    injection H as <-. constructor; [exact Hx|now apply IH].
Qed.

Lemma combine_keys (A B : Type) (P : A -> B -> Prop) (l : list A) (ys : list B) :
  Forall2 P l ys ->
  (forall k q, In (k, q) (combine ys l) -> In q l /\ P q k) /\
  (forall q, In q l -> exists k, In (k, q) (combine ys l)).
Proof.
  induction 1 as [|x y l ys Hxy Hall [IH1 IH2]]; simpl; split.
  - intros k q [].
  - intros q [].
  - intros k q [Heq|Hin].
    + injection Heq as <- <-. split; [now left|exact Hxy].
    + destruct (IH1 k q Hin). split; [now right|assumption].
  - intros q [<-|Hin]; [exists y; now left|].
    destruct (IH2 q Hin) as [k Hk]. exists k. now right.
Qed.

(** The arguments [math.acos] accepts: NaN and the numbers of [-1, 1]. *)
Definition in_domain (c : double) : bool := is_nan c || negb (outside c).

(** The four cosines of a quadrilateral are arguments [math.acos] accepts. *)
Definition computable (quad : contour) : bool :=
  match quad with
  | [tl; tr; br; bl] =>
      in_domain (cosine_at tl tr br) && in_domain (cosine_at bl tl tr)
      && in_domain (cosine_at tr br bl) && in_domain (cosine_at br bl tl)
  | _ => false
  end.

Section Libm.

Variable acos : double -> double.
Variable order_points : contour -> contour.
Variable self : DocScanner.

Lemma math_acos_returns (c : double) :
  in_domain c = true <-> exists a, math_acos acos c = Ok a.
Proof.
  unfold in_domain. destruct (is_nan c) eqn:Hn; simpl.
  - destruct c; try discriminate.
    split; [intros _; now exists S754_nan|reflexivity].
  - destruct (outside c) eqn:Ho; simpl.
    + rewrite (math_acos_outside acos c Hn Ho).
      split; [discriminate|intros [a Ha]; discriminate].
    + rewrite (math_acos_inside acos c Hn Ho). split; [eauto|reflexivity].
Qed.

Lemma get_angle_returns (p1 p2 p3 : Point) :
  in_domain (cosine_at p1 p2 p3) = true <-> exists a, get_angle acos p1 p2 p3 = Ok a.
Proof.
  rewrite math_acos_returns, get_angle_cosine.
  destruct (math_acos acos (cosine_at p1 p2 p3)) as [a|e]; cbn [bind];
    split; intros [x Hx]; try discriminate; eauto.
Qed.

(** [angle_range] returns exactly for the quadrilaterals whose four cosines
    [math.acos] accepts. *)
Lemma angle_range_returns (quad : contour) :
  computable quad = true <-> exists x, angle_range acos quad = Ok x.
Proof.
  destruct quad as [|tl [|tr [|br [|bl [|]]]]];
    try (split; [discriminate|intros [x Hx]; discriminate]).
  unfold computable, angle_range. rewrite !andb_true_iff, !get_angle_returns.
  destruct (get_angle acos tl tr br) as [x1|e]; cbn [bind];
    [|split; [intros [[[[x Hx] _] _] _]|intros [x Hx]]; discriminate].
  destruct (get_angle acos bl tl tr) as [x2|e]; cbn [bind];
    [|split; [intros [[[_ [x Hx]] _] _]|intros [x Hx]]; discriminate].
  destruct (get_angle acos tr br bl) as [x3|e]; cbn [bind];
    [|split; [intros [[_ [x Hx]] _]|intros [x Hx]]; discriminate].
  destruct (get_angle acos br bl tl) as [x4|e]; cbn [bind];
    [|split; [intros [_ [x Hx]]|intros [x Hx]]; discriminate].
  split; eauto 10.
Qed.

Lemma mapM_returns (A B : Type) (f : A -> result B) (l : list A) :
  (forall x, In x l -> exists y, f x = Ok y) -> exists ys, mapM f l = Ok ys.
Proof.
  induction l as [|x t IH]; simpl; intros H; [eauto|].
  destruct (H x) as [y Hy]; [now left|]. rewrite Hy. cbn [bind].
  destruct IH as [ys Hys]; [intros z Hz; apply H; now right|].
  rewrite Hys. cbn [bind]. eauto.
Qed.

Lemma is_valid_contour_returns (cnt : contour) (W H : Z) :
  (exists x, angle_range acos cnt = Ok x) ->
  exists b, is_valid_contour acos self cnt W H = Ok b.
Proof.
  intros [x Hx]. unfold is_valid_contour.
  destruct (negb (length cnt =? 4)%nat); [eauto|].
  destruct (negb (ltb _ _)); [eauto|].
  rewrite Hx. cbn [bind]. eauto.
Qed.

(** The quadrilaterals the corner path judges, and those of greatest area. *)
Definition quadrilaterals (img : Image) : list contour :=
  map order_points (Combinations.combinations (get_corners img) 4).

Definition largest (l : list contour) : list contour :=
  Py.sorted_reverse ltb contourArea l.

Lemma largest_descending_double (l : list contour) :
  StronglySorted (fun x y => ltb (contourArea x) (contourArea y) = false) (largest l).
Proof.
  apply (@Py.sorted_reverse_descending _ _ ltb contourArea ordered
           double_ltb_asym double_ltb_trans).
  unfold Py.all_ordered. rewrite Forall_forall. intros q _. apply contourArea_ordered.
Qed.

Lemma corner_path_returned (img : Image) (acc acc' : list contour) :
  (4 <= length (get_corners img))%nat ->
  corner_path acos order_points self img acc = Ok acc' ->
  let top5 := firstn 5 (largest (quadrilaterals img)) in
  exists keys best r valid,
    mapM (angle_range acos) top5 = Ok keys /\
    In best top5 /\
    angle_range acos best = Ok r /\
    ((forall k, In k keys -> is_nan k = false) ->
     forall q r', In q top5 -> angle_range acos q = Ok r' -> ltb r' r = false) /\
    is_valid_contour acos self best (IM_WIDTH img) (IM_HEIGHT img) = Ok valid /\
    acc' = (if valid then acc ++ [best] else acc).
Proof.
  intros Hlen Hpath top5. unfold corner_path in Hpath.
  destruct (Nat.leb_spec 4 (length (get_corners img))) as [_|Hfew]; [|lia].
  fold (quadrilaterals img) in Hpath. fold (largest (quadrilaterals img)) in Hpath.
  fold top5 in Hpath.
  destruct (mapM (angle_range acos) top5) as [keys|e] eqn:Hkeys; [|discriminate].
  cbn [bind] in Hpath.
  pose proof (mapM_inv _ _ Hkeys) as Hall.
  destruct (combine_keys Hall) as [Hpair Hkey].
  pose proof (Py.sorted_perm ltb fst (combine keys top5)) as Hperm.
  destruct (Py.sorted ltb fst (combine keys top5)) as [|[r best] tail] eqn:Hsorted;
    [discriminate|].
  cbn [map snd] in Hpath.
  destruct (is_valid_contour acos self best (IM_WIDTH img) (IM_HEIGHT img))
    as [valid|e] eqn:Hvalid; [|discriminate].
  cbn [bind] in Hpath. injection Hpath as <-.
  assert (Hin : In (r, best) (combine keys top5))
    by (apply (Permutation_in _ Hperm); now left).
  destruct (Hpair r best Hin) as [Hbest Hr].
  exists keys, best, r, valid.
  split; [reflexivity|]. split; [exact Hbest|]. split; [exact Hr|].
  split; [|split; [exact Hvalid|reflexivity]].
  intros Hnum q r' Hq Hr'.
  assert (Hord : Py.all_ordered fst ordered (combine keys top5)).
  { unfold Py.all_ordered. rewrite Forall_forall. intros [k q0] Hk. simpl.
    apply Hnum. now apply (in_combine_l keys top5 k q0). }
  pose proof (@Py.sorted_ascending _ _ ltb fst ordered double_ltb_asym double_ltb_trans
                (combine keys top5) Hord) as Hasc.
  rewrite Hsorted in Hasc.
  destruct (Hkey q Hq) as [k Hk].
  assert (Hk' : k = r').
  { destruct (Hpair k q Hk) as [_ Hqk]. congruence. }
  subst k.
  apply (Permutation_in _ (Permutation_sym Hperm)) in Hk.
  inversion Hasc as [|? ? _ Htail]; subst.
  destruct Hk as [Heq|Hk].
  - injection Heq as <- _. apply double_ltb_irrefl.
  - rewrite Forall_forall in Htail. exact (Htail _ Hk).
Qed.

(** The corner path returns exactly when [math.acos] accepts the cosines of
    the quadrilaterals it has kept. *)
Lemma corner_path_returns (img : Image) (acc : list contour) :
  (4 <= length (get_corners img))%nat ->
  (forallb computable (firstn 5 (largest (quadrilaterals img))) = true <->
   exists acc', corner_path acos order_points self img acc = Ok acc').
Proof.
  intros Hlen. rewrite forallb_forall. split.
  - intros Hc.
    destruct (mapM_returns (angle_range acos) (firstn 5 (largest (quadrilaterals img))))
      as [keys Hkeys].
    { intros q Hq. apply angle_range_returns. now apply Hc. }
    pose proof (mapM_inv _ _ Hkeys) as Hall.
    destruct (combine_keys Hall) as [Hpair _].
    unfold corner_path.
    destruct (Nat.leb_spec 4 (length (get_corners img))) as [_|Hfew]; [|lia].
    fold (quadrilaterals img). fold (largest (quadrilaterals img)).
    rewrite Hkeys. cbn [bind].
    pose proof (Py.sorted_perm ltb fst
                  (combine keys (firstn 5 (largest (quadrilaterals img))))) as Hperm.
    destruct (Py.sorted ltb fst _) as [|[r best] tail].
    + exfalso. apply Permutation_nil in Hperm.
      pose proof (Forall2_length Hall) as Hl.
      assert (Hne : firstn 5 (largest (quadrilaterals img)) <> []).
      { apply DoubleSelect.top5_nonempty. intros Hnil. apply map_eq_nil in Hnil.
        now apply (@Combinations.combinations_nonempty _ (get_corners img) 4 Hlen). }
      destruct (firstn 5 (largest (quadrilaterals img))); [contradiction|].
      destruct keys; discriminate.
    + cbn [map snd].
      assert (Hin : In (r, best) (combine keys (firstn 5 (largest (quadrilaterals img)))))
        by (apply (Permutation_in _ Hperm); now left).
      destruct (Hpair r best Hin) as [_ Hr].
      destruct (is_valid_contour_returns best (IM_WIDTH img) (IM_HEIGHT img))
        as [b Hb]; [eauto|].
      rewrite Hb. cbn [bind]. eauto.
  - intros [acc' Hpath] q Hq.
    destruct (corner_path_returned img acc Hlen Hpath)
      as (keys & _ & _ & _ & Hkeys & _).
    pose proof (mapM_inv _ _ Hkeys) as Hall.
    destruct (combine_keys Hall) as [Hpair Hkey].
    destruct (Hkey q Hq) as [k Hk]. destruct (Hpair k q Hk) as [_ Hqk].
    apply angle_range_returns. eauto.
Qed.

Lemma top5_quadrilaterals (img : Image) :
  let top5 := firstn 5 (largest (quadrilaterals img)) in
  let rest := skipn 5 (largest (quadrilaterals img)) in
  Permutation (top5 ++ rest) (quadrilaterals img) /\
  length top5 = Nat.min 5 (length (Combinations.combinations (get_corners img) 4)) /\
  forall q q', In q top5 -> In q' rest ->
               ltb (contourArea q) (contourArea q') = false.
Proof.
  cbv zeta. split; [|split].
  - rewrite firstn_skipn. apply Py.sorted_reverse_perm.
  - rewrite length_firstn. f_equal.
    rewrite (Permutation_length (Py.sorted_reverse_perm ltb contourArea _)).
    unfold quadrilaterals. apply length_map.
  - intros q q' Hq Hq'.
    exact (Py.StronglySorted_firstn_skipn 5 (largest_descending_double _) q q' Hq Hq').
Qed.

End Libm.

End DoubleOrder.

(** ** A frame with five corners *)

Module FiveCorners.

Import Scanner Samples Doubles DoubleFacts.

(** The corners of the square and a fifth corner inside it. *)
Definition five_corners : list Point :=
  [(200, 200); (800, 200); (800, 800); (200, 800); (450, 520)]%Z.

Definition five : Image := image_of five_corners [].

Lemma get_corners_five : get_corners five = five_corners.
Proof.
  unfold get_corners, Corners.default_min_dist.
  rewrite (CornerFacts.filter_corners_int _ 20). reflexivity.
Qed.

(** The five quadrilaterals of four of these corners, by descending area. *)
Lemma top5_five :
  firstn 5 (DoubleOrder.largest (DoubleOrder.quadrilaterals keep_order five))
  = [[(200, 200); (800, 200); (800, 800); (200, 800)];
     [(200, 200); (800, 200); (800, 800); (450, 520)];
     [(800, 200); (800, 800); (200, 800); (450, 520)];
     [(200, 200); (800, 200); (200, 800); (450, 520)];
     [(200, 200); (800, 800); (200, 800); (450, 520)]]%Z.
Proof.
  unfold DoubleOrder.quadrilaterals. rewrite get_corners_five. vm_compute. reflexivity.
Qed.

Lemma computable_five :
  forallb DoubleOrder.computable
    (firstn 5 (DoubleOrder.largest (DoubleOrder.quadrilaterals keep_order five))) = true.
Proof. rewrite top5_five. vm_compute. reflexivity. Qed.

End FiveCorners.

(** X24. The corner path in double precision, for a frame with four corners
    or more. It keeps the five quadrilaterals of greatest area (all of them
    when there are fewer). It returns exactly when [math.acos] accepts the
    four cosines of each of them, and raises [ValueError] otherwise. When
    it returns, the quadrilateral it has judged is one of those kept; if no
    angle range among them is NaN, none of them has a smaller angle range;
    and it is added to the candidates exactly when [is_valid_contour]
    accepts it. *)
Theorem corner_path_returned_best_of_top5
  (acos : Doubles.double -> Doubles.double) (order_points : contour -> contour)
  (self : Doubles.DocScanner) (img : Image) (acc : list contour) :
  (4 <= length (get_corners img))%nat ->
  let quads := map order_points (Combinations.combinations (get_corners img) 4) in
  let top5 := firstn 5 (Py.sorted_reverse Doubles.ltb Doubles.contourArea quads) in
  let rest := skipn 5 (Py.sorted_reverse Doubles.ltb Doubles.contourArea quads) in
  Permutation (top5 ++ rest) quads /\
  length top5 = Nat.min 5 (length (Combinations.combinations (get_corners img) 4)) /\
  (forall q q', In q top5 -> In q' rest ->
                Doubles.ltb (Doubles.contourArea q) (Doubles.contourArea q') = false) /\
  (forallb DoubleOrder.computable top5 = true <->
   exists acc', Doubles.corner_path acos order_points self img acc = Ok acc') /\
  (forallb DoubleOrder.computable top5 = false ->
   Doubles.corner_path acos order_points self img acc = Raise ValueError) /\
  forall acc',
    Doubles.corner_path acos order_points self img acc = Ok acc' ->
    exists keys best r valid,
      mapM (Doubles.angle_range acos) top5 = Ok keys /\
      In best top5 /\
      Doubles.angle_range acos best = Ok r /\
      ((forall k, In k keys -> DoubleFacts.is_nan k = false) ->
       forall q r', In q top5 -> Doubles.angle_range acos q = Ok r' ->
                    Doubles.ltb r' r = false) /\
      Doubles.is_valid_contour acos self best (IM_WIDTH img) (IM_HEIGHT img) = Ok valid /\
      acc' = (if valid then acc ++ [best] else acc).
Proof.
  intros Hlen quads top5 rest.
  destruct (DoubleOrder.top5_quadrilaterals order_points img) as (Hperm & Hl & Harea).
  pose proof (DoubleOrder.corner_path_returns acos order_points self img acc Hlen)
    as Hreturns.
  split; [exact Hperm|]. split; [exact Hl|]. split; [exact Harea|].
  split; [exact Hreturns|]. split.
  - intros Hc.
    destruct (DoubleSelect.corner_path_extends acos order_points self img acc)
      as [Hr|[Hr|(q & Hr & _)]]; [exact Hr| |].
    + assert (Hex : exists acc', Doubles.corner_path acos order_points self img acc
                                 = Ok acc') by eauto.
      apply Hreturns in Hex. unfold top5, quads in Hc.
      unfold DoubleOrder.largest, DoubleOrder.quadrilaterals in Hex. congruence.
    + assert (Hex : exists acc', Doubles.corner_path acos order_points self img acc
                                 = Ok acc') by eauto.
      apply Hreturns in Hex. unfold top5, quads in Hc.
      unfold DoubleOrder.largest, DoubleOrder.quadrilaterals in Hex. congruence.
  - intros acc' Hpath.
    exact (DoubleOrder.corner_path_returned acos order_points self img acc Hlen Hpath).
Qed.

(** The frame with five corners: the corner path returns, whatever the arc
    cosine of the library. *)
Lemma corner_path_returned_best_of_top5_witness :
  (4 <= length (get_corners FiveCorners.five))%nat /\
  forall acos : Doubles.double -> Doubles.double,
    exists (acc' : list contour) (best : contour) (valid : bool),
      Doubles.corner_path acos keep_order Doubles.default_scanner FiveCorners.five []
      = Ok acc' /\
      In best
        (firstn 5 (Py.sorted_reverse Doubles.ltb Doubles.contourArea
                     (map keep_order
                        (Combinations.combinations (get_corners FiveCorners.five) 4)))) /\
      acc' = (if valid : bool then [] ++ [best] else []).
Proof.
  assert (Hlen : (4 <= length (get_corners FiveCorners.five))%nat)
    by (rewrite FiveCorners.get_corners_five; simpl; lia).
  split; [exact Hlen|]. intros acos.
  destruct (@corner_path_returned_best_of_top5 acos keep_order Doubles.default_scanner
              FiveCorners.five [] Hlen) as (_ & _ & _ & Hreturns & _ & Hbest).
  destruct Hreturns as [Hreturns _].
  destruct (Hreturns FiveCorners.computable_five) as [acc' Hpath].
  destruct (Hbest acc' Hpath) as (keys & best & r & valid & _ & Hin & _ & _ & _ & Hacc).
  exists acc', best, valid. split; [exact Hpath|]. split; [exact Hin|exact Hacc].
Defined.
